(** * spineplot: confusion matrix, purity and efficiency estimators

    A shallow embedding of [spineplot/confusion.py] and
    [spineplot/pur_eff_analyzer.py].

    Conventions of the embedding.
    - A Python exception is a value of [exn]; a call that may raise has
      type [result A].
    - A float64 is a [float]: an exact rational, or one of the three
      non-finite values.  Rounding to 53 bits is not modelled: a result
      within the finite range of float64 is the exact rational, so
      equalities between finite results are stated with [==] on [Q]; a
      result beyond the largest finite float overflows to an infinity.
    - A numpy [int64] cell is a [Z] kept in range by [wrap64].
    - A DataFrame is the list of its rows; a row maps a column name to the
      float stored there (the columns a function reads are taken to exist).
*)

From Stdlib Require Import String ZArith QArith Qround List Bool Lia Lqa.
From Stdlib Require Import Permutation Morphisms.
Import ListNotations.

Set Implicit Arguments.

(* ------------------------------------------------------------------ *)
(** ** Exceptions *)

Inductive exn : Type :=
| ZeroDivisionError
| IndexError
| ValueError
| AttributeError
| SyntaxError.

Inductive result (A : Type) : Type :=
| Ok (a : A)
| Raise (e : exn).

Arguments Ok {A} a.
Arguments Raise {A} e.

Definition bind {A B : Type} (r : result A) (k : A -> result B) : result B :=
  match r with
  | Ok a => k a
  | Raise e => Raise e
  end.

Notation "x <- r ;; k" := (bind r (fun x => k))
  (at level 61, r at next level, right associativity).

(** [for x in xs: ys.append(f x)] where [f] may raise: the first exception
    aborts the loop. *)
Fixpoint for_each {A B : Type} (f : A -> result B) (xs : list A)
  : result (list B) :=
  match xs with
  | [] => Ok []
  | x :: xs' =>
      y <- f x ;;
      ys <- for_each f xs' ;;
      Ok (y :: ys)
  end.

(* ------------------------------------------------------------------ *)
(** ** Floats *)

Inductive float : Type :=
| Fin (q : Q)
| NaN
| PInf
| NInf.

Definition Qltb (a b : Q) : bool := negb (Qle_bool b a).

(** [x > b], [x < b] and [x == b] for a float [x] and a finite bound [b];
    every comparison with NaN is false. *)
Definition float_gt (x : float) (b : Q) : bool :=
  match x with
  | Fin q => Qltb b q
  | PInf => true
  | NaN | NInf => false
  end.

Definition float_lt (x : float) (b : Q) : bool :=
  match x with
  | Fin q => Qltb q b
  | NInf => true
  | NaN | PInf => false
  end.

Definition float_eq (x : float) (b : Q) : bool :=
  match x with
  | Fin q => Qeq_bool q b
  | NaN | PInf | NInf => false
  end.

(** The largest finite float64, [(2^53 - 1) * 2^971]. *)
Definition float_max : Q := inject_Z ((2 ^ 53 - 1) * 2 ^ 971).

(** The float a real result becomes: beyond the finite range it is an
    infinity. *)
Definition overflow (q : Q) : float :=
  if Qltb float_max q then PInf
  else if Qltb q (- float_max) then NInf
  else Fin q.

(** Python's [a / b] on two ints. *)
Definition truediv (a b : Z) : result Q :=
  if (b =? 0)%Z then Raise ZeroDivisionError
  else Ok (inject_Z a / inject_Z b).

(* ------------------------------------------------------------------ *)
(** ** Python list indexing *)

(** [l[0]] *)
Definition first {A : Type} (l : list A) : result A :=
  match l with
  | [] => Raise IndexError
  | x :: _ => Ok x
  end.

(** [l[-1]] *)
Fixpoint last_item {A : Type} (l : list A) : result A :=
  match l with
  | [] => Raise IndexError
  | [x] => Ok x
  | _ :: l' => last_item l'
  end.

(* ------------------------------------------------------------------ *)
(** ** numpy and pandas primitives used for binning *)

(** [numpy.linspace(start, stop, num)], [endpoint=True]:
    [step = (stop - start) / (num - 1)], [y = arange(0, num) * step + start]
    and, when [num > 1], [y[-1] = stop]. *)
Definition linspace (start stop : Q) (num : nat) : list Q :=
  match num with
  | O => []
  | S O => [start]
  | S div =>
      let step := (stop - start) / inject_Z (Z.of_nat div) in
      map (fun i => inject_Z (Z.of_nat i) * step + start) (seq 0 div)
        ++ [stop]
  end.

(** [a.searchsorted(x, side='left')] on a sorted array: the first index
    [i] with [x <= a[i]]. *)
Fixpoint searchsorted_left (a : list Q) (x : Q) : nat :=
  match a with
  | [] => O
  | e :: a' => if Qltb e x then S (searchsorted_left a' x) else O
  end.

Fixpoint monotonic_increasing (l : list Q) : bool :=
  match l with
  | a :: (b :: _) as l' => Qle_bool a b && monotonic_increasing l'
  | _ => true
  end.

Fixpoint has_duplicates (l : list Q) : bool :=
  match l with
  | a :: (b :: _) as l' => Qeq_bool a b || has_duplicates l'
  | _ => false
  end.

(** The bin code [pandas.cut] gives one value ([right=True],
    [include_lowest=False]): [ids = bins.searchsorted(x, side='left')];
    the value is NaN-binned when it is NaN, when [ids == 0] or when
    [ids == len(bins)]; otherwise its interval is number [ids - 1],
    that is [(bins[ids-1], bins[ids]]]. *)
Definition cut_code (bins : list Q) (x : float) : option nat :=
  match x with
  | Fin q =>
      let ids := searchsorted_left bins q in
      if (ids =? 0)%nat || (ids =? length bins)%nat then None
      else Some (ids - 1)%nat
  | NaN | PInf | NInf => None
  end.

(** [pandas.cut(x, bins)] with an explicit sequence of edges: the edges
    must increase monotonically and (unless there are exactly two of them)
    be unique, else [ValueError]. *)
Definition cut (x : list float) (bins : list Q) : result (list (option nat)) :=
  if negb (monotonic_increasing bins) then Raise ValueError
  else if has_duplicates bins && negb (length bins =? 2)%nat
       then Raise ValueError
  else Ok (map (cut_code bins) x).

(** The interval with code [k] of a binning.  pandas labels the
    intervals with the edges rounded to three or more significant decimals
    (the least number, below 20, that keeps them apart); the model labels
    them with the edges themselves, so [left], [right] and [mid] agree
    with the source in their order, and in their values where the edges
    have at most three decimals. *)
Record Interval : Type := { left : Q; right : Q }.

Definition mid (i : Interval) : Q := (1 # 2) * (left i + right i).

Definition interval (bins : list Q) (k : nat) : Interval :=
  {| left := nth k bins 0; right := nth (S k) bins 0 |}.

(* ------------------------------------------------------------------ *)
(** ** Samples and data frames *)

Definition row : Type := string -> float.
Definition DataFrame : Type := list row.

(** One entry of [all_samples] (the keys ['sample'], ['df'], ['pot'] and
    ['livetime'] of the dict built in [main]). *)
Record sample_dict : Type :=
  { sample : string; df : DataFrame; pot : float; livetime : float }.

(** [[d for d in all_samples if d['sample'] == name][0]] *)
Definition find_sample (all_samples : list sample_dict) (name : string)
  : result sample_dict :=
  first (filter (fun d => String.eqb (sample d) name) all_samples).

Definition len {A : Type} (l : list A) : Z := Z.of_nat (length l).

(** [df[df[col] == 1]] *)
Definition select_eq_1 (col : string) (d : DataFrame) : DataFrame :=
  filter (fun r => float_eq (r col) 1) d.

(* ------------------------------------------------------------------ *)
(** ** [plot_eff_by_var] *)

Module PlotEff.

(** [config['variables'][var]]: the keys ['range'] and ['nbins']. *)
Record var_config : Type := { range : list Q; nbins : nat }.

Definition option_nat_eqb (a b : option nat) : bool :=
  match a, b with
  | Some x, Some y => (x =? y)%nat
  | None, None => true
  | _, _ => false
  end.

(** [Series.unique()]: the distinct values in order of first appearance. *)
Fixpoint unique_from (seen : list (option nat)) (l : list (option nat))
  : list (option nat) :=
  match l with
  | [] => []
  | x :: l' =>
      if existsb (option_nat_eqb x) seen then unique_from seen l'
      else x :: unique_from (x :: seen) l'
  end.

Definition unique (l : list (option nat)) : list (option nat) :=
  unique_from [] l.

(** [i.left] / [i.right] for an entry of [unique().tolist()]; a NaN entry
    is a float and has neither attribute. *)
Definition attr (f : Interval -> Q) (bins : list Q) (i : option nat)
  : result Q :=
  match i with
  | Some k => Ok (f (interval bins k))
  | None => Raise AttributeError
  end.

Fixpoint insert_sorted (x : Q) (l : list Q) : list Q :=
  match l with
  | [] => [x]
  | y :: l' => if Qltb y x then y :: insert_sorted x l' else x :: l
  end.

(** [sorted(l)] *)
Definition sorted (l : list Q) : list Q := fold_right insert_sorted [] l.

(** [max(l)] *)
Definition py_max (l : list Q) : result Q :=
  match l with
  | [] => Raise ValueError
  | x :: l' => Ok (fold_left (fun m y => if Qltb m y then y else m) l' x)
  end.

(** Lines 248--251 and 259--262: the histogram edges of the bins that
    occur in the data. *)
Definition hedges (bins : list Q) (codes : list (option nat))
  : result (list Q) :=
  lefts <- for_each (attr left bins) (unique codes) ;;
  rights <- for_each (attr right bins) (unique codes) ;;
  lastedge <- py_max rights ;;
  Ok (sorted lefts ++ [lastedge]).

(** [df.groupby(col)] on a categorical column with [ncat] categories,
    iterated: the groups come in category order and rows without a
    category are dropped.  [observed] is the keyword the source leaves at
    its default: with [observed = false] (the pandas 1.x and 2.x default)
    every category yields a group, an empty one included; with
    [observed = true] (the pandas 3 default) only the categories that occur
    do. *)
Definition groupby (observed : bool) (ncat : nat)
    (codes : list (option nat)) (d : DataFrame) : list (nat * DataFrame) :=
  let group_of k :=
    (k, map snd (filter (fun cr => option_nat_eqb (fst cr) (Some k))
                        (combine codes d))) in
  let groups := map group_of (seq 0 ncat) in
  if observed then filter (fun g => negb (length (snd g) =? 0)%nat) groups
  else groups.

(** What one turn of the loop of lines 267--274 appends: the bin's edges
    and centre ([bxerr0s], [bcs], [bxerr1s]), the plotted ratio ([vals])
    and the contents set in [hpass] and [htotal]. *)
Record EfficiencyPoint : Type :=
  { bxerr0 : Q; bc : Q; bxerr1 : Q; val : Q;
    pass_count : Z; total_count : Z }.

Definition eff_loop_body (bins : list Q) (g : nat * DataFrame)
  : result EfficiencyPoint :=
  let name := interval bins (fst g) in
  let group := snd g in
  let passed := select_eq_1 "reco_all_cuts_satisfied" group in
  v <- truediv (len group) (len passed) ;;
  Ok {| bxerr0 := left name; bc := mid name; bxerr1 := right name;
        val := v; pass_count := len passed; total_count := len group |}.

Record eff_by_var : Type :=
  { hedges_ana : list Q; counts : list Z;
    hedges_eff : list Q; points : list EfficiencyPoint }.

Definition bcs (r : eff_by_var) : list Q := map bc (points r).
Definition vals (r : eff_by_var) : list Q := map val (points r).

(** Lines 229--230: [sig_df[(sig_df[var] > lo) & (sig_df[var] < hi)]]. *)
Definition in_range (lo hi : Q) (x : float) : bool :=
  float_gt x lo && float_lt x hi.

Definition filter_range (var : string) (lo hi : Q) (d : DataFrame)
  : DataFrame :=
  filter (fun r => in_range lo hi (r var)) d.

(** The function up to the end of the loop over the efficiency bins: a
    result is the state the source has reached at line 274.  What follows
    (the interval of [TGraphAsymmErrors.Divide] and the drawing) is left
    to ROOT and matplotlib and may still raise, as [errorbar] does when
    the number of points is not [_nbins_eff]. *)
Definition plot_eff_by_var (observed : bool)
    (all_samples : list sample_dict) (var : string) (config : var_config)
    (ana_eff_bins_equal : bool) (nbins_eff : nat) : result eff_by_var :=
  sig <- find_sample all_samples "signal" ;;
  lo <- first (range config) ;;
  hi <- last_item (range config) ;;
  let sig_df := filter_range var lo hi (df sig) in
  let x := map (fun r => r var) sig_df in
  var_q_ana <- cut x (range config) ;;
  let _nbins_eff := if ana_eff_bins_equal then nbins config else nbins_eff in
  let eff_bins := linspace lo hi (_nbins_eff + 1) in
  var_q_eff <- cut x eff_bins ;;
  hedges_ana <- hedges (range config) var_q_ana ;;
  let counts :=
    map (fun g => len (snd g))
        (groupby observed (length (range config) - 1) var_q_ana sig_df) in
  hedges_eff <- hedges eff_bins var_q_eff ;;
  points <- for_each (eff_loop_body eff_bins)
              (groupby observed (length eff_bins - 1) var_q_eff sig_df) ;;
  Ok {| hedges_ana := hedges_ana; counts := counts;
        hedges_eff := hedges_eff; points := points |}.

(** The bin an event value ends in: filtered, then cut on the uniform
    efficiency edges. *)
Definition eff_bin (lo hi : Q) (n : nat) (x : float) : option nat :=
  if in_range lo hi x then cut_code (linspace lo hi (n + 1)) x else None.

End PlotEff.

(** Rows for examples: the variable ["x"] and the flag
    ["reco_all_cuts_satisfied"]. *)
Definition event (x : Q) (passed : Q) : row :=
  fun col =>
    if String.eqb col "x" then Fin x
    else if String.eqb col "reco_all_cuts_satisfied" then Fin passed
    else NaN.

Definition signal_sample (d : DataFrame) : sample_dict :=
  {| sample := "signal"; df := d; pot := Fin 1; livetime := Fin 1 |}.

(* ------------------------------------------------------------------ *)
(** ** Float arithmetic of the purity calculation

    IEEE rules for the non-finite values and for overflow; zero carries
    no sign, so a finite non-zero value divided by zero takes the sign of
    the numerator. *)

Definition Qsign_pos (q : Q) : bool := Qltb 0 q.

Definition inf_of_sign (positive : bool) : float :=
  if positive then PInf else NInf.

Definition fmul (x y : float) : float :=
  match x, y with
  | NaN, _ | _, NaN => NaN
  | Fin a, Fin b => overflow (a * b)
  | Fin a, PInf | PInf, Fin a =>
      if Qeq_bool a 0 then NaN else inf_of_sign (Qsign_pos a)
  | Fin a, NInf | NInf, Fin a =>
      if Qeq_bool a 0 then NaN else inf_of_sign (negb (Qsign_pos a))
  | PInf, PInf | NInf, NInf => PInf
  | PInf, NInf | NInf, PInf => NInf
  end.

Definition fadd (x y : float) : float :=
  match x, y with
  | NaN, _ | _, NaN => NaN
  | Fin a, Fin b => overflow (a + b)
  | PInf, NInf | NInf, PInf => NaN
  | PInf, _ | _, PInf => PInf
  | NInf, _ | _, NInf => NInf
  end.

Definition fdiv (x y : float) : float :=
  match x, y with
  | NaN, _ | _, NaN => NaN
  | Fin a, Fin b =>
      if Qeq_bool b 0
      then (if Qeq_bool a 0 then NaN else inf_of_sign (Qsign_pos a))
      else overflow (a / b)
  | Fin _, PInf | Fin _, NInf => Fin 0
  | PInf, Fin b => inf_of_sign (Qle_bool 0 b)
  | NInf, Fin b => inf_of_sign (negb (Qle_bool 0 b))
  | PInf, PInf | PInf, NInf | NInf, PInf | NInf, NInf => NaN
  end.

Definition of_int (z : Z) : float := Fin (inject_Z z).

(* ------------------------------------------------------------------ *)
(** ** [calculate_efficiency], [calculate_efficiency_by_cut],
       [calculate_purity] *)

Module PurEff.

(** [df[df[col] == 0]] *)
Definition select_eq_0 (col : string) (d : DataFrame) : DataFrame :=
  filter (fun r => float_eq (r col) 0) d.

Definition calculate_efficiency (all_samples : list sample_dict)
  : result Q :=
  sig <- find_sample all_samples "signal" ;;
  let sig_df := df sig in
  let total_signal_events := len sig_df in
  let selected_signal_events :=
    len (select_eq_1 "reco_all_cuts_satisfied" sig_df) in
  truediv selected_signal_events total_signal_events.

(** A piece of a query string is kept as the sequence of its top-level
    tokens, the way [DataFrame.query] reads it: operands (a comparison, a
    negation, an expression in brackets) and the connectives between
    them.  pandas replaces [&] by [and] and [|] by [or] before it parses,
    so both bind below comparisons, and [&] binds tighter than [|]. *)
Inductive token : Type :=
| Cond (c : string)
| Amp
| Bar.

(** One entry of the list of a cut.  Every condition is taken to close
    the brackets and quotes it opens, so that the tokens of the joined
    string are the tokens of its conditions and of the separators, and
    every operand to be an expression pandas can evaluate on the frame
    (its columns exist). *)
Definition condition : Type := list token.

(** Lines 139--142: [cond_string += c] and, unless [i] is the last index,
    [cond_string += ' & ']. *)
Fixpoint join_from (i n : nat) (value : list condition) : list token :=
  match value with
  | [] => []
  | c :: rest =>
      c ++ (if negb (i =? n - 1)%nat then [Amp] else [])
        ++ join_from (S i) n rest
  end.

Definition cond_string (value : list condition) : list token :=
  join_from 0 (length value) value.

(** The expression pandas parses from a query string, in the grouping of
    Python's grammar: a disjunction of conjunctions of operands.  A
    missing operand is a [SyntaxError]. *)
Fixpoint disjuncts (toks : list token) : result (list (list string)) :=
  match toks with
  | [Cond c] => Ok [[c]]
  | Cond c :: Amp :: rest =>
      ds <- disjuncts rest ;;
      match ds with
      | d :: ds' => Ok ((c :: d) :: ds')
      | [] => Raise SyntaxError
      end
  | Cond c :: Bar :: rest =>
      ds <- disjuncts rest ;;
      Ok ([c] :: ds)
  | _ => Raise SyntaxError
  end.

Section Cuts.

(** The truth value pandas gives one operand (such as
    ['reco_fiducial_satisfied == 1']) on one row. *)
Variable eval_cond : string -> row -> bool.

(** The truth value of a parsed expression on one row. *)
Definition holds (ds : list (list string)) (r : row) : bool :=
  existsb (forallb (fun c => eval_cond c r)) ds.

(** [df.query(cond_string)]: the empty string is refused with a
    [ValueError] before anything is parsed. *)
Definition query (d : DataFrame) (toks : list token) : result DataFrame :=
  match toks with
  | [] => Raise ValueError
  | _ :: _ =>
      ds <- disjuncts toks ;;
      Ok (filter (holds ds) d)
  end.

(** The efficiency printed for one entry of [cuts]. *)
Definition efficiency_of_cut (sig_df : DataFrame)
    (cut : string * list condition) : result (string * Q) :=
  sel_by_cut <- query sig_df (cond_string (snd cut)) ;;
  eff <- truediv (len sel_by_cut) (len sig_df) ;;
  Ok (fst cut, eff).

(** The function prints; the model returns what is printed after the
    fixed first line ['No Cut Efficiency: 1.000']: one pair of a cut
    name and its efficiency per entry of [cuts], in order. *)
Definition calculate_efficiency_by_cut (all_samples : list sample_dict)
    (cuts : list (string * list condition)) : result (list (string * Q)) :=
  sig <- find_sample all_samples "signal" ;;
  for_each (efficiency_of_cut (df sig)) cuts.

End Cuts.

(** The value of the first printed line. *)
Definition no_cut_efficiency : Q := 1.

Definition calculate_purity (all_samples : list sample_dict)
    (true_category : string) : result float :=
  nu <- find_sample all_samples "mc_nu" ;;
  cos <- find_sample all_samples "mc_cos" ;;
  let sel_mc_df := df nu ++ df cos in
  offbeam <- find_sample all_samples "offbeam" ;;
  let sel_offbeam_df := df offbeam in
  onbeam <- find_sample all_samples "onbeam" ;;
  let livetime_onbeam := livetime onbeam in
  let livetime_offbeam := livetime offbeam in
  let pot_onbeam := pot onbeam in
  let pot_mc := pot nu in
  let matched_selected_events :=
    fmul (fdiv pot_onbeam pot_mc)
         (of_int (len (select_eq_0 true_category sel_mc_df))) in
  let total_selected_events :=
    fadd (fmul (fdiv pot_onbeam pot_mc) (of_int (len sel_mc_df)))
         (fmul (fdiv livetime_onbeam livetime_offbeam)
               (of_int (len sel_offbeam_df))) in
  Ok (fdiv matched_selected_events total_selected_events).

End PurEff.

(* ------------------------------------------------------------------ *)
(** ** [ConfusionMatrix] *)

Module Confusion.

(** Two's-complement wrap-around of numpy's [int64]. *)
Definition wrap64 (z : Z) : Z := ((z + 2 ^ 63) mod 2 ^ 64 - 2 ^ 63)%Z.

(** [numpy.nan_to_num(x, nan=nan)] on one value: NaN becomes [nan];
    [posinf] and [neginf] are left at their defaults, the largest and the
    most negative finite float. *)
Definition nan_to_num1 (nan : Q) (x : float) : float :=
  match x with
  | Fin q => Fin q
  | NaN => Fin nan
  | PInf => Fin float_max
  | NInf => Fin (- float_max)
  end.

Definition nan_to_num (x : list float) (nan : Q) : list float :=
  map (nan_to_num1 nan) x.

(** A dict with integer keys, in insertion order. *)
Definition dict : Type := list (Z * string).

Definition keys (d : dict) : list Z := map fst d.

(** [d[k] = v]: an existing key keeps its place. *)
Fixpoint dict_set (d : dict) (k : Z) (v : string) : dict :=
  match d with
  | [] => [(k, v)]
  | (k', v') :: d' =>
      if (k' =? k)%Z then (k, v) :: d' else (k', v') :: dict_set d' k v
  end.

Definition contains (ks : list Z) (k : Z) : bool :=
  existsb (fun k' => (k' =? k)%Z) ks.

Definition matrix : Type := list (list Z).

(** [np.zeros((n, m), dtype=int)] *)
Definition zeros (n m : nat) : matrix := repeat (repeat 0%Z m) n.

Record ConfusionMatrix : Type :=
  { _categories : dict; _confusion_matrix : matrix }.

(** [__init__]: the null category is put into the caller's dict, then the
    matrix is sized by the dict. *)
Definition __init__ (categories : dict) : ConfusionMatrix :=
  let categories := dict_set categories (-1) "Null" in
  {| _categories := categories;
     _confusion_matrix := zeros (length categories) (length categories) |}.

(** *** [sklearn.metrics.confusion_matrix(y_true, y_pred, labels=labels)] *)

(** A float array is a classification target when every value equals its
    cast to [int]: it is finite, integral and within [int64].  Anything
    else makes the target type "continuous" (or trips the NaN/infinity
    check) and the call raises [ValueError]. *)
Definition is_class_label (x : float) : bool :=
  match x with
  | Fin q =>
      Qeq_bool q (inject_Z (Qfloor q))
      && (- 2 ^ 63 <=? Qfloor q)%Z && (Qfloor q <? 2 ^ 63)%Z
  | NaN | PInf | NInf => false
  end.

Definition label_eqb (x : float) (y : Z) : bool := float_eq x (inject_Z y).

(** [label_to_ind = {y: x for x, y in enumerate(labels)}] followed by
    [label_to_ind.get(x, n_labels + 1)]: the index of the label equal to
    [x] (the last one, were a label repeated), else the default. *)
Fixpoint index_from (i : nat) (labels : list Z) (x : float) (found : nat)
  : nat :=
  match labels with
  | [] => found
  | y :: labels' =>
      index_from (S i) labels' x (if label_eqb x y then i else found)
  end.

Definition label_to_ind (labels : list Z) (x : float) : nat :=
  index_from 0 labels x (length labels + 1).

(** The number of pairs of [y_true], [y_pred] that fall in cell
    [(i, j)]. *)
Definition cell_count (labels : list Z) (pairs : list (float * float))
    (i j : nat) : Z :=
  len (filter (fun e => (label_to_ind labels (fst e) =? i)%nat
                        && (label_to_ind labels (snd e) =? j)%nat) pairs).

(** The matrix summed from the pairs whose two indices are below
    [n_labels]; the sum is an [int64]. *)
Definition count_matrix (labels : list Z) (pairs : list (float * float))
  : matrix :=
  let n_labels := length labels in
  map (fun i => map (fun j => wrap64 (cell_count labels pairs i j))
                    (seq 0 n_labels))
      (seq 0 n_labels).

(** The checks run in this order, each failing with [ValueError]:
    the columns have one length ("Found input variables with inconsistent
    numbers of samples"); both are classification targets; [labels] is
    not empty ("'labels' should contains at least one label."); and,
    unless [y_true] is empty, in which case the zero matrix is returned,
    some value of [y_true] is among [labels] ("At least one label
    specified must be in y_true").  Then the pairs are counted.  (Recent
    releases of scikit-learn refuse empty columns with a [ValueError]
    instead of returning the zero matrix; on columns that are not empty
    the releases agree.) *)
Definition confusion_matrix (y_true y_pred : list float) (labels : list Z)
  : result matrix :=
  if negb (length y_true =? length y_pred)%nat then Raise ValueError
  else if negb (forallb is_class_label y_true
                && forallb is_class_label y_pred) then Raise ValueError
  else
    let n_labels := length labels in
    if (n_labels =? 0)%nat then Raise ValueError
    else if (length y_true =? 0)%nat then Ok (zeros n_labels n_labels)
    else if negb (existsb (fun t => existsb (label_eqb t) labels) y_true)
         then Raise ValueError
    else Ok (count_matrix labels (combine y_true y_pred)).

(** *** [add_sample] *)

(** [a += b] on two integer matrices of one shape. *)
Fixpoint zip_with {A B C : Type} (f : A -> B -> C) (a : list A)
    (b : list B) : list C :=
  match a, b with
  | x :: a', y :: b' => f x y :: zip_with f a' b'
  | _, _ => []
  end.

Definition iadd (a b : matrix) : matrix :=
  zip_with (zip_with (fun x y => wrap64 (x + y))) a b.

(** What [sample.get_data([true_key, predicted_key])] returns first: per
    category of the sample, the column of true labels and the column of
    predicted labels. *)
Definition Data : Type := list (Z * (list float * list float)).

(** The loop of lines 89--101.  The matrix is updated in place, so the
    outcome is the object after the call together with [Ok tt] or the
    exception that stopped the loop.  The call of the base class before
    the loop, which books the exposure of the sample, is left out. *)
Fixpoint add_sample (self : ConfusionMatrix) (data : Data)
  : ConfusionMatrix * result unit :=
  match data with
  | [] => (self, Ok tt)
  | (category, values) :: data' =>
      if negb (contains (keys (_categories self)) category)
      then add_sample self data'
      else
        let true_labels := fst values in
        let predicted_labels := snd values in
        let predicted_labels := nan_to_num predicted_labels (-1) in
        match confusion_matrix true_labels predicted_labels
                (keys (_categories self)) with
        | Raise e => (self, Raise e)
        | Ok m =>
            add_sample
              {| _categories := _categories self;
                 _confusion_matrix := iadd (_confusion_matrix self) m |}
              data'
        end
  end.

(** *** [draw], up to the normalised matrix *)

(** [labels.index(-1)] *)
Fixpoint index (labels : list Z) (k : Z) : result nat :=
  match labels with
  | [] => Raise ValueError
  | y :: labels' =>
      if (y =? k)%Z then Ok O
      else i <- index labels' k ;; Ok (S i)
  end.

(** [np.delete(l, i)] along one axis. *)
Fixpoint delete {A : Type} (l : list A) (i : nat) : list A :=
  match l, i with
  | [], _ => []
  | _ :: l', O => l'
  | x :: l', S i' => x :: delete l' i'
  end.

Definition Qsum (l : list Q) : Q := fold_right Qplus 0 l.

(** [np.divide(cm, row_sums, where=row_sums != 0)].  No [out] array is
    passed, so numpy allocates the result without initialising it and
    writes only where the condition holds: a row whose sum is zero keeps
    whatever the fresh buffer [out] held. *)
Definition divide (out : nat -> nat -> Q) (cm : list (list Q))
    (row_sums : list Q) : list (list Q) :=
  map (fun ir =>
         let i := fst ir in
         let r := fst (snd ir) in
         let s := snd (snd ir) in
         map (fun jc =>
                if negb (Qeq_bool s 0) then snd jc / s else out i (fst jc))
             (combine (seq 0 (length r)) r))
      (combine (seq 0 (length cm)) (combine cm row_sums)).

(** Lines 124--142 of [draw]; [out] is the content of the buffer numpy
    allocates for the quotient. *)
Definition draw (out : nat -> nat -> Q) (self : ConfusionMatrix)
    (show_null_column : bool) : result (list (list Q)) :=
  let cm := map (map inject_Z) (_confusion_matrix self) in
  let labels := keys (_categories self) in
  nan_index <- index labels (-1) ;;
  let cm := delete cm nan_index in
  let cm := if negb show_null_column
            then map (fun r => delete r nan_index) cm else cm in
  let row_sums := map Qsum cm in
  Ok (divide out cm row_sums).

End Confusion.


(* ------------------------------------------------------------------ *)
(** ** [calculate_purity_by_cut] *)

Module PurityByCut.

Import PurEff.

Section Cuts.

(** The truth value of one operand on one row, as in
    [calculate_efficiency_by_cut]. *)
Variable eval_cond : string -> row -> bool.

(** Lines 194 and 208:
    [len(mc[mc[true_category] == 0])
       / (len(mc) + (livetime_onbeam / livetime_offbeam) * len(offbeam))].
    The livetimes are numpy floats, so the sum and the quotient are float
    operations: a zero denominator gives NaN or an infinity, no
    exception. *)
Definition purity_of (livetime_onbeam livetime_offbeam : float)
    (true_category : string) (mc offbeam : DataFrame) : float :=
  fdiv (of_int (len (select_eq_0 true_category mc)))
       (fadd (of_int (len mc))
             (fmul (fdiv livetime_onbeam livetime_offbeam)
                   (of_int (len offbeam)))).

(** One turn of the loop of lines 198--209: both frames are queried with
    the joined condition string, the simulated one first. *)
Definition purity_of_cut (livetime_onbeam livetime_offbeam : float)
    (true_category : string) (mc offbeam : DataFrame)
    (cut : string * list condition) : result (string * float) :=
  sel_by_cut_mc <- query eval_cond mc (cond_string (snd cut)) ;;
  sel_by_cut_offbeam <- query eval_cond offbeam (cond_string (snd cut)) ;;
  Ok (fst cut,
      purity_of livetime_onbeam livetime_offbeam true_category
                sel_by_cut_mc sel_by_cut_offbeam).

(** The function prints; the model returns the value of the first line
    (['No Cut Purity']) and the pairs of a cut name and its purity printed
    after it.  [pot_onbeam] and [pot_mc] are looked up, as in the source,
    and not used. *)
Definition calculate_purity_by_cut (all_samples : list sample_dict)
    (cuts : list (string * list condition)) (true_category : string)
  : result (float * list (string * float)) :=
  nu <- find_sample all_samples "mc_nu_pur" ;;
  cos <- find_sample all_samples "mc_cos_pur" ;;
  let sel_mc_pur_df := df nu ++ df cos in
  offbeam_pur <- find_sample all_samples "offbeam_pur" ;;
  let sel_offbeam_pur_df := df offbeam_pur in
  onbeam <- find_sample all_samples "onbeam" ;;
  offbeam <- find_sample all_samples "offbeam" ;;
  let livetime_onbeam := livetime onbeam in
  let livetime_offbeam := livetime offbeam in
  mc_nu <- find_sample all_samples "mc_nu" ;;
  let pot_onbeam := pot onbeam in
  let pot_mc := pot mc_nu in
  let no_cut_pur :=
    purity_of livetime_onbeam livetime_offbeam true_category
              sel_mc_pur_df sel_offbeam_pur_df in
  purs <- for_each (purity_of_cut livetime_onbeam livetime_offbeam
                      true_category sel_mc_pur_df sel_offbeam_pur_df)
            cuts ;;
  Ok (no_cut_pur, purs).

End Cuts.

End PurityByCut.

(* ------------------------------------------------------------------ *)
(** ** [ConfusionMatrix.draw]: the labelled data frame *)

Module Frame.

Import Confusion.

(** [draw] reads the registry by key, which may raise [KeyError]. *)
Inductive error : Type :=
| Builtin (e : exn)
| KeyError.

Inductive attempt (A : Type) : Type :=
| Got (a : A)
| Failed (e : error).

Arguments Got {A} a.
Arguments Failed {A} e.

(** [d[k]] *)
Fixpoint getitem (d : dict) (k : Z) : attempt string :=
  match d with
  | [] => Failed KeyError
  | (k', v) :: d' => if (k' =? k)%Z then Got v else getitem d' k
  end.

(** [[d[lbl] for lbl in labels]] *)
Fixpoint getitems (d : dict) (labels : list Z) : attempt (list string) :=
  match labels with
  | [] => Got []
  | lbl :: labels' =>
      match getitem d lbl with
      | Failed e => Failed e
      | Got v =>
          match getitems d labels' with
          | Failed e => Failed e
          | Got vs => Got (v :: vs)
          end
      end
  end.

(** [[lbl for i, lbl in enumerate(labels) if i != nan_index]], the index
    counted from [i]. *)
Fixpoint except_index {A : Type} (i nan_index : nat) (labels : list A)
  : list A :=
  match labels with
  | [] => []
  | lbl :: labels' =>
      if negb (i =? nan_index)%nat
      then lbl :: except_index (S i) nan_index labels'
      else except_index (S i) nan_index labels'
  end.

(** A data frame of floats with its row and column labels. *)
Record LabelledFrame : Type :=
  { index_labels : list string;
    column_labels : list string;
    values : list (list Q) }.

(** [pd.DataFrame(cm, index=index, columns=columns)] on an array of shape
    [(nrows, ncols)]: labels that do not fit the shape are refused with
    [ValueError]. *)
Definition new_frame (cm : list (list Q)) (nrows ncols : nat)
    (index columns : list string) : attempt LabelledFrame :=
  if (length index =? nrows)%nat && (length columns =? ncols)%nat
  then Got {| index_labels := index; column_labels := columns;
              values := cm |}
  else Failed (Builtin ValueError).

(** The values of [frame.T] for a frame with [ncols] columns. *)
Definition transpose (ncols : nat) (m : list (list Q)) : list (list Q) :=
  map (fun j => map (fun r => nth j r 0) m) (seq 0 ncols).

(** Lines 124--151 of [draw]: the frame handed to [imshow].  The array
    has the rows of the matrix but one, and its columns or, with the null
    column hidden, its columns but one. *)
Definition draw_frame (out : nat -> nat -> Q) (self : ConfusionMatrix)
    (show_null_column : bool) : attempt LabelledFrame :=
  let labels := keys (_categories self) in
  match index labels (-1) with
  | Raise e => Failed (Builtin e)
  | Ok nan_index =>
      let labels :=
        if negb show_null_column then delete labels nan_index else labels in
      match draw out self show_null_column with
      | Raise e => Failed (Builtin e)
      | Ok cm =>
          let nrows := length cm in
          let ncols :=
            (length (hd [] (_confusion_matrix self))
             - (if negb show_null_column then 1 else 0))%nat in
          match getitems (_categories self)
                  (except_index 0 nan_index labels) with
          | Failed e => Failed e
          | Got row_labels =>
              match getitems (_categories self) labels with
              | Failed e => Failed e
              | Got col_labels =>
                  match new_frame cm nrows ncols row_labels col_labels with
                  | Failed e => Failed e
                  | Got cm_df =>
                      (* cm_df.T, then cm_df.iloc[::-1] *)
                      Got {| index_labels := rev (column_labels cm_df);
                             column_labels := index_labels cm_df;
                             values :=
                               rev (transpose ncols (values cm_df)) |}
                  end
              end
          end
      end
  end.

End Frame.

(* ------------------------------------------------------------------ *)
(** ** [plot_eff_by_var]: the binning of the two histograms *)

Module Histograms.

Import PlotEff.

(** Lines 223--265 of [plot_eff_by_var]: the arguments [_nbins_eff] and
    [hedges_eff] with which [hpass] and [htotal] are constructed
    ([TH1D('hpass', '', _nbins_eff, hedges_eff)]), before the loop over the
    efficiency bins is entered. *)
Definition th1d_arguments (all_samples : list sample_dict) (var : string)
    (config : var_config) (ana_eff_bins_equal : bool) (nbins_eff : nat)
  : result (nat * list Q) :=
  sig <- find_sample all_samples "signal" ;;
  lo <- first (range config) ;;
  hi <- last_item (range config) ;;
  let sig_df := filter_range var lo hi (df sig) in
  let x := map (fun r => r var) sig_df in
  var_q_ana <- cut x (range config) ;;
  let _nbins_eff := if ana_eff_bins_equal then nbins config else nbins_eff in
  let eff_bins := linspace lo hi (_nbins_eff + 1) in
  var_q_eff <- cut x eff_bins ;;
  hedges_ana <- hedges (range config) var_q_ana ;;
  hedges_eff <- hedges eff_bins var_q_eff ;;
  Ok (_nbins_eff, hedges_eff).

End Histograms.
(* ------------------------------------------------------------------ *)
(** ** Vocabulary of the statements *)

(** Strictly increasing edges. *)
Definition increasing (a : list Q) : Prop :=
  forall i j : nat, (i < j < length a)%nat -> nth i a 0 < nth j a 0.

(** Edge number [i] of the uniform efficiency binning with [n] bins: bin
    [k] has lower edge [edge lo hi n k] and upper edge
    [edge lo hi n (S k)]. *)
Definition edge (lo hi : Q) (n i : nat) : Q :=
  nth i (linspace lo hi (n + 1)) 0.

(** A sequence that never goes up. *)
Fixpoint nonincreasing (l : list Q) : Prop :=
  match l with
  | a :: (b :: _) as t => b <= a /\ nonincreasing t
  | _ => True
  end.

(** Cumulative cuts: the list of conditions of every cut extends the list
    of the cut before it. *)
Fixpoint cumulative (cuts : list (string * list PurEff.condition)) : Prop :=
  match cuts with
  | c1 :: (c2 :: _) as t =>
      (exists ext, snd c2 = snd c1 ++ ext) /\ cumulative t
  | _ => True
  end.

(** The joined condition string, by recursion on the list. *)
Fixpoint join (value : list PurEff.condition) : list PurEff.token :=
  match value with
  | [] => []
  | [c] => c
  | c :: rest => c ++ PurEff.Amp :: join rest
  end.

(** A condition that is a single operand. *)
Definition atom (c : string) : PurEff.condition := [PurEff.Cond c].

(** A condition that parses on its own and holds no [|] or [or] at its top
    level: operands joined by [&]. *)
Fixpoint conjunction (c : PurEff.condition) : Prop :=
  match c with
  | [PurEff.Cond _] => True
  | PurEff.Cond _ :: PurEff.Amp :: rest => conjunction rest
  | _ => False
  end.

(** The operands of a condition. *)
Fixpoint operands (c : PurEff.condition) : list string :=
  match c with
  | [] => []
  | PurEff.Cond x :: rest => x :: operands rest
  | _ :: rest => operands rest
  end.

(** The fraction of the rows of a data frame that satisfy a parsed
    expression. *)
Definition fraction_of (eval_cond : string -> row -> bool)
    (d : DataFrame) (ds : list (list string)) : Q :=
  inject_Z (len (filter (PurEff.holds eval_cond ds) d)) / inject_Z (len d).

(** The fraction of the rows of a data frame that satisfy every operand
    of every condition of a list. *)
Definition efficiency_of (eval_cond : string -> row -> bool)
    (d : DataFrame) (value : list PurEff.condition) : Q :=
  fraction_of eval_cond d [flat_map operands value].

(** A reading of operands of the form ['<column> == 1'], the form of
    every condition listed in [main]; any other string counts as false. *)
Definition eval_eq_1 (c : string) (r : row) : bool :=
  let n := String.length c in
  if String.eqb (substring (n - 5) 5 c) " == 1"
  then float_eq (r (substring 0 (n - 5) c)) 1
  else false.

(** Rows for examples of the cut chain: two flags. *)
Definition flags (flash fiducial : Q) : row :=
  fun col =>
    if String.eqb col "reco_flash_icarus_satisfied" then Fin flash
    else if String.eqb col "reco_fiducial_satisfied" then Fin fiducial
    else NaN.

Definition two_cuts : list (string * list PurEff.condition) :=
  [("Flash Cut"%string, [atom "reco_flash_icarus_satisfied == 1"]);
   ("Fiducial Cut"%string, [atom "reco_flash_icarus_satisfied == 1";
                            atom "reco_fiducial_satisfied == 1"])].

(** A row and cuts for an example with [|]: the columns [x], [y], [z],
    and the cuts [['x == 1']] and [['x == 1', 'y == 1 | z == 1']]. *)
Definition xyz (x y z : Q) : row :=
  fun col =>
    if String.eqb col "x" then Fin x
    else if String.eqb col "y" then Fin y
    else if String.eqb col "z" then Fin z
    else NaN.

Definition cuts_with_or : list (string * list PurEff.condition) :=
  [("X"%string, [atom "x == 1"]);
   ("X and Y or Z"%string,
    [atom "x == 1";
     [PurEff.Cond "y == 1"; PurEff.Bar; PurEff.Cond "z == 1"]])].

(** Rows and samples for examples of the purity calculation. *)
Definition category_row (c : Q) : row :=
  fun col => if String.eqb col "true_category" then Fin c else NaN.

Definition purity_samples (pot_onbeam pot_mc : Q) (n_fg n_other n_bg : nat)
  : list sample_dict :=
  [ {| sample := "mc_nu";
       df := repeat (category_row 0) n_fg ++ repeat (category_row 3) n_other;
       pot := Fin pot_mc; livetime := Fin 1 |};
    {| sample := "mc_cos"; df := []; pot := Fin 1; livetime := Fin 1 |};
    {| sample := "offbeam"; df := repeat (category_row 7) n_bg;
       pot := Fin 1; livetime := Fin 1 |};
    {| sample := "onbeam"; df := []; pot := Fin pot_onbeam;
       livetime := Fin 1 |} ].

(** Vocabulary for the confusion matrix. *)

(** Cell [(i, j)] of a matrix: row of the true label, column of the
    predicted label. *)
Definition cell (m : Confusion.matrix) (i j : nat) : Z :=
  nth j (nth i m []) 0%Z.

Definition int64 (z : Z) : Prop := (- 2 ^ 63 <= z < 2 ^ 63)%Z.

(** The shape [__init__] gives the matrix and the range of its cells. *)
Definition well_formed (self : Confusion.ConfusionMatrix) : Prop :=
  let n := length (Confusion._categories self) in
  length (Confusion._confusion_matrix self) = n
  /\ Forall (fun r => length r = n /\ Forall int64 r)
            (Confusion._confusion_matrix self).

(** [split d d1 d2]: the events of every group of [d] are divided, in any
    order, between the group of the same category in [d1] and in [d2]. *)
Inductive split : Confusion.Data -> Confusion.Data -> Confusion.Data -> Prop :=
| split_nil : split [] [] []
| split_cons (c : Z) (t p t1 p1 t2 p2 : list float)
    (d d1 d2 : Confusion.Data) :
    length t = length p ->
    Permutation (combine t p) (combine t1 p1 ++ combine t2 p2) ->
    split d d1 d2 ->
    split ((c, (t, p)) :: d) ((c, (t1, p1)) :: d1) ((c, (t2, p2)) :: d2).

(** A registry for examples: categories 0 and 1. *)
Definition two_categories : Confusion.dict :=
  [(0%Z, "A"%string); (1%Z, "B"%string)].

(** The object with a matrix added into its own, as [+=] does. *)
Definition add_matrix (self : Confusion.ConfusionMatrix)
    (x : Confusion.matrix) : Confusion.ConfusionMatrix :=
  {| Confusion._categories := Confusion._categories self;
     Confusion._confusion_matrix :=
       Confusion.iadd (Confusion._confusion_matrix self) x |}.

(** What [confusion_matrix] needs to return a matrix: columns of one
    length that hold class labels only, at least one label to index by
    and, unless the columns are empty, a true label among them. *)
Definition accepted (labels : list Z) (y_true y_pred : list float) : Prop :=
  length y_true = length y_pred
  /\ forallb Confusion.is_class_label y_true = true
  /\ forallb Confusion.is_class_label y_pred = true
  /\ labels <> []
  /\ (y_true = []
      \/ existsb (fun t => existsb (Confusion.label_eqb t) labels) y_true
         = true).

(** A group [add_sample] lets through: one of a category that is not
    registered, which is skipped, or one whose columns [confusion_matrix]
    accepts. *)
Definition group_accepted (labels : list Z)
    (g : Z * (list float * list float)) : Prop :=
  Confusion.contains labels (fst g) = true ->
  accepted labels (fst (snd g)) (Confusion.nan_to_num (snd (snd g)) (-1)).

(** The pairs of true and predicted label that a call of [add_sample]
    hands to [confusion_matrix], over the groups of a registered
    category. *)
Fixpoint accepted_pairs (labels : list Z) (data : Confusion.Data)
  : list (float * float) :=
  match data with
  | [] => []
  | (category, values) :: data' =>
      if Confusion.contains labels category
      then combine (fst values) (Confusion.nan_to_num (snd values) (-1))
             ++ accepted_pairs labels data'
      else accepted_pairs labels data'
  end.

(** The events a call of [add_sample] counts, with their labels as they
    are handed over: those of the groups of a registered category, up to
    the first group [confusion_matrix] refuses. *)
Fixpoint counted_events (labels : list Z) (data : Confusion.Data)
  : list (float * float) :=
  match data with
  | [] => []
  | (category, values) :: data' =>
      if Confusion.contains labels category
      then match Confusion.confusion_matrix
                   (fst values) (Confusion.nan_to_num (snd values) (-1))
                   labels with
           | Ok _ => combine (fst values) (snd values)
                       ++ counted_events labels data'
           | Raise _ => []
           end
      else counted_events labels data'
  end.

(** A predicted label that is missing (NaN), or the null key itself. *)
Definition null_prediction (p : float) : bool :=
  match p with
  | NaN => true
  | Fin q => Qeq_bool q (-1)
  | PInf | NInf => false
  end.

(** Vocabulary of the further statements. *)

Definition Zsum (l : list Z) : Z := fold_right Z.add 0%Z l.

(** The sum of all cells of a matrix. *)
Definition matrix_total (m : Confusion.matrix) : Z := Zsum (map Zsum m).

(** Both labels of a pair are registered. *)
Definition both_registered (labels : list Z) (e : float * float) : bool :=
  existsb (Confusion.label_eqb (fst e)) labels
  && existsb (Confusion.label_eqb (snd e)) labels.

(** A sample with another exposure. *)
Definition with_pot (p : float) (d : sample_dict) : sample_dict :=
  {| sample := sample d; df := df d; pot := p; livetime := livetime d |}.

(** Samples for examples of the purity by cut. *)
Definition purity_by_cut_samples (d_mc d_off : DataFrame)
    (livetime_onbeam livetime_offbeam : Q) : list sample_dict :=
  [ {| sample := "mc_nu_pur"; df := d_mc; pot := Fin 1; livetime := Fin 1 |};
    {| sample := "mc_cos_pur"; df := []; pot := Fin 1; livetime := Fin 1 |};
    {| sample := "offbeam_pur"; df := d_off; pot := Fin 1;
       livetime := Fin 1 |};
    {| sample := "onbeam"; df := []; pot := Fin 1;
       livetime := Fin livetime_onbeam |};
    {| sample := "offbeam"; df := []; pot := Fin 1;
       livetime := Fin livetime_offbeam |};
    {| sample := "mc_nu"; df := []; pot := Fin 1; livetime := Fin 1 |} ].

(** Rows for examples of the purity by cut: a category and one flag. *)
Definition flagged (category flash : Q) : row :=
  fun col =>
    if String.eqb col "true_category" then Fin category
    else if String.eqb col "reco_flash_icarus_satisfied" then Fin flash
    else NaN.

(** Bin [k] of the uniform binning holds an event of the frame. *)
Definition occupied (var : string) (lo hi : Q) (n : nat) (d : DataFrame)
    (k : nat) : bool :=
  existsb (fun r => PlotEff.option_nat_eqb (PlotEff.eff_bin lo hi n (r var))
                      (Some k)) d.

(** The exception [DataFrame.query] raises on a query string, if any:
    [ValueError] on the empty string, [SyntaxError] on one that does not
    parse. *)
Definition query_error (toks : list PurEff.token) : option exn :=
  match toks with
  | [] => Some ValueError
  | _ :: _ =>
      match PurEff.disjuncts toks with
      | Ok _ => None
      | Raise e => Some e
      end
  end.

(** The expression parsed from the joined conditions of a cut. *)
Definition parsed (value : list PurEff.condition) : list (list string) :=
  match PurEff.disjuncts (PurEff.cond_string value) with
  | Ok ds => ds
  | Raise _ => []
  end.
(* ================================================================== *)
(** * Properties *)

(** ** Comparisons on [Q] *)

Lemma Qltb_lt (a b : Q) : Qltb a b = true <-> a < b.
Proof.
  unfold Qltb. rewrite negb_true_iff. split; intro H.
  - apply Qnot_le_lt. intro Hle.
    apply Qle_bool_iff in Hle. congruence.
  - destruct (Qle_bool b a) eqn:E; [|reflexivity].
    apply Qle_bool_iff in E. exfalso. exact (Qlt_not_le _ _ H E).
Qed.

Lemma Qltb_ge (a b : Q) : Qltb a b = false <-> b <= a.
Proof.
  unfold Qltb. rewrite negb_false_iff. apply Qle_bool_iff.
Qed.

Lemma Qeq_bool_false (a b : Q) : Qeq_bool a b = false <-> ~ a == b.
Proof.
  split; intro H.
  - intro E. apply Qeq_bool_iff in E. congruence.
  - destruct (Qeq_bool a b) eqn:E; [|reflexivity].
    apply Qeq_bool_iff in E. contradiction.
Qed.

Lemma in_range_spec (lo hi : Q) (x : float) :
  PlotEff.in_range lo hi x = true <-> exists q, x = Fin q /\ lo < q /\ q < hi.
Proof.
  unfold PlotEff.in_range. rewrite andb_true_iff. split.
  - intros [Hg Hl]. destruct x as [q| | |]; simpl in *; try discriminate.
    exists q. rewrite Qltb_lt in Hg, Hl. auto.
  - intros (q & -> & Hg & Hl). simpl. rewrite !Qltb_lt. auto.
Qed.

(** ** Sequential loops *)

Lemma for_each_ok {A B : Type} (f : A -> result B) (xs : list A) :
  (forall x, In x xs -> exists y, f x = Ok y) ->
  exists ys, for_each f xs = Ok ys /\ length ys = length xs
             /\ forall y, In y ys -> exists x, In x xs /\ f x = Ok y.
Proof.
  induction xs as [|x xs IH]; intros H.
  - exists []. simpl. repeat split; auto. intros y [].
  - destruct (H x (or_introl eq_refl)) as [y Hy].
    destruct IH as (ys & Hys & Hlen & Hin).
    { intros x' Hx'. apply H. now right. }
    exists (y :: ys). simpl. rewrite Hy. simpl. rewrite Hys. simpl.
    repeat split; [congruence|].
    intros y' [<-|Hy']; [exists x; auto|].
    destruct (Hin y' Hy') as (x' & Hx' & E). exists x'. auto.
Qed.

Lemma for_each_inv {A B : Type} (f : A -> result B) (xs : list A)
    (ys : list B) :
  for_each f xs = Ok ys ->
  Forall2 (fun x y => f x = Ok y) xs ys.
Proof.
  revert ys. induction xs as [|x xs IH]; intros ys H; simpl in H.
  - inversion H. constructor.
  - destruct (f x) as [y|e] eqn:Ey; simpl in H; [|discriminate].
    destruct (for_each f xs) as [ys'|e] eqn:E; simpl in H; [|discriminate].
    inversion H; subst. constructor; auto.
Qed.

Lemma for_each_In {A B : Type} (f : A -> result B) (xs : list A)
    (ys : list B) (y : B) :
  for_each f xs = Ok ys -> In y ys -> exists x, In x xs /\ f x = Ok y.
Proof.
  intros H. apply for_each_inv in H.
  induction H as [|x y' xs ys Hxy H IH]; intros Hin; [destruct Hin|].
  destruct Hin as [<-|Hin].
  - exists x. split; [now left|exact Hxy].
  - destruct (IH Hin) as (x' & Hx' & E). exists x'. split; [now right|exact E].
Qed.

Lemma for_each_raise {A B : Type} (f : A -> result B) (xs : list A) :
  (exists x, In x xs /\ exists e, f x = Raise e) ->
  exists e, for_each f xs = Raise e.
Proof.
  induction xs as [|x xs IH]; intros (x0 & Hin & e & He).
  - destruct Hin.
  - simpl. destruct (f x) as [y|e'] eqn:Ey; simpl; [|eauto].
    destruct Hin as [->|Hin]; [congruence|].
    destruct IH as [e'' ->]; [eauto|]. simpl. eauto.
Qed.

(** ** Binning: [searchsorted], [cut] and [linspace] *)

Section Binning.

Local Open Scope nat_scope.

Lemma searchsorted_left_le (a : list Q) (x : Q) :
  searchsorted_left a x <= length a.
Proof.
  induction a as [|e a IH]; simpl; [lia|].
  destruct (Qltb e x); lia.
Qed.

Lemma searchsorted_left_below (a : list Q) (x : Q) (i : nat) :
  i < searchsorted_left a x -> (nth i a 0 < x)%Q.
Proof.
  revert i. induction a as [|e a IH]; simpl; intros i Hi; [lia|].
  destruct (Qltb e x) eqn:E; [|lia].
  destruct i as [|i]; [now apply Qltb_lt|].
  apply IH. lia.
Qed.

Lemma searchsorted_left_at (a : list Q) (x : Q) :
  searchsorted_left a x < length a ->
  (x <= nth (searchsorted_left a x) a 0)%Q.
Proof.
  induction a as [|e a IH]; simpl; intros H; [lia|].
  destruct (Qltb e x) eqn:E.
  - apply IH. lia.
  - now apply Qltb_ge.
Qed.

Lemma searchsorted_left_eq (a : list Q) (x : Q) (k : nat) :
  increasing a -> S k < length a ->
  (nth k a 0 < x)%Q -> (x <= nth (S k) a 0)%Q ->
  searchsorted_left a x = S k.
Proof.
  intros Hinc Hk Hlo Hhi.
  pose proof (searchsorted_left_le a x) as Hle.
  destruct (Nat.lt_trichotomy (searchsorted_left a x) (S k))
    as [Hlt|[Heq|Hgt]]; [exfalso| exact Heq |exfalso].
  - assert (Hs : searchsorted_left a x < length a) by lia.
    apply searchsorted_left_at in Hs.
    assert (Hmono : (nth (searchsorted_left a x) a 0 <= nth k a 0)%Q).
    { destruct (Nat.eq_dec (searchsorted_left a x) k) as [->|Hne].
      - apply Qle_refl.
      - apply Qlt_le_weak, Hinc. lia. }
    apply (Qlt_irrefl x).
    eapply Qle_lt_trans; [exact Hs|].
    eapply Qle_lt_trans; [exact Hmono| exact Hlo].
  - apply searchsorted_left_below in Hgt.
    exact (Qlt_not_le _ _ Hgt Hhi).
Qed.

(** [pandas.cut] intervals are open on the left and closed on the
    right. *)
Lemma cut_code_spec (bins : list Q) (q : Q) (k : nat) :
  increasing bins ->
  cut_code bins (Fin q) = Some k <->
  S k < length bins /\ (nth k bins 0 < q)%Q /\ (q <= nth (S k) bins 0)%Q.
Proof.
  intros Hinc. unfold cut_code. split.
  - pose proof (searchsorted_left_le bins q) as Hle.
    destruct (searchsorted_left bins q =? 0) eqn:E0; simpl; [discriminate|].
    destruct (searchsorted_left bins q =? length bins) eqn:El;
      [discriminate|].
    apply Nat.eqb_neq in E0, El. intros H. inversion H; subst k; clear H.
    replace (S (searchsorted_left bins q - 1))
      with (searchsorted_left bins q) by lia.
    repeat split.
    + lia.
    + apply searchsorted_left_below. lia.
    + apply searchsorted_left_at. lia.
  - intros (Hk & Hlo & Hhi).
    rewrite (searchsorted_left_eq Hinc Hk Hlo Hhi).
    replace (S k =? 0) with false by reflexivity.
    replace (S k =? length bins) with false
      by (symmetry; apply Nat.eqb_neq; lia).
    simpl. f_equal. lia.
Qed.

Lemma nth_map_seq {A : Type} (f : nat -> A) (s n i : nat) (d : A) :
  i < n -> nth i (map f (seq s n)) d = f (s + i).
Proof.
  revert s i. induction n as [|n IH]; intros s i Hi; [lia|].
  destruct i as [|i]; simpl.
  - now rewrite Nat.add_0_r.
  - rewrite IH by lia. f_equal. lia.
Qed.

Lemma linspace_length (lo hi : Q) (n : nat) :
  length (linspace lo hi (n + 1)) = n + 1.
Proof.
  rewrite Nat.add_1_r. destruct n as [|n]; [reflexivity|].
  unfold linspace. rewrite length_app, length_map, length_seq.
  simpl. lia.
Qed.

Lemma edge_last (lo hi : Q) (n : nat) : 0 < n -> edge lo hi n n = hi.
Proof.
  intros Hn. unfold edge. rewrite Nat.add_1_r.
  destruct n as [|n]; [lia|]. unfold linspace.
  rewrite app_nth2; rewrite length_map, length_seq; [|lia].
  now rewrite Nat.sub_diag.
Qed.

Lemma edge_inner (lo hi : Q) (n i : nat) :
  i < n ->
  edge lo hi n i
  = (inject_Z (Z.of_nat i) * ((hi - lo) / inject_Z (Z.of_nat n)) + lo)%Q.
Proof.
  intros Hi. unfold edge. rewrite Nat.add_1_r.
  destruct n as [|n]; [lia|]. unfold linspace.
  rewrite app_nth1 by (rewrite length_map, length_seq; lia).
  now rewrite nth_map_seq by lia.
Qed.

Lemma edge_first (lo hi : Q) (n : nat) : 0 < n -> (edge lo hi n 0 == lo)%Q.
Proof.
  intros Hn. rewrite edge_inner by lia. simpl. ring.
Qed.

Lemma step_pos (lo hi : Q) (n : nat) :
  (lo < hi)%Q -> 0 < n -> (0 < (hi - lo) / inject_Z (Z.of_nat n))%Q.
Proof.
  intros Hlt Hn. apply Qlt_shift_div_l.
  - change 0%Q with (inject_Z 0). rewrite <- Zlt_Qlt. lia.
  - lra.
Qed.

Lemma step_times_n (lo hi : Q) (n : nat) :
  0 < n ->
  (inject_Z (Z.of_nat n) * ((hi - lo) / inject_Z (Z.of_nat n)) == hi - lo)%Q.
Proof.
  intros Hn. field. intro H.
  assert (Hpos : (inject_Z 0 < inject_Z (Z.of_nat n))%Q)
    by (rewrite <- Zlt_Qlt; lia).
  rewrite H in Hpos. exact (Qlt_irrefl _ Hpos).
Qed.

Lemma linspace_increasing (lo hi : Q) (n : nat) :
  (lo < hi)%Q -> 0 < n -> increasing (linspace lo hi (n + 1)).
Proof.
  intros Hlt Hn i j [Hij Hj]. rewrite linspace_length in Hj.
  fold (edge lo hi n i). fold (edge lo hi n j).
  pose proof (step_pos Hlt Hn) as Hstep.
  assert (Hmul : forall a b : nat, a < b ->
    (inject_Z (Z.of_nat a) * ((hi - lo) / inject_Z (Z.of_nat n))
     < inject_Z (Z.of_nat b) * ((hi - lo) / inject_Z (Z.of_nat n)))%Q).
  { intros a b Hab. apply Qmult_lt_compat_r; [exact Hstep|].
    rewrite <- Zlt_Qlt. lia. }
  rewrite (edge_inner lo hi) by lia.
  destruct (Nat.eq_dec j n) as [->|Hne].
  - rewrite edge_last by lia.
    specialize (Hmul i n Hij). rewrite step_times_n in Hmul by lia. lra.
  - rewrite (edge_inner lo hi) by lia.
    specialize (Hmul i j Hij). lra.
Qed.

(** The bin of an in-range value: the one whose half-open interval
    [(lower, upper]] holds it. *)
Lemma eff_bin_spec (lo hi : Q) (n : nat) (q : Q) (k : nat) :
  (lo < hi)%Q -> 0 < n ->
  PlotEff.eff_bin lo hi n (Fin q) = Some k <->
  k < n /\ (lo < q)%Q /\ (q < hi)%Q
  /\ (edge lo hi n k < q)%Q /\ (q <= edge lo hi n (S k))%Q.
Proof.
  intros Hlt Hn. unfold PlotEff.eff_bin.
  pose proof (linspace_increasing Hlt Hn) as Hinc.
  destruct (PlotEff.in_range lo hi (Fin q)) eqn:Er.
  - apply in_range_spec in Er. destruct Er as (q' & E & Hlo & Hhi).
    inversion E; subst q'; clear E.
    rewrite (cut_code_spec q k Hinc), linspace_length. unfold edge.
    split; intros H; repeat split; try tauto; lia.
  - split; [discriminate|]. intros (_ & Hlo & Hhi & _).
    assert (E : PlotEff.in_range lo hi (Fin q) = true)
      by (apply in_range_spec; eauto).
    congruence.
Qed.

(** Every value strictly inside the range gets a bin. *)
Lemma eff_bin_total (lo hi : Q) (n : nat) (q : Q) :
  (lo < hi)%Q -> 0 < n -> (lo < q)%Q -> (q < hi)%Q ->
  exists k, PlotEff.eff_bin lo hi n (Fin q) = Some k /\ k < n.
Proof.
  intros Hlt Hn Hlo Hhi.
  set (bins := linspace lo hi (n + 1)).
  pose proof (searchsorted_left_le bins q) as Hle.
  pose proof (linspace_length lo hi n) as Hlen. fold bins in Hlen.
  assert (H0 : searchsorted_left bins q <> 0).
  { intro E. assert (Hs : searchsorted_left bins q < length bins) by lia.
    apply searchsorted_left_at in Hs. rewrite E in Hs.
    change (nth 0 bins 0%Q) with (edge lo hi n 0) in Hs.
    pose proof (edge_first lo hi Hn) as Hf. lra. }
  assert (Hn' : searchsorted_left bins q <> length bins).
  { intro E. assert (Hs : n < searchsorted_left bins q) by lia.
    apply searchsorted_left_below in Hs.
    change (nth n bins 0%Q) with (edge lo hi n n) in Hs.
    rewrite edge_last in Hs by lia. lra. }
  exists (searchsorted_left bins q - 1). split; [|lia].
  unfold PlotEff.eff_bin.
  replace (PlotEff.in_range lo hi (Fin q)) with true
    by (symmetry; apply in_range_spec; eauto).
  unfold cut_code. fold bins.
  apply Nat.eqb_neq in H0, Hn'. now rewrite H0, Hn'.
Qed.

End Binning.

(** ** [plot_eff_by_var]: the filter and the bin edges *)

Import PlotEff.

(** C9, as stated, fails: an event whose value equals [lo] or [hi] does
    not pass the filter and reaches no bin.  With range [[0, 20]] and two
    bins, of the events at 0, 5, 15 and 20 only those at 5 and 15 are
    counted. *)
Lemma filter_drops_range_endpoints :
  filter_range "x" 0 20 [event 0 1; event 20 1] = []
  /\ eff_bin 0 20 2 (Fin 0) = None
  /\ eff_bin 0 20 2 (Fin 20) = None
  /\ exists r,
       plot_eff_by_var false
         [signal_sample [event 0 1; event 5 1; event 15 1; event 20 1]]
         "x" {| range := [0; 20]; nbins := 2 |} true 25 = Ok r
       /\ map total_count (points r) = [1; 1]%Z.
Proof.
  repeat split; try reflexivity.
  vm_compute. eexists. split; reflexivity.
Qed.

(** C9 (amended).  The pre-binning filter keeps exactly the events whose
    value lies strictly between [lo] and [hi]; every event it keeps is
    given a bin of the uniform binning; an event whose value equals [lo]
    or [hi] is excluded. *)
Theorem filter_range_keeps_open_interval
    (var : string) (lo hi : Q) (n : nat) (d : DataFrame) :
  lo < hi -> (0 < n)%nat ->
  (forall r, In r (filter_range var lo hi d) <->
             In r d /\ exists q, r var = Fin q /\ lo < q /\ q < hi)
  /\ (forall r, In r (filter_range var lo hi d) ->
        exists k, cut_code (linspace lo hi (n + 1)) (r var) = Some k
                  /\ (k < n)%nat)
  /\ (forall r q, r var = Fin q -> q == lo \/ q == hi ->
        ~ In r (filter_range var lo hi d)).
Proof.
  intros Hlt Hn.
  assert (Hin : forall r, In r (filter_range var lo hi d) <->
             In r d /\ exists q, r var = Fin q /\ lo < q /\ q < hi).
  { intros r. unfold filter_range. rewrite filter_In, in_range_spec.
    reflexivity. }
  split; [exact Hin|]. split.
  - intros r Hr. apply Hin in Hr. destruct Hr as (_ & q & E & Hlo & Hhi).
    destruct (eff_bin_total Hlt Hn Hlo Hhi) as (k & Hk & Hkn).
    exists k. split; [|exact Hkn].
    unfold eff_bin in Hk. rewrite E.
    destruct (in_range lo hi (Fin q)); [exact Hk|discriminate].
  - intros r q E Hq Hr. apply Hin in Hr.
    destruct Hr as (_ & q' & E' & Hlo & Hhi).
    rewrite E in E'. inversion E'; subst q'. destruct Hq; lra.
Qed.

Lemma filter_range_keeps_open_interval_witness :
  (forall r, In r (filter_range "x" 0 20 [event 0 1; event 5 1]) <->
             In r [event 0 1; event 5 1]
             /\ exists q, r "x"%string = Fin q /\ 0 < q /\ q < 20)
  /\ (forall r, In r (filter_range "x" 0 20 [event 0 1; event 5 1]) ->
        exists k, cut_code (linspace 0 20 (2 + 1)) (r "x"%string) = Some k
                  /\ (k < 2)%nat)
  /\ (forall r q, r "x"%string = Fin q -> q == 0 \/ q == 20 ->
        ~ In r (filter_range "x" 0 20 [event 0 1; event 5 1])).
Proof.
  apply (@filter_range_keeps_open_interval "x" 0 20 2
           [event 0 1; event 5 1]).
  - reflexivity.
  - lia.
Defined.

(** C3, as stated, fails: with range [[0, 20]] and two bins the value 10,
    the upper edge of the first bin, is counted in the first bin and not
    in the next one, and the value 20, the upper edge of the final bin, is
    counted nowhere. *)
Lemma upper_edge_not_in_next_bin :
  edge 0 20 2 1 == 10
  /\ eff_bin 0 20 2 (Fin 10) = Some 0%nat
  /\ eff_bin 0 20 2 (Fin 20) = None
  /\ exists r,
       plot_eff_by_var false
         [signal_sample [event 5 1; event 10 1; event 15 1; event 20 1]]
         "x" {| range := [0; 20]; nbins := 2 |} true 25 = Ok r
       /\ map total_count (points r) = [2; 1]%Z.
Proof.
  repeat split; try reflexivity.
  vm_compute. eexists. split; reflexivity.
Qed.

(** C3 (amended).  The bins of the efficiency estimator are half-open
    [(lower, upper]]: a value is assigned to bin [k] exactly when it lies
    in the range, above the bin's lower edge and at or below its upper
    edge; so a value equal to the upper edge of a bin other than the final
    one is assigned to that bin.  A value equal to the final bin's upper
    edge [hi], or to the first bin's lower edge [lo], is removed by the
    filter and assigned to no bin. *)
Theorem upper_edge_belongs_to_own_bin (lo hi : Q) (n k : nat) :
  lo < hi -> (S k < n)%nat ->
  eff_bin lo hi n (Fin (edge lo hi n (S k))) = Some k
  /\ (forall q j, eff_bin lo hi n (Fin q) = Some j <->
        (j < n)%nat /\ lo < q /\ q < hi
        /\ edge lo hi n j < q /\ q <= edge lo hi n (S j))
  /\ eff_bin lo hi n (Fin hi) = None
  /\ eff_bin lo hi n (Fin lo) = None.
Proof.
  intros Hlt Hk.
  assert (Hn : (0 < n)%nat) by lia.
  pose proof (linspace_increasing Hlt Hn) as Hinc.
  pose proof (linspace_length lo hi n) as Hlen.
  pose proof (edge_first lo hi Hn) as Hfirst.
  pose proof (edge_last lo hi Hn) as Hlast.
  assert (Hedge : forall i j, (i < j <= n)%nat ->
            edge lo hi n i < edge lo hi n j).
  { intros i j Hij. apply Hinc. lia. }
  split; [|split; [|split]].
  - apply eff_bin_spec; [assumption|lia|].
    pose proof (Hedge 0%nat (S k) ltac:(lia)) as H1.
    pose proof (Hedge (S k) n ltac:(lia)) as H2.
    pose proof (Hedge k (S k) ltac:(lia)) as H3.
    rewrite Hlast in H2.
    repeat split; try lia; try lra.
  - intros q j. now apply eff_bin_spec.
  - unfold eff_bin.
    replace (in_range lo hi (Fin hi)) with false; [reflexivity|].
    symmetry. unfold in_range. apply andb_false_iff. right.
    simpl. apply Qltb_ge. lra.
  - unfold eff_bin.
    replace (in_range lo hi (Fin lo)) with false; [reflexivity|].
    symmetry. unfold in_range. apply andb_false_iff. left.
    simpl. apply Qltb_ge. lra.
Qed.

Lemma upper_edge_belongs_to_own_bin_witness :
  eff_bin 0 20 2 (Fin (edge 0 20 2 1)) = Some 0%nat
  /\ (forall q j, eff_bin 0 20 2 (Fin q) = Some j <->
        (j < 2)%nat /\ 0 < q /\ q < 20
        /\ edge 0 20 2 j < q /\ q <= edge 0 20 2 (S j))
  /\ eff_bin 0 20 2 (Fin 20) = None
  /\ eff_bin 0 20 2 (Fin 0) = None.
Proof.
  apply (@upper_edge_belongs_to_own_bin 0 20 2 0).
  - reflexivity.
  - lia.
Defined.

(** ** [plot_eff_by_var]: the plotted ratio *)

(** What one turn of the loop computes: the plotted value is the bin's
    total divided by its number of passing events, and the turn raises as
    soon as no event of the bin passes. *)
Lemma eff_loop_body_ok (bins : list Q) (g : nat * DataFrame)
    (p : EfficiencyPoint) :
  eff_loop_body bins g = Ok p ->
  total_count p = len (snd g)
  /\ pass_count p = len (select_eq_1 "reco_all_cuts_satisfied" (snd g))
  /\ pass_count p <> 0%Z
  /\ val p = inject_Z (total_count p) / inject_Z (pass_count p).
Proof.
  unfold eff_loop_body, truediv.
  destruct (len (select_eq_1 "reco_all_cuts_satisfied" (snd g)) =? 0)%Z
    eqn:E; simpl; [discriminate|].
  intros H. inversion H; subst p; clear H. simpl.
  apply Z.eqb_neq in E. auto.
Qed.

Lemma eff_loop_body_no_pass (bins : list Q) (g : nat * DataFrame) :
  select_eq_1 "reco_all_cuts_satisfied" (snd g) = [] ->
  eff_loop_body bins g = Raise ZeroDivisionError.
Proof.
  intros E. unfold eff_loop_body. now rewrite E.
Qed.

Lemma eff_loop_body_some_pass (bins : list Q) (g : nat * DataFrame) (r : row) :
  In r (snd g) -> float_eq (r "reco_all_cuts_satisfied"%string) 1 = true ->
  exists p, eff_loop_body bins g = Ok p.
Proof.
  intros Hin Hp. unfold eff_loop_body, truediv.
  assert (Hin' : In r (select_eq_1 "reco_all_cuts_satisfied" (snd g)))
    by (apply filter_In; auto).
  destruct (select_eq_1 "reco_all_cuts_satisfied" (snd g)) as [|r' l] eqn:E;
    [destruct Hin'|].
  unfold len. simpl length.
  replace (Z.of_nat (S (length l)) =? 0)%Z with false
    by (symmetry; apply Z.eqb_neq; lia).
  simpl. eauto.
Qed.

(** C1: the code fails the claim.  Range [[0, 20]], two bins, events at 1
    (failing the selection), 5 and 15 (passing it): the first bin holds 2
    events of which 1 passes, and the value appended to [vals] for it is
    2 = total / pass, not 1/2 = pass / total. *)
Theorem plotted_ratio_is_total_over_pass :
  forall observed : bool,
  exists r,
    plot_eff_by_var observed
      [signal_sample [event 1 0; event 5 1; event 15 1]]
      "x" {| range := [0; 20]; nbins := 2 |} true 25 = Ok r
    /\ map total_count (points r) = [2; 1]%Z
    /\ map pass_count (points r) = [1; 1]%Z
    /\ vals r = [2 # 1; 1 # 1]
    /\ ~ (2 # 1 == 1 # 2).
Proof.
  intros [|]; vm_compute; eexists;
    (split; [reflexivity|]); repeat split; discriminate.
Qed.

(** [calculate_efficiency], the unbinned sibling, divides the other way
    round: selected over total. *)
Lemma calculate_efficiency_is_pass_over_total :
  PurEff.calculate_efficiency
    [signal_sample [event 1 0; event 5 1; event 15 1; event 16 0]]
  = Ok ((2 # 1) / (4 # 1)).
Proof. reflexivity. Qed.

(** ** [plot_eff_by_var]: when the loop over the bins completes *)

Lemma increasing_tail (a : Q) (l : list Q) :
  increasing (a :: l) -> increasing l.
Proof.
  intros H i j Hij. apply (H (S i) (S j)). simpl. lia.
Qed.

Lemma increasing_accepted_by_cut (a : list Q) :
  increasing a -> monotonic_increasing a = true /\ has_duplicates a = false.
Proof.
  induction a as [|x [|y l] IH]; intros H; try (split; reflexivity).
  destruct (IH (increasing_tail H)) as [Hm Hd].
  assert (Hxy : x < y) by (apply (H 0%nat 1%nat); simpl; lia).
  split.
  - change (Qle_bool x y && monotonic_increasing (y :: l) = true).
    rewrite Hm, andb_true_r. apply Qle_bool_iff. lra.
  - change (Qeq_bool x y || has_duplicates (y :: l) = false).
    rewrite Hd, orb_false_r. apply Qeq_bool_false. lra.
Qed.

Lemma cut_ok (x : list float) (bins : list Q) :
  monotonic_increasing bins = true -> has_duplicates bins = false ->
  cut x bins = Ok (map (cut_code bins) x).
Proof.
  intros Hm Hd. unfold cut. now rewrite Hm, Hd.
Qed.

Lemma option_nat_eqb_eq (a b : option nat) :
  option_nat_eqb a b = true <-> a = b.
Proof.
  destruct a as [x|], b as [y|]; simpl; split; intros H;
    try discriminate; try reflexivity.
  - apply Nat.eqb_eq in H. now subst.
  - inversion H. apply Nat.eqb_refl.
Qed.

Lemma unique_from_In (seen l : list (option nat)) (x : option nat) :
  In x (unique_from seen l) -> In x l.
Proof.
  revert seen. induction l as [|y l IH]; intros seen H; simpl in *; [exact H|].
  destruct (existsb (option_nat_eqb y) seen).
  - right. now apply IH with seen.
  - destruct H as [H|H]; [now left|]. right. now apply IH with (y :: seen).
Qed.

Lemma unique_nonempty (l : list (option nat)) : l <> [] -> unique l <> [].
Proof.
  destruct l as [|x l]; [congruence|]. intros _. unfold unique. simpl.
  discriminate.
Qed.

Lemma hedges_ok (bins : list Q) (codes : list (option nat)) :
  codes <> [] -> (forall c, In c codes -> exists k, c = Some k) ->
  exists h, hedges bins codes = Ok h.
Proof.
  intros Hne Hsome. unfold hedges.
  assert (Hattr : forall f c, In c (unique codes) ->
            exists y, attr f bins c = Ok y).
  { intros f c Hc. apply unique_from_In in Hc.
    destruct (Hsome c Hc) as [k ->]. simpl. eauto. }
  destruct (for_each_ok (attr left bins) (unique codes) (Hattr left))
    as (lefts & -> & _ & _).
  destruct (for_each_ok (attr right bins) (unique codes) (Hattr right))
    as (rights & -> & Hlen & _).
  simpl. destruct rights as [|y rights].
  - apply unique_nonempty in Hne.
    destruct (unique codes); [congruence|discriminate].
  - simpl. eauto.
Qed.

Lemma hedges_empty (bins : list Q) : exists e, hedges bins [] = Raise e.
Proof. eexists. reflexivity. Qed.

Lemma in_combine_map {A B : Type} (f : A -> B) (l : list A) (c : B) (r : A) :
  In (c, r) (combine (map f l) l) <-> In r l /\ c = f r.
Proof.
  induction l as [|a l IH]; simpl; [tauto|].
  rewrite IH. split.
  - intros [H|[H1 H2]]; [inversion H; subst; auto|auto].
  - intros [[->|H] ->]; auto.
Qed.

(** The rows of the group of category [k]. *)
Lemma group_rows (f : row -> option nat) (d : DataFrame) (k : nat) (r : row) :
  In r (map snd (filter (fun cr => option_nat_eqb (fst cr) (Some k))
                        (combine (map f d) d)))
  <-> In r d /\ f r = Some k.
Proof.
  rewrite in_map_iff. split.
  - intros ([c r'] & E & H). simpl in E. subst r'.
    apply filter_In in H. destruct H as [H Hc]. simpl in Hc.
    apply option_nat_eqb_eq in Hc. apply in_combine_map in H.
    destruct H as [H ->]. auto.
  - intros [H E]. exists (f r, r). split; [reflexivity|].
    apply filter_In. split.
    + apply in_combine_map. auto.
    + simpl. apply option_nat_eqb_eq. exact E.
Qed.

Lemma groupby_In (observed : bool) (ncat : nat) (f : row -> option nat)
    (d : DataFrame) (g : nat * DataFrame) :
  In g (groupby observed ncat (map f d) d) ->
  (fst g < ncat)%nat /\ forall r, In r (snd g) <-> In r d /\ f r = Some (fst g).
Proof.
  unfold groupby. intros H.
  assert (H' : In g (map (fun k => (k, map snd (filter (fun cr =>
            option_nat_eqb (fst cr) (Some k)) (combine (map f d) d))))
            (seq 0 ncat))).
  { destruct observed; [apply filter_In in H; tauto|exact H]. }
  apply in_map_iff in H'. destruct H' as (k & <- & Hk).
  apply in_seq in Hk. simpl. split; [lia|]. intros r. apply group_rows.
Qed.

Lemma groupby_all_categories (ncat : nat) (f : row -> option nat)
    (d : DataFrame) (k : nat) :
  (k < ncat)%nat ->
  exists g, In g (groupby false ncat (map f d) d) /\ fst g = k.
Proof.
  intros Hk. unfold groupby. eexists. split.
  - apply in_map_iff. exists k. split; [reflexivity|]. apply in_seq. lia.
  - reflexivity.
Qed.

Lemma filter_all {A : Type} (p : A -> bool) (l : list A) :
  (forall x, In x l -> p x = true) -> filter p l = l.
Proof.
  induction l as [|a l IH]; intros H; simpl; [reflexivity|].
  rewrite (H a (or_introl eq_refl)), IH; [reflexivity|].
  intros x Hx. apply H. now right.
Qed.

Lemma groupby_length (observed : bool) (ncat : nat) (f : row -> option nat)
    (d : DataFrame) :
  (forall k, (k < ncat)%nat -> exists r, In r d /\ f r = Some k) ->
  length (groupby observed ncat (map f d) d) = ncat.
Proof.
  intros H. unfold groupby.
  destruct observed; [rewrite filter_all|]; rewrite ?length_map, ?length_seq;
    try reflexivity.
  intros g Hg. apply in_map_iff in Hg. destruct Hg as (k & <- & Hk).
  apply in_seq in Hk. destruct (H k ltac:(lia)) as (r & Hr & E).
  simpl. apply negb_true_iff, Nat.eqb_neq. intro Hlen.
  apply length_zero_iff_nil in Hlen.
  assert (Hin : In r (map snd (filter (fun cr =>
            option_nat_eqb (fst cr) (Some k)) (combine (map f d) d))))
    by (apply group_rows; auto).
  rewrite Hlen in Hin. destruct Hin.
Qed.

Lemma last_item_nth {A : Type} (l : list A) (x d : A) :
  last_item l = Ok x -> l <> [] /\ nth (length l - 1) l d = x.
Proof.
  induction l as [|a [|b l] IH]; simpl; intros H.
  - discriminate.
  - inversion H. split; [discriminate|reflexivity].
  - destruct (IH H) as [_ IH']. split; [discriminate|].
    simpl in IH'. now rewrite Nat.sub_0_r in IH'.
Qed.

Lemma cut_code_inside (a : list Q) (lo hi q : Q) :
  first a = Ok lo -> last_item a = Ok hi -> lo < q -> q < hi ->
  exists k, cut_code a (Fin q) = Some k.
Proof.
  intros Hf Hl Hlo Hhi. unfold cut_code.
  destruct (last_item_nth a 0 Hl) as [Hne Hnth].
  pose proof (searchsorted_left_le a q) as Hle.
  assert (H0 : searchsorted_left a q <> 0%nat).
  { destruct a as [|e a]; [discriminate|]. inversion Hf; subst e. simpl.
    replace (Qltb lo q) with true by (symmetry; now apply Qltb_lt).
    discriminate. }
  assert (Hn : searchsorted_left a q <> length a).
  { intro E. assert (Hlt : (length a - 1 < searchsorted_left a q)%nat).
    { destruct a; [congruence|]. simpl in *. lia. }
    apply searchsorted_left_below in Hlt. rewrite Hnth in Hlt. lra. }
  apply Nat.eqb_neq in H0, Hn. rewrite H0, Hn. simpl. eauto.
Qed.

Lemma filter_length_le_len {A : Type} (p : A -> bool) (l : list A) :
  (len (filter p l) <= len l)%Z.
Proof.
  unfold len. pose proof (filter_length_le p l). lia.
Qed.

Lemma select_eq_1_le (col : string) (d : DataFrame) :
  (len (select_eq_1 col d) <= len d)%Z.
Proof. apply filter_length_le_len. Qed.

(** C4, as stated, fails: with range [[0, 20]] and two bins, two passing
    events at 1 and 5 leave the second bin empty.  When the grouping
    yields the empty bin the call raises [ZeroDivisionError]; when it
    yields only the bins that occur, a single point is returned and
    nothing is reported for the empty bin.  A bin that holds an event but
    no passing one raises as well. *)
Lemma empty_bin_raises_or_is_missing :
  plot_eff_by_var false [signal_sample [event 1 1; event 5 1]]
    "x" {| range := [0; 20]; nbins := 2 |} true 25
  = Raise ZeroDivisionError
  /\ (exists r,
        plot_eff_by_var true [signal_sample [event 1 1; event 5 1]]
          "x" {| range := [0; 20]; nbins := 2 |} true 25 = Ok r
        /\ length (points r) = 1%nat)
  /\ forall observed,
       plot_eff_by_var observed
         [signal_sample [event 1 0; event 5 1; event 15 0]]
         "x" {| range := [0; 20]; nbins := 2 |} true 25
       = Raise ZeroDivisionError.
Proof.
  split; [reflexivity|]. split.
  - vm_compute. eexists. split; reflexivity.
  - intros [|]; reflexivity.
Qed.

(** C4 (amended).  The loop over the efficiency bins has no marker for an
    undefined ratio.  When the grouping yields every bin and some bin
    holds no in-range event, the call raises; a returned result never
    holds a point with [total_count = 0]; and the call returns one point
    per bin when the range is well formed and every bin holds an event
    that passes the selection. *)
Theorem efficiency_loop_has_no_undefined_marker
    (all_samples : list sample_dict) (var : string) (config : var_config)
    (ana_eff_bins_equal : bool) (nbins_eff : nat)
    (sig : sample_dict) (lo hi : Q) (n : nat) :
  find_sample all_samples "signal" = Ok sig ->
  first (range config) = Ok lo ->
  last_item (range config) = Ok hi ->
  n = (if ana_eff_bins_equal then nbins config else nbins_eff) ->
  ((exists k, (k < n)%nat
      /\ forall r, In r (df sig) -> eff_bin lo hi n (r var) <> Some k) ->
   exists e,
     plot_eff_by_var false all_samples var config ana_eff_bins_equal
       nbins_eff = Raise e)
  /\ (forall observed res,
        plot_eff_by_var observed all_samples var config ana_eff_bins_equal
          nbins_eff = Ok res ->
        Forall (fun p => total_count p <> 0%Z) (points res))
  /\ (monotonic_increasing (range config) = true ->
      has_duplicates (range config) = false ->
      lo < hi -> (0 < n)%nat ->
      (forall k, (k < n)%nat ->
         exists r, In r (df sig) /\ eff_bin lo hi n (r var) = Some k
                   /\ float_eq (r "reco_all_cuts_satisfied"%string) 1 = true) ->
      forall observed, exists res,
        plot_eff_by_var observed all_samples var config ana_eff_bins_equal
          nbins_eff = Ok res
        /\ length (points res) = n).
Proof.
  intros Hsig Hlo Hhi Hn.
  set (sig_df := filter_range var lo hi (df sig)).
  set (eff_bins := linspace lo hi (n + 1)).
  set (code := fun r : row => cut_code eff_bins (r var)).
  assert (Hcodes : map (cut_code eff_bins) (map (fun r : row => r var) sig_df)
                   = map code sig_df) by apply map_map.
  assert (Hncat : (length eff_bins - 1 = n)%nat)
    by (unfold eff_bins; rewrite linspace_length; lia).
  assert (Hcode : forall r, In r sig_df ->
            In r (df sig) /\ code r = eff_bin lo hi n (r var)).
  { intros r Hr. apply filter_In in Hr. destruct Hr as [Hr Hin].
    split; [exact Hr|]. unfold code, eff_bin. now rewrite Hin. }
  assert (Hunfold : forall observed,
    plot_eff_by_var observed all_samples var config ana_eff_bins_equal
      nbins_eff
    = (var_q_ana <- cut (map (fun r : row => r var) sig_df) (range config) ;;
       var_q_eff <- cut (map (fun r : row => r var) sig_df) eff_bins ;;
       hedges_ana <- hedges (range config) var_q_ana ;;
       hedges_eff <- hedges eff_bins var_q_eff ;;
       points <- for_each (eff_loop_body eff_bins)
                   (groupby observed (length eff_bins - 1) var_q_eff sig_df) ;;
       Ok {| hedges_ana := hedges_ana;
             counts := map (fun g => len (snd g))
                         (groupby observed (length (range config) - 1)
                                  var_q_ana sig_df);
             hedges_eff := hedges_eff; points := points |})).
  { intros observed. unfold plot_eff_by_var.
    rewrite Hsig, Hlo, Hhi. cbn [bind]. rewrite <- Hn. reflexivity. }
  split; [|split].
  - (* an empty bin *)
    intros (k & Hk & Hempty). rewrite Hunfold. clear Hunfold.
    destruct (cut _ (range config)) as [var_q_ana|e]; cbn [bind]; [|eauto].
    unfold cut at 1.
    destruct (negb (monotonic_increasing eff_bins)); cbn [bind]; [eauto|].
    destruct (has_duplicates eff_bins && negb (length eff_bins =? 2)%nat);
      cbn [bind]; [eauto|].
    destruct (hedges (range config) var_q_ana); cbn [bind]; [|eauto].
    destruct (hedges eff_bins _); cbn [bind]; [|eauto].
    rewrite Hcodes, Hncat.
    destruct (for_each_raise (eff_loop_body eff_bins)
                (groupby false n (map code sig_df) sig_df)) as [e ->];
      [|cbn [bind]; eauto].
    destruct (groupby_all_categories code sig_df Hk) as (g & Hg & Hfst).
    exists g. split; [exact Hg|]. eexists.
    apply eff_loop_body_no_pass.
    apply groupby_In in Hg. destruct Hg as [_ Hrows].
    destruct (snd g) as [|r rows] eqn:E; [reflexivity|exfalso].
    destruct (proj1 (Hrows r) (or_introl eq_refl)) as [Hr Hc].
    destruct (Hcode r Hr) as [Hr' Hc']. rewrite Hfst in Hc.
    apply (Hempty r Hr'). congruence.
  - (* no point for an empty bin *)
    intros observed res. rewrite Hunfold. clear Hunfold.
    destruct (cut _ (range config)); cbn [bind]; [|discriminate].
    destruct (cut _ eff_bins); cbn [bind]; [|discriminate].
    destruct (hedges (range config) _); cbn [bind]; [|discriminate].
    destruct (hedges eff_bins _); cbn [bind]; [|discriminate].
    destruct (for_each _ _) as [pts|] eqn:Epts; cbn [bind]; [|discriminate].
    intros H. inversion H; subst res; clear H. simpl.
    apply Forall_forall. intros p Hp.
    destruct (for_each_In _ _ _ Epts Hp) as (g & _ & Hg).
    apply eff_loop_body_ok in Hg. destruct Hg as (Ht & Hpc & Hne & _).
    pose proof (select_eq_1_le "reco_all_cuts_satisfied" (snd g)) as Hle.
    rewrite <- Hpc, <- Ht in Hle.
    assert (0 <= pass_count p)%Z by (rewrite Hpc; unfold len; lia).
    lia.
  - (* every bin holds a passing event *)
    intros Hmono Hdup Hlt Hpos Hfull observed. rewrite Hunfold.
    pose proof (linspace_increasing Hlt Hpos) as Hinc.
    destruct (increasing_accepted_by_cut Hinc) as [Hm Hd].
    rewrite (cut_ok _ _ Hmono Hdup). cbn [bind].
    fold eff_bins in Hm, Hd. rewrite (cut_ok _ eff_bins Hm Hd). cbn [bind].
    assert (Hin : forall r, In r sig_df ->
              exists q, r var = Fin q /\ lo < q /\ q < hi).
    { intros r Hr. apply filter_In in Hr. destruct Hr as [_ Hr].
      now apply in_range_spec in Hr. }
    assert (Hwit : forall k, (k < n)%nat ->
              exists r, In r sig_df /\ code r = Some k
                /\ float_eq (r "reco_all_cuts_satisfied"%string) 1 = true).
    { intros k Hk. destruct (Hfull k Hk) as (r & Hr & Hb & Hp).
      exists r. unfold code. unfold eff_bin in Hb.
      destruct (in_range lo hi (r var)) eqn:Er; [|discriminate].
      repeat split; auto. apply filter_In. auto. }
    assert (Hne : sig_df <> []).
    { destruct (Hwit 0%nat Hpos) as (r & Hr & _).
      intro E. rewrite E in Hr. destruct Hr. }
    destruct (@hedges_ok (range config)
                (map (cut_code (range config))
                     (map (fun r : row => r var) sig_df))) as [ha ->].
    { destruct sig_df; [congruence|discriminate]. }
    { intros c Hc. rewrite map_map in Hc. apply in_map_iff in Hc.
      destruct Hc as (r & <- & Hr). destruct (Hin r Hr) as (q & -> & H1 & H2).
      exact (cut_code_inside _ Hlo Hhi H1 H2). }
    cbn [bind]. rewrite Hcodes.
    destruct (@hedges_ok eff_bins (map code sig_df)) as [he ->].
    { destruct sig_df; [congruence|discriminate]. }
    { intros c Hc. apply in_map_iff in Hc. destruct Hc as (r & <- & Hr).
      destruct (Hin r Hr) as (q & E & H1 & H2).
      destruct (eff_bin_total Hlt Hpos H1 H2) as (k & Hk & _).
      exists k. destruct (Hcode r Hr) as [_ ->]. now rewrite E. }
    cbn [bind]. rewrite Hncat.
    destruct (for_each_ok (eff_loop_body eff_bins)
                (groupby observed n (map code sig_df) sig_df))
      as (pts & -> & Hlen & _).
    { intros g Hg. apply groupby_In in Hg. destruct Hg as [Hk Hrows].
      destruct (Hwit _ Hk) as (r & Hr & Hc & Hp).
      apply eff_loop_body_some_pass with r; [|exact Hp].
      apply Hrows. auto. }
    cbn [bind]. eexists. split; [reflexivity|]. simpl.
    rewrite Hlen. apply groupby_length.
    intros k Hk. destruct (Hwit k Hk) as (r & Hr & Hc & _). eauto.
Qed.

Lemma efficiency_loop_has_no_undefined_marker_witness :
  exists res,
    plot_eff_by_var false [signal_sample [event 5 1; event 15 1]] "x"
      {| range := [0; 20]; nbins := 2 |} true 25 = Ok res
    /\ length (points res) = 2%nat.
Proof.
  destruct (@efficiency_loop_has_no_undefined_marker
              [signal_sample [event 5 1; event 15 1]] "x"
              {| range := [0; 20]; nbins := 2 |} true 25
              (signal_sample [event 5 1; event 15 1]) 0 20 2
              eq_refl eq_refl eq_refl eq_refl) as (_ & _ & H).
  apply H.
  - reflexivity.
  - reflexivity.
  - reflexivity.
  - lia.
  - intros k Hk. destruct k as [|[|k]]; [| |lia].
    + exists (event 5 1). repeat split. simpl. auto.
    + exists (event 15 1). repeat split. simpl. auto.
Defined.

(** ** [plot_eff_by_var]: what the returned points hold *)

Lemma group_rows_filter (f : row -> option nat) (d : DataFrame) (k : nat) :
  map snd (filter (fun cr => option_nat_eqb (fst cr) (Some k))
                  (combine (map f d) d))
  = filter (fun r => option_nat_eqb (f r) (Some k)) d.
Proof.
  induction d as [|r d IH]; simpl; [reflexivity|].
  destruct (option_nat_eqb (f r) (Some k)); simpl; now rewrite IH.
Qed.

Lemma filter_filter {A : Type} (p q : A -> bool) (l : list A) :
  filter p (filter q l) = filter (fun x => q x && p x) l.
Proof.
  induction l as [|a l IH]; simpl; [reflexivity|].
  destruct (q a); simpl; [destruct (p a)|]; now rewrite IH.
Qed.

Lemma for_each_map {A B C : Type} (f : A -> result B) (g : B -> C)
    (h : A -> C) (xs : list A) (ys : list B) :
  (forall x y, f x = Ok y -> g y = h x) ->
  for_each f xs = Ok ys -> map g ys = map h xs.
Proof.
  intros Hgh H. apply for_each_inv in H.
  induction H as [|x y xs ys Hxy _ IH]; simpl; [reflexivity|].
  now rewrite (Hgh x y Hxy), IH.
Qed.

(** Whenever the call returns with every bin grouped, the points are
    those of the bins in increasing order; the total of bin [k] is the
    number of signal events that [eff_bin] sends to [k], and the plotted
    value of every point is its total divided by its number of passing
    events. *)
Lemma returned_points
    (all_samples : list sample_dict) (var : string) (config : var_config)
    (ana_eff_bins_equal : bool) (nbins_eff : nat)
    (sig : sample_dict) (lo hi : Q) (n : nat) (res : eff_by_var) :
  find_sample all_samples "signal" = Ok sig ->
  first (range config) = Ok lo ->
  last_item (range config) = Ok hi ->
  n = (if ana_eff_bins_equal then nbins config else nbins_eff) ->
  plot_eff_by_var false all_samples var config ana_eff_bins_equal nbins_eff
  = Ok res ->
  map total_count (points res)
  = map (fun k => len (filter (fun r => option_nat_eqb
                                          (eff_bin lo hi n (r var)) (Some k))
                              (df sig)))
        (seq 0 n)
  /\ Forall (fun p => pass_count p <> 0%Z
                      /\ val p = inject_Z (total_count p)
                                 / inject_Z (pass_count p))
            (points res).
Proof.
  intros Hsig Hlo Hhi Hn. unfold plot_eff_by_var.
  rewrite Hsig, Hlo, Hhi. cbn [bind]. rewrite <- Hn.
  destruct (cut _ (range config)); cbn [bind]; [|discriminate].
  unfold cut at 1.
  destruct (negb (monotonic_increasing _)); cbn [bind]; [discriminate|].
  destruct (has_duplicates _ && _); cbn [bind]; [discriminate|].
  destruct (hedges (range config) _); cbn [bind]; [|discriminate].
  destruct (hedges (linspace lo hi (n + 1)) _); cbn [bind]; [|discriminate].
  destruct (for_each _ _) as [pts|] eqn:Epts; cbn [bind]; [|discriminate].
  intros H. inversion H; subst res; clear H. cbn [points]. split.
  - assert (Hgh : forall g p,
              eff_loop_body (linspace lo hi (n + 1)) g = Ok p ->
              total_count p = len (snd g))
      by (intros g p Hg; now apply eff_loop_body_ok in Hg).
    rewrite (@for_each_map _ _ _ _ total_count (fun g => len (snd g))
               _ _ Hgh Epts).
    unfold groupby. rewrite linspace_length, Nat.add_sub, !map_map.
    apply map_ext. intros k. cbn [snd]. apply (f_equal (@len row)).
    rewrite (group_rows_filter
               (fun r => cut_code (linspace lo hi (n + 1)) (r var))).
    unfold filter_range. rewrite filter_filter.
    apply filter_ext. intros r. unfold eff_bin.
    now destruct (in_range lo hi (r var)).
  - apply Forall_forall. intros p Hp.
    destruct (for_each_In _ _ _ Epts Hp) as (g & _ & Hg).
    apply eff_loop_body_ok in Hg. tauto.
Qed.

(** ** [calculate_efficiency_by_cut] *)

Section ByCut.

Import PurEff.

Variable eval_cond : string -> row -> bool.

(** The loop of lines 139--142 builds the conditions joined by [&]. *)
Lemma join_from_join (value : list condition) (i : nat) :
  join_from i (i + length value) value = join value.
Proof.
  revert i. induction value as [|c rest IH]; intros i; [reflexivity|].
  cbn [join_from join length].
  destruct rest as [|c' rest'].
  - cbn [join_from length].
    replace (i =? i + 1 - 1)%nat with true
      by (symmetry; apply Nat.eqb_eq; lia).
    cbn [negb]. now rewrite !app_nil_r.
  - replace (i =? i + S (length (c' :: rest')) - 1)%nat with false
      by (symmetry; apply Nat.eqb_neq; cbn [length]; lia).
    cbn [negb].
    replace (i + S (length (c' :: rest')))%nat
      with (S i + length (c' :: rest'))%nat by lia.
    rewrite IH. reflexivity.
Qed.

Lemma cond_string_join (value : list condition) :
  cond_string value = join value.
Proof. apply (join_from_join value 0). Qed.

Lemma list_ind2 {A : Type} (P : list A -> Prop) :
  P [] -> (forall x, P [x]) -> (forall x y l, P l -> P (x :: y :: l)) ->
  forall l, P l.
Proof.
  intros H0 H1 H2 l. enough (P l /\ forall x, P (x :: l)) by tauto.
  induction l as [|a l [IHl IHl']]; split; auto.
Qed.

Lemma disjuncts_nonempty (toks : list token) (ds : list (list string)) :
  disjuncts toks = Ok ds -> ds <> [] /\ toks <> [].
Proof.
  destruct toks as [|[c| |] [|[c'| |] rest]]; cbn [disjuncts];
    try discriminate.
  - intros H. inversion H. split; discriminate.
  - destruct (disjuncts rest) as [[|d ds']|]; cbn [bind]; try discriminate.
    intros H. inversion H. split; discriminate.
  - destruct (disjuncts rest) as [ds'|]; cbn [bind]; try discriminate.
    intros H. inversion H. split; discriminate.
Qed.

(** Two pieces joined by [&]: the last conjunction of the first piece
    and the first conjunction of the second become one. *)
Lemma disjuncts_amp (c1 c2 : list token) (ds1 ds2 : list (list string)) :
  disjuncts c1 = Ok ds1 -> disjuncts c2 = Ok ds2 ->
  disjuncts (c1 ++ Amp :: c2)
  = Ok (removelast ds1 ++ (last ds1 [] ++ hd [] ds2) :: tl ds2).
Proof.
  intros H1 H2. destruct (@disjuncts_nonempty _ _ H2) as [Hds2 _].
  destruct ds2 as [|d2 ds2']; [congruence|]. cbn [hd tl].
  revert ds1 H1.
  induction c1 as [|t|t t' rest IH] using list_ind2; intros ds1 H1.
  - discriminate H1.
  - destruct t as [c| |]; try discriminate H1.
    inversion H1; subst ds1. cbn [app disjuncts removelast last].
    rewrite H2. reflexivity.
  - destruct t as [c| |]; [|discriminate H1|discriminate H1].
    destruct t' as [c'| |]; [discriminate H1| |]; cbn [disjuncts] in H1.
    + destruct (disjuncts rest) as [[|d ds']|] eqn:Er; cbn [bind] in H1;
        try discriminate.
      inversion H1; subst ds1; clear H1.
      change ((Cond c :: Amp :: rest) ++ Amp :: c2)
        with (Cond c :: Amp :: (rest ++ Amp :: c2)).
      cbn [disjuncts]. rewrite (IH _ eq_refl). cbn [bind].
      destruct ds' as [|d' ds'']; reflexivity.
    + destruct (disjuncts rest) as [ds'|] eqn:Er; cbn [bind] in H1;
        try discriminate.
      inversion H1; subst ds1; clear H1.
      change ((Cond c :: Bar :: rest) ++ Amp :: c2)
        with (Cond c :: Bar :: (rest ++ Amp :: c2)).
      cbn [disjuncts]. rewrite (IH _ eq_refl). cbn [bind].
      destruct (@disjuncts_nonempty _ _ Er) as [Hne _].
      destruct ds' as [|d' ds'']; [congruence|]. reflexivity.
Qed.

Lemma conjunction_disjuncts (c : condition) :
  conjunction c -> disjuncts c = Ok [operands c].
Proof.
  induction c as [|t|t t' rest IH] using list_ind2; cbn [conjunction].
  - contradiction.
  - destruct t; [reflexivity|contradiction|contradiction].
  - destruct t as [x| |]; [|contradiction|contradiction].
    destruct t' as [x'| |]; [contradiction| |contradiction].
    intros H. cbn [disjuncts operands]. now rewrite (IH H).
Qed.

Lemma conjunction_amp (c1 c2 : condition) :
  conjunction c1 -> conjunction c2 ->
  conjunction (c1 ++ Amp :: c2)
  /\ operands (c1 ++ Amp :: c2) = operands c1 ++ operands c2.
Proof.
  intros H1 H2.
  induction c1 as [|t|t t' rest IH] using list_ind2; cbn [conjunction] in H1.
  - contradiction.
  - destruct t; [|contradiction|contradiction].
    split; [exact H2|reflexivity].
  - destruct t as [x| |]; [|contradiction|contradiction].
    destruct t' as [x'| |]; [contradiction| |contradiction].
    destruct (IH H1) as [Hc Ho].
    change ((Cond x :: Amp :: rest) ++ Amp :: c2)
      with (Cond x :: Amp :: (rest ++ Amp :: c2)).
    cbn [conjunction operands]. split; [exact Hc|]. now rewrite Ho.
Qed.

Lemma conjunction_join (value : list condition) :
  Forall conjunction value -> value <> [] ->
  conjunction (join value)
  /\ operands (join value) = flat_map operands value.
Proof.
  induction 1 as [|c rest Hc Hrest IH]; intros Hne; [congruence|].
  destruct rest as [|c' rest'].
  - cbn [join flat_map]. rewrite app_nil_r. auto.
  - destruct (IH ltac:(discriminate)) as [Hj Ho].
    change (join (c :: c' :: rest')) with (c ++ Amp :: join (c' :: rest')).
    destruct (@conjunction_amp c (join (c' :: rest')) Hc Hj) as [H1 H2].
    split; [exact H1|]. rewrite H2, Ho. reflexivity.
Qed.

Lemma holds_single (l : list string) (r : row) :
  holds eval_cond [l] r = forallb (fun c => eval_cond c r) l.
Proof. unfold holds. cbn [existsb]. apply orb_false_r. Qed.

Lemma query_conjunctions (d : DataFrame) (value : list condition) :
  Forall conjunction value -> value <> [] ->
  query eval_cond d (cond_string value)
  = Ok (filter (holds eval_cond [flat_map operands value]) d).
Proof.
  intros Hall Hne. destruct (@conjunction_join _ Hall Hne) as [Hc Ho].
  unfold query. rewrite cond_string_join.
  pose proof (@conjunction_disjuncts _ Hc) as Hd.
  destruct (join value) as [|t toks] eqn:Ej; [destruct Hc|].
  rewrite Hd. cbn [bind]. now rewrite Ho.
Qed.

Lemma query_empty (d : DataFrame) :
  query eval_cond d (cond_string []) = Raise ValueError.
Proof. reflexivity. Qed.

Lemma query_inv (d sel : DataFrame) (toks : list token) :
  query eval_cond d toks = Ok sel ->
  exists ds, disjuncts toks = Ok ds /\ sel = filter (holds eval_cond ds) d.
Proof.
  unfold query. destruct toks as [|t toks]; [discriminate|].
  destruct (disjuncts (t :: toks)) as [ds|]; cbn [bind]; [|discriminate].
  intros H. inversion H. eauto.
Qed.

Lemma efficiency_of_cut_inv (d : DataFrame) (cut : string * list condition)
    (ke : string * Q) :
  efficiency_of_cut eval_cond d cut = Ok ke ->
  d <> []
  /\ exists ds,
       disjuncts (cond_string (snd cut)) = Ok ds
       /\ ke = (fst cut, fraction_of eval_cond d ds).
Proof.
  unfold efficiency_of_cut.
  destruct (query eval_cond d (cond_string (snd cut))) as [sel|] eqn:Eq;
    cbn [bind]; [|discriminate].
  apply query_inv in Eq. destruct Eq as (ds & Hds & ->).
  unfold truediv. destruct (len d =? 0)%Z eqn:E0; cbn [bind]; [discriminate|].
  intros H. inversion H. split.
  - intros ->. discriminate.
  - exists ds. split; [exact Hds|reflexivity].
Qed.

Lemma efficiency_of_cut_ok (d : DataFrame) (cut : string * list condition) :
  Forall conjunction (snd cut) -> snd cut <> [] -> d <> [] ->
  efficiency_of_cut eval_cond d cut
  = Ok (fst cut, efficiency_of eval_cond d (snd cut)).
Proof.
  intros Hall Hc Hd. unfold efficiency_of_cut.
  rewrite query_conjunctions by assumption. cbn [bind].
  unfold truediv.
  replace (len d =? 0)%Z with false; [reflexivity|].
  symmetry. apply Z.eqb_neq. destruct d; [congruence|]. unfold len. simpl. lia.
Qed.

Lemma efficiency_of_conjunctions (d : DataFrame)
    (cut : string * list condition) (ke : string * Q) :
  Forall conjunction (snd cut) ->
  efficiency_of_cut eval_cond d cut = Ok ke ->
  d <> [] /\ snd cut <> []
  /\ ke = (fst cut, efficiency_of eval_cond d (snd cut)).
Proof.
  intros Hall H.
  destruct (@efficiency_of_cut_inv _ _ _ H) as (Hd & _).
  assert (Hne : snd cut <> []).
  { intro E. unfold efficiency_of_cut in H. rewrite E in H. discriminate H. }
  rewrite (@efficiency_of_cut_ok _ _ Hall Hne Hd) in H.
  inversion H. auto.
Qed.

Lemma filter_length_mono {A : Type} (p q : A -> bool) (l : list A) :
  (forall x, p x = true -> q x = true) ->
  (length (filter p l) <= length (filter q l))%nat.
Proof.
  intros H. induction l as [|a l IH]; simpl; [lia|].
  destruct (p a) eqn:Ep.
  - rewrite (H a Ep). simpl. lia.
  - destruct (q a); simpl; lia.
Qed.

Lemma len_pos {A : Type} (d : list A) : d <> [] -> 0 < inject_Z (len d).
Proof.
  intros Hd. change 0 with (inject_Z 0). rewrite <- Zlt_Qlt.
  destruct d; [congruence|]. unfold len. simpl. lia.
Qed.

Lemma fraction_of_bounds (d : DataFrame) (ds : list (list string)) :
  d <> [] ->
  0 <= fraction_of eval_cond d ds /\ fraction_of eval_cond d ds <= 1.
Proof.
  intros Hd. pose proof (len_pos Hd) as Hpos. unfold fraction_of. split.
  - apply Qle_shift_div_l; [exact Hpos|]. rewrite Qmult_0_l.
    change 0 with (inject_Z 0). rewrite <- Zle_Qle. unfold len. lia.
  - apply Qle_shift_div_r; [exact Hpos|]. rewrite Qmult_1_l.
    rewrite <- Zle_Qle. apply filter_length_le_len.
Qed.

Lemma eff_of_bounds (d : DataFrame) (value : list condition) :
  d <> [] ->
  0 <= efficiency_of eval_cond d value /\ efficiency_of eval_cond d value <= 1.
Proof. apply fraction_of_bounds. Qed.

Lemma eff_of_extend (d : DataFrame) (value ext : list condition) :
  d <> [] ->
  efficiency_of eval_cond d (value ++ ext) <= efficiency_of eval_cond d value.
Proof.
  intros Hd. pose proof (len_pos Hd) as Hpos.
  unfold efficiency_of, fraction_of.
  apply Qmult_le_compat_r.
  - rewrite <- Zle_Qle. unfold len. apply inj_le, filter_length_mono.
    intros r Hr. rewrite holds_single in *.
    rewrite flat_map_app, forallb_app in Hr.
    now apply andb_true_iff in Hr.
  - apply Qlt_le_weak, Qinv_lt_0_compat, Hpos.
Qed.

Lemma for_each_efficiency_inv (d : DataFrame)
    (cuts : list (string * list condition)) (effs : list (string * Q)) :
  Forall (fun c => Forall conjunction (snd c)) cuts ->
  for_each (efficiency_of_cut eval_cond d) cuts = Ok effs ->
  effs = map (fun c => (fst c, efficiency_of eval_cond d (snd c))) cuts
  /\ (cuts <> [] -> d <> []).
Proof.
  intros Hall. revert effs.
  induction Hall as [|c cuts Hc _ IH]; intros effs H; simpl in H.
  - inversion H. split; [reflexivity|congruence].
  - destruct (efficiency_of_cut eval_cond d c) as [ke|] eqn:E;
      cbn [bind] in H; [|discriminate].
    destruct (for_each _ cuts) as [effs'|]; cbn [bind] in H; [|discriminate].
    inversion H; subst effs; clear H.
    apply (@efficiency_of_conjunctions _ _ _ Hc) in E.
    destruct E as (Hd & _ & ->).
    destruct (IH effs' eq_refl) as [-> _]. split; [reflexivity|auto].
Qed.

Lemma cumulative_nonincreasing (d : DataFrame)
    (cuts : list (string * list condition)) :
  d <> [] -> cumulative cuts ->
  nonincreasing (map (fun c => efficiency_of eval_cond d (snd c)) cuts).
Proof.
  intros Hd. induction cuts as [|c1 [|c2 cuts] IH]; intros Hc;
    try exact I.
  destruct Hc as [[ext Hext] Hc]. split; [|exact (IH Hc)].
  rewrite Hext. now apply eff_of_extend.
Qed.

(** C10 (amended).  For cumulative cuts every condition of which is a
    conjunction, that is, holds no [|] or [or] at its top level, the
    efficiencies printed by [calculate_efficiency_by_cut], taken after the
    baseline value 1 of the first line, never increase, and each lies
    between 0 and 1; they are printed, one per cut and in order, whenever
    the signal sample is not empty and no cut has an empty list of
    conditions. *)
Theorem efficiency_by_cut_nonincreasing
    (all_samples : list sample_dict) (cuts : list (string * list condition)) :
  cumulative cuts ->
  Forall (fun c => Forall conjunction (snd c)) cuts ->
  (forall effs,
     calculate_efficiency_by_cut eval_cond all_samples cuts = Ok effs ->
     map fst effs = map fst cuts
     /\ nonincreasing (no_cut_efficiency :: map snd effs)
     /\ Forall (fun e => 0 <= e /\ e <= no_cut_efficiency) (map snd effs))
  /\ (forall sig,
        find_sample all_samples "signal" = Ok sig -> df sig <> [] ->
        Forall (fun c => snd c <> []) cuts ->
        exists effs,
          calculate_efficiency_by_cut eval_cond all_samples cuts = Ok effs).
Proof.
  intros Hcum Hconj. unfold calculate_efficiency_by_cut. split.
  - intros effs. destruct (find_sample all_samples "signal") as [sig|];
      cbn [bind]; [|discriminate].
    intros H. apply (@for_each_efficiency_inv _ _ _ Hconj) in H.
    destruct H as [-> Hd].
    rewrite !map_map. cbn [fst snd].
    destruct cuts as [|c cuts]; [simpl; auto|].
    specialize (Hd ltac:(discriminate)).
    split; [reflexivity|]. split.
    + pose proof (@cumulative_nonincreasing _ _ Hd Hcum) as Hni.
      split; [|exact Hni]. cbn [map]. apply eff_of_bounds, Hd.
    + apply Forall_forall. intros e He. apply in_map_iff in He.
      destruct He as (c' & <- & _). apply eff_of_bounds, Hd.
  - intros sig -> Hd Hne. cbn [bind].
    destruct (for_each_ok (efficiency_of_cut eval_cond (df sig)) cuts)
      as (effs & -> & _); [|eauto].
    intros c Hc. rewrite Forall_forall in Hne, Hconj.
    rewrite (@efficiency_of_cut_ok _ c (Hconj c Hc) (Hne c Hc) Hd). eauto.
Qed.

End ByCut.

Example efficiency_by_cut_run :
  PurEff.calculate_efficiency_by_cut eval_eq_1
    [signal_sample [flags 1 1; flags 1 0; flags 0 1; flags 1 1]] two_cuts
  = Ok [("Flash Cut"%string, (3 # 1) / (4 # 1));
        ("Fiducial Cut"%string, (2 # 1) / (4 # 1))].
Proof. reflexivity. Qed.

(** C10, as stated, fails: a condition is pasted into the query string as
    it is, and an [|] in it regroups the string.  The cuts [['x == 1']]
    and [['x == 1', 'y == 1 | z == 1']] are cumulative; the second query
    is ['x == 1 & y == 1 | z == 1'], read as [(x == 1 and y == 1) or
    z == 1].  On the single event x = 0, y = 0, z = 1 the efficiencies are
    0 and then 1. *)
Lemma efficiency_by_cut_may_increase :
  cumulative cuts_with_or
  /\ PurEff.cond_string (snd (nth 1 cuts_with_or (""%string, [])))
     = [PurEff.Cond "x == 1"; PurEff.Amp; PurEff.Cond "y == 1"; PurEff.Bar;
        PurEff.Cond "z == 1"]%string
  /\ PurEff.disjuncts (PurEff.cond_string
                         (snd (nth 1 cuts_with_or (""%string, []))))
     = Ok [["x == 1"; "y == 1"]; ["z == 1"]]%string
  /\ PurEff.calculate_efficiency_by_cut eval_eq_1
       [signal_sample [xyz 0 0 1]] cuts_with_or
     = Ok [("X"%string, inject_Z 0 / inject_Z 1);
           ("X and Y or Z"%string, inject_Z 1 / inject_Z 1)]
  /\ ~ nonincreasing [inject_Z 0 / inject_Z 1; inject_Z 1 / inject_Z 1].
Proof.
  split; [|split; [|split; [|split]]]; try reflexivity.
  - simpl. split; [|exact I]. eexists. reflexivity.
  - simpl. intros [H _]. apply H. reflexivity.
Qed.

Lemma efficiency_by_cut_nonincreasing_witness :
  (forall effs,
     PurEff.calculate_efficiency_by_cut eval_eq_1
       [signal_sample [flags 1 1; flags 1 0; flags 0 1; flags 1 1]] two_cuts
     = Ok effs ->
     map fst effs = map fst two_cuts
     /\ nonincreasing (PurEff.no_cut_efficiency :: map snd effs)
     /\ Forall (fun e => 0 <= e /\ e <= PurEff.no_cut_efficiency)
               (map snd effs))
  /\ (forall sig,
        find_sample
          [signal_sample [flags 1 1; flags 1 0; flags 0 1; flags 1 1]]
          "signal" = Ok sig -> df sig <> [] ->
        Forall (fun c => snd c <> []) two_cuts ->
        exists effs,
          PurEff.calculate_efficiency_by_cut eval_eq_1
            [signal_sample [flags 1 1; flags 1 0; flags 0 1; flags 1 1]]
            two_cuts = Ok effs).
Proof.
  apply (@efficiency_by_cut_nonincreasing eval_eq_1
           [signal_sample [flags 1 1; flags 1 0; flags 0 1; flags 1 1]]
           two_cuts).
  - simpl. split; [|exact I].
    exists [atom "reco_fiducial_satisfied == 1"]. reflexivity.
  - repeat constructor.
Defined.

(** ** [calculate_purity] *)

Section Purity.

Import PurEff.

(** The scenario of the claim: 60 of 100 simulated events are foreground,
    the simulation holds twice the exposure of the data and the
    background sample holds 10 events at equal livetime: matched = 30,
    scaled totals 50 and 10, purity 1/2. *)
Example purity_scenario :
  exists p, calculate_purity (purity_samples 1 2 60 40 10) "true_category"
            = Ok (Fin p) /\ p == 1 # 2.
Proof. vm_compute. eexists. split; reflexivity. Qed.

Lemma float_max_pos : 0 < float_max.
Proof. reflexivity. Qed.

Lemma overflow_finite (q r : Q) :
  overflow q = Fin r -> r = q /\ - float_max <= q /\ q <= float_max.
Proof.
  unfold overflow.
  destruct (Qltb float_max q) eqn:E1; [discriminate|].
  destruct (Qltb q (- float_max)) eqn:E2; [discriminate|].
  intros H. inversion H; subst. apply Qltb_ge in E1. apply Qltb_ge in E2.
  repeat split; assumption.
Qed.

Lemma overflow_in_range (q : Q) :
  - float_max <= q -> q <= float_max -> overflow q = Fin q.
Proof.
  intros Hlo Hhi. unfold overflow.
  destruct (Qltb float_max q) eqn:E1; [apply Qltb_lt in E1; lra|].
  destruct (Qltb q (- float_max)) eqn:E2; [apply Qltb_lt in E2; lra|].
  reflexivity.
Qed.

Lemma overflow_unit (q : Q) : 0 <= q -> q <= 1 -> overflow q = Fin q.
Proof.
  intros H0 H1. pose proof float_max_pos as Hm.
  assert (H : 1 <= float_max) by (intro E; discriminate E).
  apply overflow_in_range; lra.
Qed.

(** C8, as stated, fails in its last part.  With positive exposures
    [2^1023] and 1 and two foreground events the scaled counts overflow:
    the denominator is [+inf], which is positive, and the purity is NaN.
    With a negative exposure of the data sample the denominator is
    positive too (-1 * 1 + 1 * 3 = 2) while the purity is -1/2. *)
Lemma purity_outside_unit_interval :
  calculate_purity (purity_samples (inject_Z (2 ^ 1023)) 1 2 0 0)
    "true_category" = Ok NaN
  /\ fadd (fmul (fdiv (Fin (inject_Z (2 ^ 1023))) (Fin 1)) (of_int 2))
          (fmul (fdiv (Fin 1) (Fin 1)) (of_int 0)) = PInf
  /\ exists p,
       calculate_purity (purity_samples (-1) 1 1 0 3) "true_category"
       = Ok (Fin p)
       /\ 0 < (-1 / 1) * inject_Z 1 + (1 / 1) * inject_Z 3
       /\ p == - (1 # 2) /\ ~ (0 <= p).
Proof.
  split; [vm_compute; reflexivity|]. split; [vm_compute; reflexivity|].
  vm_compute. eexists. split; [reflexivity|].
  repeat split. intro H. apply H. reflexivity.
Qed.

(** C8 (amended).  For every input sample set that holds the four
    samples, the computed purity is [scale_mc] times the number of
    signal-like events of true category 0, divided by ([scale_mc] times
    the number of signal-like events plus [scale_bg] times the number of
    background-like events), with [scale_mc = pot_onbeam / pot_mc] and
    [scale_bg = livetime_onbeam / livetime_offbeam], all in float
    arithmetic.  When the scale factors, the scaled counts and their sum
    are finite and the sum is not zero, this is the quotient of the
    rationals, unless the quotient overflows; matched = 30 with scaled
    totals 50 and 10 gives 1/2; and the purity lies in [[0, 1]] whenever
    both scale factors are non-negative and the denominator is finite
    and positive. *)
Theorem purity_formula
    (all_samples : list sample_dict) (true_category : string)
    (nu cos offbeam onbeam : sample_dict) :
  find_sample all_samples "mc_nu" = Ok nu ->
  find_sample all_samples "mc_cos" = Ok cos ->
  find_sample all_samples "offbeam" = Ok offbeam ->
  find_sample all_samples "onbeam" = Ok onbeam ->
  let signal_like := df nu ++ df cos in
  let n_matched := len (select_eq_0 true_category signal_like) in
  let n_mc := len signal_like in
  let n_bg := len (df offbeam) in
  let scale_mc := fdiv (pot onbeam) (pot nu) in
  let scale_bg := fdiv (livetime onbeam) (livetime offbeam) in
  let numerator := fmul scale_mc (of_int n_matched) in
  let denominator :=
    fadd (fmul scale_mc (of_int n_mc)) (fmul scale_bg (of_int n_bg)) in
  calculate_purity all_samples true_category
  = Ok (fdiv numerator denominator)
  /\ forall s_mc s_bg matched total : Q,
       scale_mc = Fin s_mc -> scale_bg = Fin s_bg ->
       numerator = Fin matched -> denominator = Fin total ->
       ~ total == 0 ->
       matched = s_mc * inject_Z n_matched
       /\ total = s_mc * inject_Z n_mc + s_bg * inject_Z n_bg
       /\ calculate_purity all_samples true_category
          = Ok (overflow (matched / total))
       /\ (matched == 30 -> total == 50 + 10 ->
           exists pur,
             calculate_purity all_samples true_category = Ok (Fin pur)
             /\ pur == 1 # 2)
       /\ (0 <= s_mc -> 0 <= s_bg -> 0 < total ->
           exists pur,
             calculate_purity all_samples true_category = Ok (Fin pur)
             /\ pur == matched / total /\ 0 <= pur /\ pur <= 1).
Proof.
  intros Hnu Hcos Hoff Hon signal_like n_matched n_mc n_bg scale_mc scale_bg
    numerator denominator.
  assert (Hrun : calculate_purity all_samples true_category
                 = Ok (fdiv numerator denominator)).
  { unfold calculate_purity. rewrite Hnu, Hcos, Hoff, Hon. reflexivity. }
  split; [exact Hrun|].
  intros s_mc s_bg matched total Hs_mc Hs_bg Hnum Hden Htot.
  assert (Hm : matched = s_mc * inject_Z n_matched).
  { unfold numerator in Hnum. rewrite Hs_mc in Hnum.
    unfold of_int in Hnum. cbn [fmul] in Hnum.
    now apply overflow_finite in Hnum. }
  assert (Ht : total = s_mc * inject_Z n_mc + s_bg * inject_Z n_bg).
  { unfold denominator in Hden. rewrite Hs_mc, Hs_bg in Hden.
    unfold of_int in Hden. cbn [fmul] in Hden.
    destruct (overflow (s_mc * inject_Z n_mc)) as [a| | |] eqn:Ea;
      destruct (overflow (s_bg * inject_Z n_bg)) as [b| | |] eqn:Eb;
      try discriminate Hden.
    apply overflow_finite in Ea. apply overflow_finite in Eb.
    cbn [fadd] in Hden. apply overflow_finite in Hden.
    destruct Ea as [-> _], Eb as [-> _]. tauto. }
  assert (Hq : calculate_purity all_samples true_category
               = Ok (overflow (matched / total))).
  { rewrite Hrun, Hnum, Hden. unfold fdiv.
    apply Qeq_bool_false in Htot. now rewrite Htot. }
  split; [exact Hm|]. split; [exact Ht|]. split; [exact Hq|]. split.
  - intros Em Et. exists (matched / total). split.
    + rewrite Hq. f_equal. apply overflow_unit.
      * rewrite Em, Et. intro E. discriminate E.
      * rewrite Em, Et. intro E. discriminate E.
    + rewrite Em, Et. reflexivity.
  - intros Hsmc Hsbg Hpos.
    assert (Hfg : 0 <= inject_Z n_matched).
    { change 0 with (inject_Z 0). rewrite <- Zle_Qle.
      unfold n_matched, len. lia. }
    assert (Hle : inject_Z n_matched <= inject_Z n_mc).
    { rewrite <- Zle_Qle. apply filter_length_le_len. }
    assert (Hbg : 0 <= s_bg * inject_Z n_bg).
    { apply Qmult_le_0_compat; [exact Hsbg|].
      change 0 with (inject_Z 0). rewrite <- Zle_Qle. unfold n_bg, len. lia. }
    assert (Hm0 : 0 <= matched)
      by (rewrite Hm; apply Qmult_le_0_compat; assumption).
    assert (Hmt : matched <= total).
    { rewrite Hm, Ht.
      assert (s_mc * inject_Z n_matched <= s_mc * inject_Z n_mc).
      { rewrite !(Qmult_comm s_mc). apply Qmult_le_compat_r; assumption. }
      lra. }
    assert (H0 : 0 <= matched / total).
    { apply Qle_shift_div_l; [exact Hpos|]. now rewrite Qmult_0_l. }
    assert (H1 : matched / total <= 1).
    { apply Qle_shift_div_r; [exact Hpos|]. now rewrite Qmult_1_l. }
    exists (matched / total). split; [|split; [reflexivity|split]];
      try assumption.
    rewrite Hq. f_equal. now apply overflow_unit.
Qed.

Lemma purity_formula_witness :
  exists pur,
    calculate_purity (purity_samples 1 2 60 40 10) "true_category"
    = Ok (Fin pur)
    /\ pur == 1 # 2 /\ 0 <= pur /\ pur <= 1.
Proof.
  destruct (@purity_formula (purity_samples 1 2 60 40 10) "true_category"
              _ _ _ _ eq_refl eq_refl eq_refl eq_refl) as [_ H].
  destruct (H (1 / 2) (1 / 1) _ _ eq_refl eq_refl eq_refl eq_refl)
    as (_ & _ & _ & Hscen & Hbound).
  - intro E; discriminate E.
  - destruct Hscen as (pur & Hpur & Hhalf); [reflexivity|reflexivity|].
    destruct Hbound as (pur' & Hpur' & _ & H0 & H1);
      [intro E; discriminate E|intro E; discriminate E|reflexivity|].
    exists pur. split; [exact Hpur|]. split; [exact Hhalf|].
    rewrite Hpur in Hpur'. inversion Hpur'. subst pur'. split; assumption.
Defined.

End Purity.

(** ** Confusion matrix: arithmetic of the cells *)

Section ConfusionAlgebra.

Import Confusion.

Local Open Scope Z_scope.

Lemma wrap64_add_l (a b : Z) : wrap64 (wrap64 a + b) = wrap64 (a + b).
Proof.
  unfold wrap64. f_equal.
  replace ((a + 2 ^ 63) mod 2 ^ 64 - 2 ^ 63 + b + 2 ^ 63)
    with ((a + 2 ^ 63) mod 2 ^ 64 + b) by ring.
  rewrite Zplus_mod_idemp_l. f_equal. ring.
Qed.

Lemma wrap64_add_r (a b : Z) : wrap64 (a + wrap64 b) = wrap64 (a + b).
Proof. rewrite Z.add_comm, wrap64_add_l. f_equal. ring. Qed.

Lemma wrap64_int64 (z : Z) : int64 (wrap64 z).
Proof.
  unfold int64, wrap64.
  pose proof (Z.mod_pos_bound (z + 2 ^ 63) (2 ^ 64) ltac:(lia)). lia.
Qed.

Lemma wrap64_id (z : Z) : int64 z -> wrap64 z = z.
Proof.
  unfold int64, wrap64. intros H. rewrite Z.mod_small by lia. lia.
Qed.

End ConfusionAlgebra.

(** ** Confusion matrix: [+=] and the counting matrix *)

Section ConfusionCounting.

Import Confusion.

Lemma zip_with_comm_r {A B : Type} (h : A -> B -> A) :
  (forall m x y, h (h m x) y = h (h m y) x) ->
  forall a x y,
    zip_with h (zip_with h a x) y = zip_with h (zip_with h a y) x.
Proof.
  intros Hh. induction a as [|m a IH]; intros x y.
  - reflexivity.
  - destruct x as [|x0 x], y as [|y0 y]; simpl; try reflexivity.
    now rewrite Hh, IH.
Qed.

Lemma zip_with_comm {A : Type} (h : A -> A -> A) :
  (forall x y, h x y = h y x) ->
  forall a b, zip_with h a b = zip_with h b a.
Proof.
  intros Hh. induction a as [|x a IH]; intros [|y b]; simpl;
    try reflexivity.
  now rewrite Hh, IH.
Qed.

Lemma zip_with_map_fuse {A B X : Type} (h : A -> B -> A) (f1 f2 f : X -> B)
    (l : list X) :
  (forall x m, h (h m (f1 x)) (f2 x) = h m (f x)) ->
  forall a,
    zip_with h (zip_with h a (map f1 l)) (map f2 l) = zip_with h a (map f l).
Proof.
  intros Hh. induction l as [|x l IH]; intros [|m a]; simpl;
    try reflexivity.
  now rewrite Hh, IH.
Qed.

Lemma iadd_comm_r (m x y : matrix) :
  iadd (iadd m x) y = iadd (iadd m y) x.
Proof.
  unfold iadd. apply zip_with_comm_r. intros r r1 r2.
  apply zip_with_comm_r. intros a b c. cbv beta.
  rewrite !wrap64_add_l. apply (f_equal wrap64). lia.
Qed.

Lemma iadd_comm (x y : matrix) : iadd x y = iadd y x.
Proof.
  unfold iadd. apply zip_with_comm. intros r1 r2.
  apply zip_with_comm. intros a b. cbv beta. apply (f_equal wrap64). lia.
Qed.

Lemma cell_count_app (labels : list Z) (a b : list (float * float))
    (i j : nat) :
  cell_count labels (a ++ b) i j
  = (cell_count labels a i j + cell_count labels b i j)%Z.
Proof.
  unfold cell_count, len. rewrite filter_app, length_app. lia.
Qed.

Lemma cell_count_perm (labels : list Z) (a b : list (float * float))
    (i j : nat) :
  Permutation a b -> cell_count labels a i j = cell_count labels b i j.
Proof.
  intros H. unfold cell_count, len. f_equal.
  induction H as [|e l l' H IH|e e' l|l l' l'' H IH H' IH']; simpl.
  - reflexivity.
  - destruct (_ && _); simpl; congruence.
  - do 2 destruct (_ && _); reflexivity.
  - congruence.
Qed.

Lemma count_matrix_perm (labels : list Z) (a b : list (float * float)) :
  Permutation a b -> count_matrix labels a = count_matrix labels b.
Proof.
  intros H. unfold count_matrix.
  apply map_ext. intros i. apply map_ext. intros j.
  now rewrite (cell_count_perm labels i j H).
Qed.

Lemma iadd_count (labels : list Z) (m : matrix) (a b : list (float * float)) :
  iadd (iadd m (count_matrix labels a)) (count_matrix labels b)
  = iadd m (count_matrix labels (a ++ b)).
Proof.
  unfold iadd, count_matrix. apply zip_with_map_fuse. intros i r.
  apply zip_with_map_fuse. intros j x. cbv beta.
  rewrite cell_count_app, wrap64_add_l, !wrap64_add_r.
  replace (x + wrap64 (cell_count labels a i j) + cell_count labels b i j)%Z
    with (wrap64 (cell_count labels a i j) + (x + cell_count labels b i j))%Z
    by lia.
  rewrite wrap64_add_l. apply (f_equal wrap64). lia.
Qed.

Lemma map_const_seq {A : Type} (c : A) (s n : nat) :
  map (fun _ => c) (seq s n) = repeat c n.
Proof.
  revert s. induction n as [|n IH]; intros s; simpl; [reflexivity|].
  now rewrite IH.
Qed.

Lemma count_matrix_nil (labels : list Z) :
  count_matrix labels [] = zeros (length labels) (length labels).
Proof.
  unfold count_matrix, zeros.
  rewrite <- (map_const_seq (repeat 0%Z (length labels)) 0 (length labels)).
  apply map_ext. intros i.
  rewrite <- (map_const_seq 0%Z 0 (length labels)).
  apply map_ext. intros j. reflexivity.
Qed.

(** When [confusion_matrix] returns, and what. *)
Lemma confusion_matrix_ok (labels : list Z) (y_true y_pred : list float)
    (m : matrix) :
  confusion_matrix y_true y_pred labels = Ok m <->
  accepted labels y_true y_pred
  /\ m = count_matrix labels (combine y_true y_pred).
Proof.
  unfold confusion_matrix, accepted.
  destruct (Nat.eqb_spec (length y_true) (length y_pred)) as [El|El];
    cbn [negb]; [|split; [discriminate|tauto]].
  destruct (forallb is_class_label y_true) eqn:Et; cbn [andb negb];
    [|split; [discriminate|intros [(_ & H & _) _]; discriminate]].
  destruct (forallb is_class_label y_pred) eqn:Ep; cbn [negb];
    [|split; [discriminate|intros [(_ & _ & H & _) _]; discriminate]].
  destruct labels as [|l0 labels].
  { cbn. split; [discriminate|]. intros [(_ & _ & _ & H & _) _]. congruence. }
  cbn [length Nat.eqb].
  destruct y_true as [|t0 y_true].
  { cbn [length Nat.eqb combine]. rewrite count_matrix_nil.
    split.
    - intros H. inversion H. repeat split; auto. discriminate.
    - intros [_ ->]. reflexivity. }
  cbn [length Nat.eqb].
  destruct (existsb _ (t0 :: y_true)) eqn:Ex; cbn [negb].
  - split.
    + intros H. inversion H. repeat split; auto. discriminate.
    + intros [_ ->]. reflexivity.
  - split; [discriminate|]. intros [(_ & _ & _ & _ & [H|H]) _]; discriminate.
Qed.

Lemma confusion_matrix_accepted (labels : list Z)
    (y_true y_pred : list float) :
  accepted labels y_true y_pred ->
  confusion_matrix y_true y_pred labels
  = Ok (count_matrix labels (combine y_true y_pred)).
Proof. intros H. apply confusion_matrix_ok. auto. Qed.

Lemma confusion_matrix_raises (labels : list Z)
    (y_true y_pred : list float) (e : exn) :
  confusion_matrix y_true y_pred labels = Raise e -> e = ValueError.
Proof.
  unfold confusion_matrix.
  repeat match goal with
         | |- context [if ?b then _ else _] => destruct b
         end; congruence.
Qed.

End ConfusionCounting.

(** ** [add_sample]: one call *)

Unset Implicit Arguments.

Section AddSample.

Import Confusion.

Lemma add_sample_skip (self : ConfusionMatrix) (c : Z)
    (v : list float * list float) (d : Data) :
  contains (keys (_categories self)) c = false ->
  add_sample self ((c, v) :: d) = add_sample self d.
Proof. intros H. cbn [add_sample]. now rewrite H. Qed.

Lemma add_sample_step (self : ConfusionMatrix) (c : Z)
    (t p : list float) (d : Data) (m : matrix) :
  contains (keys (_categories self)) c = true ->
  confusion_matrix t (nan_to_num p (-1)) (keys (_categories self)) = Ok m ->
  add_sample self ((c, (t, p)) :: d) = add_sample (add_matrix self m) d.
Proof. intros H Hm. cbn [add_sample fst snd]. now rewrite H, Hm. Qed.

Lemma add_sample_fail (self : ConfusionMatrix) (c : Z)
    (t p : list float) (d : Data) (e : exn) :
  contains (keys (_categories self)) c = true ->
  confusion_matrix t (nan_to_num p (-1)) (keys (_categories self))
  = Raise e ->
  add_sample self ((c, (t, p)) :: d) = (self, Raise e).
Proof. intros H Hm. cbn [add_sample fst snd]. now rewrite H, Hm. Qed.

Lemma add_sample_categories (self : ConfusionMatrix) (d : Data) :
  _categories (fst (add_sample self d)) = _categories self.
Proof.
  revert self. induction d as [|[c [t p]] d IH]; intros self.
  - reflexivity.
  - destruct (contains (keys (_categories self)) c) eqn:Ec.
    + destruct (confusion_matrix t (nan_to_num p (-1))
                  (keys (_categories self))) as [m|e] eqn:Em.
      * rewrite (add_sample_step _ _ _ _ d _ Ec Em). now rewrite IH.
      * now rewrite (add_sample_fail _ _ _ _ d _ Ec Em).
    + rewrite add_sample_skip by exact Ec. apply IH.
Qed.

(** Whether a call succeeds depends on the registry and the data, not on
    the counts already held. *)
Lemma add_sample_outcome (self self' : ConfusionMatrix) (d : Data) :
  _categories self = _categories self' ->
  snd (add_sample self d) = snd (add_sample self' d).
Proof.
  revert self self'. induction d as [|[c [t p]] d IH]; intros self self' E.
  - reflexivity.
  - cbn [add_sample fst snd]. rewrite <- E.
    destruct (contains (keys (_categories self)) c); cbn [negb].
    + destruct (confusion_matrix t (nan_to_num p (-1))
                  (keys (_categories self))) as [m|e]; [|reflexivity].
      apply IH. reflexivity.
    + apply IH. exact E.
Qed.

(** Counts added before a call can as well be added after it. *)
Lemma add_sample_shift (x : matrix) (self : ConfusionMatrix) (d : Data) :
  add_sample (add_matrix self x) d
  = (add_matrix (fst (add_sample self d)) x, snd (add_sample self d)).
Proof.
  revert self. induction d as [|[c [t p]] d IH]; intros self.
  - reflexivity.
  - cbn [add_sample fst snd add_matrix _categories _confusion_matrix].
    destruct (contains (keys (_categories self)) c); cbn [negb].
    + destruct (confusion_matrix t (nan_to_num p (-1))
                  (keys (_categories self))) as [m|e]; [|reflexivity].
      rewrite iadd_comm_r. apply (IH (add_matrix self m)).
    + apply IH.
Qed.

End AddSample.

(** ** [add_sample]: partitions of the data *)

Section Partition.

Import Confusion.

Lemma in_combine_exists_r {A B : Type} (l : list A) (l' : list B) (x : A) :
  length l = length l' -> In x l -> exists y, In (x, y) (combine l l').
Proof.
  revert l'. induction l as [|a l IH]; intros [|b l'] Hlen Hin;
    simpl in *; try discriminate; try contradiction.
  destruct Hin as [->|Hin]; [eauto|].
  destruct (IH l' ltac:(lia) Hin) as [y Hy]. eauto.
Qed.

Lemma in_combine_exists_l {A B : Type} (l : list A) (l' : list B) (y : B) :
  length l = length l' -> In y l' -> exists x, In (x, y) (combine l l').
Proof.
  revert l'. induction l as [|a l IH]; intros [|b l'] Hlen Hin;
    simpl in *; try discriminate; try contradiction.
  destruct Hin as [->|Hin]; [eauto|].
  destruct (IH l' ltac:(lia) Hin) as [x Hx]. eauto.
Qed.

Lemma combine_map_r {A B C : Type} (f : B -> C) (l : list A) (l' : list B) :
  combine l (map f l') = map (fun ab => (fst ab, f (snd ab))) (combine l l').
Proof.
  revert l'. induction l as [|a l IH]; intros [|b l']; simpl;
    try reflexivity.
  now rewrite IH.
Qed.

Lemma split_pairs_nan_to_num (t p t1 p1 t2 p2 : list float) :
  Permutation (combine t p) (combine t1 p1 ++ combine t2 p2) ->
  Permutation (combine t (nan_to_num p (-1)))
              (combine t1 (nan_to_num p1 (-1))
               ++ combine t2 (nan_to_num p2 (-1))).
Proof.
  intros H. unfold nan_to_num. rewrite !combine_map_r, <- map_app.
  now apply Permutation_map.
Qed.

(** If both parts of a group are accepted, so is the whole group. *)
Lemma accepted_whole (labels : list Z) (t p t1 p1 t2 p2 : list float) :
  length t = length p ->
  Permutation (combine t p) (combine t1 p1 ++ combine t2 p2) ->
  accepted labels t1 (nan_to_num p1 (-1)) ->
  accepted labels t2 (nan_to_num p2 (-1)) ->
  accepted labels t (nan_to_num p (-1)).
Proof.
  intros Hlen Hperm (Hl1 & Ht1 & Hp1 & Hne & Hx1) (Hl2 & Ht2 & Hp2 & _ & Hx2).
  unfold nan_to_num in *. rewrite length_map in Hl1, Hl2.
  rewrite forallb_forall in Ht1, Ht2, Hp1, Hp2.
  assert (Hpart : forall x y, In (x, y) (combine t p) ->
            (In x t1 /\ In y p1) \/ (In x t2 /\ In y p2)).
  { intros x y Hin. apply (Permutation_in _ Hperm) in Hin.
    apply in_app_or in Hin. destruct Hin as [Hin|Hin]; [left|right];
      split; eauto using in_combine_l, in_combine_r. }
  assert (Hback : forall x y,
            In (x, y) (combine t1 p1) \/ In (x, y) (combine t2 p2) ->
            In x t).
  { intros x y Hin. apply in_combine_l with (l' := p) (y := y).
    apply (Permutation_in _ (Permutation_sym Hperm)).
    apply in_or_app. exact Hin. }
  repeat split.
  - now rewrite length_map.
  - apply forallb_forall. intros x Hx.
    destruct (in_combine_exists_r t p x Hlen Hx) as [y Hy].
    destruct (Hpart x y Hy) as [[H _]|[H _]]; auto.
  - apply forallb_forall. intros z Hz. apply in_map_iff in Hz.
    destruct Hz as (y & <- & Hy).
    destruct (in_combine_exists_l t p y Hlen Hy) as [x Hx].
    destruct (Hpart x y Hx) as [[_ H]|[_ H]];
      [apply Hp1|apply Hp2]; now apply in_map.
  - exact Hne.
  - destruct t as [|x0 t]; [now left|right].
    assert (Hwit : exists x, In x (x0 :: t)
              /\ existsb (label_eqb x) labels = true).
    { destruct p as [|y0 p]; [discriminate|].
      assert (Hin : In (x0, y0) (combine t1 p1 ++ combine t2 p2))
        by (apply (Permutation_in _ Hperm); now left).
      apply in_app_or in Hin. destruct Hin as [Hin|Hin].
      - destruct Hx1 as [->|Hx1]; [destruct Hin|].
        apply existsb_exists in Hx1. destruct Hx1 as (x & Hx & Hreg).
        destruct (in_combine_exists_r t1 p1 x Hl1 Hx) as [y Hy].
        exists x. split; [|exact Hreg]. apply (Hback x y). now left.
      - destruct Hx2 as [->|Hx2]; [destruct Hin|].
        apply existsb_exists in Hx2. destruct Hx2 as (x & Hx & Hreg).
        destruct (in_combine_exists_r t2 p2 x Hl2 Hx) as [y Hy].
        exists x. split; [|exact Hreg]. apply (Hback x y). now right. }
    destruct Hwit as (x & Hx & Hreg).
    apply existsb_exists. eauto.
Qed.

Lemma split_sym (d d1 d2 : Data) : split d d1 d2 -> split d d2 d1.
Proof.
  induction 1 as [|c t p t1 p1 t2 p2 d d1 d2 Hlen Hperm _ IH];
    constructor; auto.
  eapply Permutation_trans; [exact Hperm|apply Permutation_app_comm].
Qed.

Lemma add_sample_ok_inv (self s : ConfusionMatrix) (c : Z)
    (t p : list float) (d : Data) :
  contains (keys (_categories self)) c = true ->
  add_sample self ((c, (t, p)) :: d) = (s, Ok tt) ->
  accepted (keys (_categories self)) t (nan_to_num p (-1))
  /\ add_sample
       (add_matrix self (count_matrix (keys (_categories self))
                           (combine t (nan_to_num p (-1))))) d
     = (s, Ok tt).
Proof.
  intros Hc H.
  destruct (confusion_matrix t (nan_to_num p (-1))
              (keys (_categories self))) as [m|e] eqn:Em.
  - rewrite (add_sample_step _ _ _ _ d _ Hc Em) in H.
    apply confusion_matrix_ok in Em. destruct Em as [Hacc ->]. auto.
  - rewrite (add_sample_fail _ _ _ _ d _ Hc Em) in H. discriminate.
Qed.

(** Accumulating the two parts one after the other gives what one call on
    the whole gives. *)
Lemma add_sample_split (d d1 d2 : Data) :
  split d d1 d2 ->
  forall self s1 s2,
    add_sample self d1 = (s1, Ok tt) ->
    add_sample s1 d2 = (s2, Ok tt) ->
    add_sample self d = (s2, Ok tt).
Proof.
  induction 1 as [|c t p t1 p1 t2 p2 d d1 d2 Hlen Hperm _ IH];
    intros self s1 s2 H1 H2.
  - cbn in H1. inversion H1; subst s1. exact H2.
  - assert (Hcat : _categories s1 = _categories self).
    { pose proof (add_sample_categories self ((c, (t1, p1)) :: d1)) as E.
      now rewrite H1 in E. }
    destruct (contains (keys (_categories self)) c) eqn:Hc.
    + apply add_sample_ok_inv in H1; [|exact Hc].
      destruct H1 as [Hacc1 H1].
      apply add_sample_ok_inv in H2; [|now rewrite Hcat].
      rewrite Hcat in H2. destruct H2 as [Hacc2 H2].
      set (labels := keys (_categories self)) in *.
      set (e1 := combine t1 (nan_to_num p1 (-1))) in *.
      set (e2 := combine t2 (nan_to_num p2 (-1))) in *.
      pose proof (accepted_whole labels _ _ _ _ _ _ Hlen Hperm Hacc1 Hacc2)
        as Hacc.
      rewrite (add_sample_step self c t p d _ Hc
                 (confusion_matrix_accepted Hacc)).
      apply IH with (s1 := add_matrix s1 (count_matrix labels e2)).
      * replace (add_matrix self (count_matrix labels
                   (combine t (nan_to_num p (-1)))))
          with (add_matrix (add_matrix self (count_matrix labels e1))
                  (count_matrix labels e2)).
        -- rewrite add_sample_shift, H1. reflexivity.
        -- unfold add_matrix. cbn [_categories _confusion_matrix].
           rewrite iadd_count. f_equal. f_equal.
           symmetry. apply count_matrix_perm.
           now apply split_pairs_nan_to_num.
      * exact H2.
    + rewrite add_sample_skip in H1 by exact Hc.
      rewrite add_sample_skip in H2 by (now rewrite Hcat).
      rewrite add_sample_skip by exact Hc.
      now apply IH with s1.
Qed.

End Partition.

(** ** [add_sample]: shape and range of the matrix *)

Section WellFormed.

Import Confusion.

Lemma zip_with_length {A B C : Type} (h : A -> B -> C) (a : list A)
    (b : list B) :
  length a = length b -> length (zip_with h a b) = length a.
Proof.
  revert b. induction a as [|x a IH]; intros [|y b] H; simpl in *;
    try discriminate; [reflexivity|].
  now rewrite IH by lia.
Qed.

Lemma nth_zip_with {A B C : Type} (h : A -> B -> C) (a : list A)
    (b : list B) (i : nat) (da : A) (db : B) (dc : C) :
  (i < length a)%nat -> (i < length b)%nat ->
  nth i (zip_with h a b) dc = h (nth i a da) (nth i b db).
Proof.
  revert b i. induction a as [|x a IH]; intros [|y b] i Ha Hb;
    simpl in *; try lia.
  destruct i as [|i]; [reflexivity|]. apply IH; lia.
Qed.

Lemma zip_with_repeat_l {A B : Type} (h : A -> B -> B) (z : A) (l : list B) :
  Forall (fun x => h z x = x) l -> zip_with h (repeat z (length l)) l = l.
Proof.
  induction 1 as [|x l Hx _ IH]; simpl; [reflexivity|].
  now rewrite Hx, IH.
Qed.

Lemma count_matrix_shape (labels : list Z) (pairs : list (float * float)) :
  length (count_matrix labels pairs) = length labels
  /\ Forall (fun r => length r = length labels /\ Forall int64 r)
            (count_matrix labels pairs).
Proof.
  unfold count_matrix. split.
  - now rewrite length_map, length_seq.
  - apply Forall_forall. intros r Hr. apply in_map_iff in Hr.
    destruct Hr as (i & <- & _). split.
    + now rewrite length_map, length_seq.
    + apply Forall_forall. intros z Hz. apply in_map_iff in Hz.
      destruct Hz as (j & <- & _). apply wrap64_int64.
Qed.

Lemma keys_length (d : dict) : length (keys d) = length d.
Proof. apply length_map. Qed.

Lemma iadd_well_formed (self : ConfusionMatrix)
    (pairs : list (float * float)) :
  well_formed self ->
  well_formed
    (add_matrix self (count_matrix (keys (_categories self)) pairs)).
Proof.
  intros [Hlen Hrows]. unfold well_formed, add_matrix.
  cbn [_categories _confusion_matrix].
  destruct (count_matrix_shape (keys (_categories self)) pairs)
    as [Clen Crows].
  rewrite keys_length in Clen, Crows.
  set (n := length (_categories self)) in *.
  set (m := _confusion_matrix self) in *.
  set (cm := count_matrix (keys (_categories self)) pairs) in *.
  clearbody m cm n. unfold iadd. split.
  - rewrite zip_with_length; congruence.
  - assert (Hl : length m = length cm) by congruence. clear Hlen Clen.
    revert cm Hl Crows.
    induction Hrows as [|r m [Hr _] _ IH]; intros [|c cm] Hl Crows;
      simpl in *; try discriminate; constructor.
    + inversion Crows as [|? ? [Hc _] _]; subst. split.
      * rewrite zip_with_length; congruence.
      * clear. revert c. induction r as [|x r IHr]; intros [|y c]; simpl;
          constructor; auto using wrap64_int64.
    + apply IH; [lia|]. now inversion Crows.
Qed.

Lemma add_sample_well_formed (self : ConfusionMatrix) (d : Data) :
  well_formed self -> well_formed (fst (add_sample self d)).
Proof.
  revert self. induction d as [|[c [t p]] d IH]; intros self Hwf.
  - exact Hwf.
  - destruct (contains (keys (_categories self)) c) eqn:Hc.
    + destruct (confusion_matrix t (nan_to_num p (-1))
                  (keys (_categories self))) as [m|e] eqn:Em.
      * rewrite (add_sample_step _ _ _ _ d _ Hc Em). apply IH.
        apply confusion_matrix_ok in Em. destruct Em as [_ ->].
        now apply iadd_well_formed.
      * now rewrite (add_sample_fail _ _ _ _ d _ Hc Em).
    + rewrite add_sample_skip by exact Hc. now apply IH.
Qed.

Lemma init_well_formed (categories : dict) : well_formed (__init__ categories).
Proof.
  unfold well_formed, __init__, zeros. cbn [_categories _confusion_matrix].
  split; [apply repeat_length|].
  apply Forall_forall. intros r Hr. apply repeat_spec in Hr. subst r.
  split; [apply repeat_length|].
  apply Forall_forall. intros z Hz. apply repeat_spec in Hz. subst z.
  unfold int64. lia.
Qed.

(** Adding a well-formed matrix into a fresh one gives that matrix. *)
Lemma iadd_zeros_l (n : nat) (m : matrix) :
  length m = n ->
  Forall (fun r => length r = n /\ Forall int64 r) m ->
  iadd (zeros n n) m = m.
Proof.
  intros Hlen Hrows. unfold iadd, zeros. rewrite <- Hlen at 2.
  apply zip_with_repeat_l.
  eapply Forall_impl; [|exact Hrows]. intros r [Hr Hint]. cbv beta.
  rewrite <- Hr. apply zip_with_repeat_l.
  eapply Forall_impl; [|exact Hint]. intros z Hz. cbv beta.
  now apply wrap64_id.
Qed.

(** What a call does, by the groups it is handed. *)
Lemma add_matrix_nothing (self : ConfusionMatrix) :
  well_formed self ->
  add_matrix self (count_matrix (keys (_categories self)) []) = self.
Proof.
  intros [Hlen Hrows]. unfold add_matrix.
  rewrite count_matrix_nil, keys_length, iadd_comm.
  rewrite iadd_zeros_l by assumption. now destruct self.
Qed.

Lemma add_sample_accepts (data : Data) :
  forall self,
    well_formed self ->
    Forall (group_accepted (keys (_categories self))) data ->
    add_sample self data
    = (add_matrix self
         (count_matrix (keys (_categories self))
            (accepted_pairs (keys (_categories self)) data)), Ok tt).
Proof.
  induction data as [|[c [t p]] data IH]; intros self Hwf Hall.
  - cbn [add_sample accepted_pairs]. now rewrite add_matrix_nothing.
  - inversion Hall as [|? ? Hg Hrest]; subst. cbn [accepted_pairs fst snd].
    destruct (contains (keys (_categories self)) c) eqn:Hc.
    + specialize (Hg Hc). cbn [fst snd] in Hg.
      rewrite (add_sample_step self c t p data _ Hc
                 (@confusion_matrix_accepted _ _ _ Hg)).
      rewrite IH.
      * unfold add_matrix. cbn [_categories _confusion_matrix].
        now rewrite iadd_count.
      * now apply iadd_well_formed.
      * exact Hrest.
    + rewrite add_sample_skip by exact Hc. now apply IH.
Qed.

Lemma add_sample_refuses (data : Data) :
  forall self,
    ~ Forall (group_accepted (keys (_categories self))) data ->
    snd (add_sample self data) = Raise ValueError.
Proof.
  induction data as [|[c [t p]] data IH]; intros self Hnot.
  - exfalso. apply Hnot. constructor.
  - destruct (contains (keys (_categories self)) c) eqn:Hc.
    + destruct (confusion_matrix t (nan_to_num p (-1))
                  (keys (_categories self))) as [m|e] eqn:Em.
      * rewrite (add_sample_step self c t p data m Hc Em).
        apply IH. cbn [add_matrix _categories]. intro Hrest.
        apply Hnot. constructor; [|exact Hrest].
        intros _. cbn [fst snd]. now apply confusion_matrix_ok in Em.
      * rewrite (add_sample_fail self c t p data e Hc Em). cbn [snd].
        now rewrite (@confusion_matrix_raises _ _ _ e Em).
    + rewrite add_sample_skip by exact Hc. apply IH. intro Hrest.
      apply Hnot. constructor; [|exact Hrest].
      intros Hc'. cbn [fst] in Hc'. congruence.
Qed.

Lemma add_sample_returned (data : Data) :
  forall self s,
    add_sample self data = (s, Ok tt) ->
    Forall (group_accepted (keys (_categories self))) data.
Proof.
  induction data as [|[c [t p]] data IH]; intros self s H; [constructor|].
  destruct (contains (keys (_categories self)) c) eqn:Hc.
  - destruct (add_sample_ok_inv self s c t p data Hc H) as [Hacc Hrest].
    constructor; [intros _; exact Hacc|].
    exact (IH _ _ Hrest).
  - rewrite add_sample_skip in H by exact Hc.
    constructor; [|exact (IH _ _ H)].
    intros Hc'. cbn [fst] in Hc'. congruence.
Qed.

End WellFormed.

(** ** [add_sample]: the claims on accumulation *)

Section Accumulation.

Import Confusion.

(** C6, as stated, fails for some partitions: the events with true labels
    0 and 5 (5 is not registered) are accepted in one call, which drops
    the second; split into two calls, the part that holds only the event
    with true label 5 raises [ValueError]. *)
Lemma partition_may_raise :
  split [(0%Z, ([Fin 0; Fin 5], [Fin 0; Fin 0]))]
        [(0%Z, ([Fin 0], [Fin 0]))] [(0%Z, ([Fin 5], [Fin 0]))]
  /\ snd (add_sample (__init__ two_categories)
                     [(0%Z, ([Fin 0; Fin 5], [Fin 0; Fin 0]))]) = Ok tt
  /\ snd (add_sample
            (fst (add_sample (__init__ two_categories)
                             [(0%Z, ([Fin 0], [Fin 0]))]))
            [(0%Z, ([Fin 5], [Fin 0]))]) = Raise ValueError
  /\ snd (add_sample (__init__ two_categories) [(0%Z, ([Fin 5], [Fin 0]))])
     = Raise ValueError.
Proof.
  split; [|repeat split; reflexivity].
  constructor; [reflexivity| |constructor].
  apply Permutation_refl.
Qed.

(** C6 (amended).  For every event set and every partition of it into
    two parts whose accumulation succeeds: accumulating the parts into the
    same accumulator, in either order, yields exactly the state that one
    call on the whole set yields; and accumulating them into two fresh
    accumulators of one registry and adding the two matrices element-wise
    yields the matrix of one call on the whole set. *)
Theorem accumulation_of_partition (d d1 d2 : Data) :
  split d d1 d2 ->
  (forall self s1 s2,
     add_sample self d1 = (s1, Ok tt) ->
     add_sample s1 d2 = (s2, Ok tt) ->
     add_sample self d = (s2, Ok tt)
     /\ exists s1', add_sample self d2 = (s1', Ok tt)
                    /\ add_sample s1' d1 = (s2, Ok tt))
  /\ (forall categories a1 a2,
        add_sample (__init__ categories) d1 = (a1, Ok tt) ->
        add_sample (__init__ categories) d2 = (a2, Ok tt) ->
        exists a,
          add_sample (__init__ categories) d = (a, Ok tt)
          /\ _confusion_matrix a
             = iadd (_confusion_matrix a1) (_confusion_matrix a2)).
Proof.
  intros Hsplit. split.
  - intros self s1 s2 H1 H2.
    pose proof (add_sample_split d d1 d2 Hsplit self s1 s2 H1 H2) as Hwhole.
    split; [exact Hwhole|].
    assert (Hcat : _categories s1 = _categories self).
    { pose proof (add_sample_categories self d1) as E. now rewrite H1 in E. }
    destruct (add_sample self d2) as [s1' r] eqn:E2.
    assert (Hr : r = Ok tt).
    { pose proof (add_sample_outcome self s1 d2 (eq_sym Hcat)) as E.
      now rewrite E2, H2 in E. }
    subst r.
    assert (Hcat' : _categories s1' = _categories self).
    { pose proof (add_sample_categories self d2) as E. now rewrite E2 in E. }
    destruct (add_sample s1' d1) as [s2' r] eqn:E1.
    assert (Hr : r = Ok tt).
    { pose proof (add_sample_outcome s1' self d1 Hcat') as E.
      now rewrite E1, H1 in E. }
    subst r.
    pose proof (add_sample_split d d2 d1 (split_sym _ _ _ Hsplit)
                  self s1' s2' E2 E1) as Hwhole'.
    exists s1'. split; [reflexivity|]. congruence.
  - intros categories a1 a2 H1 H2.
    assert (Hwf : well_formed a1).
    { pose proof (add_sample_well_formed (__init__ categories) d1
                    (init_well_formed categories)) as H.
      now rewrite H1 in H. }
    assert (Hcat : _categories a1 = _categories (__init__ categories)).
    { pose proof (add_sample_categories (__init__ categories) d1) as E.
      now rewrite H1 in E. }
    assert (Ea1 : add_matrix (__init__ categories) (_confusion_matrix a1) = a1).
    { destruct a1 as [cats m]. destruct Hwf as [Hlen Hrows].
      cbn [_categories _confusion_matrix] in *. subst cats.
      unfold add_matrix. f_equal.
      cbn [__init__ _categories _confusion_matrix] in *.
      now apply iadd_zeros_l. }
    pose proof (add_sample_shift (_confusion_matrix a1)
                  (__init__ categories) d2) as Hshift.
    rewrite Ea1, H2 in Hshift. cbn [fst snd] in Hshift.
    exists (add_matrix a2 (_confusion_matrix a1)). split.
    + exact (add_sample_split d d1 d2 Hsplit _ _ _ H1 Hshift).
    + cbn [add_matrix _confusion_matrix]. apply iadd_comm.
Qed.

Lemma accumulation_of_partition_witness :
  exists a,
    add_sample (__init__ two_categories)
      [(0%Z, ([Fin 0; Fin 1; Fin 0], [Fin 0; NaN; Fin 1]))] = (a, Ok tt)
    /\ _confusion_matrix a
       = iadd [[1; 0; 0]; [0; 0; 0]; [0; 0; 0]]%Z
              [[0; 1; 0]; [0; 0; 1]; [0; 0; 0]]%Z.
Proof.
  assert (Hsplit :
    split [(0%Z, ([Fin 0; Fin 1; Fin 0], [Fin 0; NaN; Fin 1]))]
          [(0%Z, ([Fin 0], [Fin 0]))]
          [(0%Z, ([Fin 1; Fin 0], [NaN; Fin 1]))]).
  { constructor; [reflexivity| |constructor]. apply Permutation_refl. }
  destruct (accumulation_of_partition _ _ _ Hsplit) as [_ H].
  exact (H two_categories _ _ eq_refl eq_refl).
Defined.

End Accumulation.

(** ** [add_sample]: labels that are not registered *)

Section Labels.

Import Confusion.

Lemma index_from_unregistered (labels : list Z) (x : float) (i found : nat) :
  existsb (label_eqb x) labels = false ->
  index_from i labels x found = found.
Proof.
  revert i found. induction labels as [|y labels IH]; intros i found H.
  - reflexivity.
  - cbn [existsb] in H. apply orb_false_iff in H. destruct H as [Hy H].
    cbn [index_from]. rewrite Hy. now apply IH.
Qed.

Lemma index_from_range (labels : list Z) (x : float) (i found : nat) :
  index_from i labels x found = found
  \/ (i <= index_from i labels x found < i + length labels)%nat.
Proof.
  revert i found. induction labels as [|y labels IH]; intros i found.
  - now left.
  - cbn [index_from length].
    destruct (label_eqb x y).
    + right. destruct (IH (S i) i) as [->|H]; lia.
    + destruct (IH (S i) found) as [->|H]; [now left|right; lia].
Qed.

Lemma index_from_registered (labels : list Z) (x : float) (i found : nat) :
  existsb (label_eqb x) labels = true ->
  (i <= index_from i labels x found < i + length labels)%nat.
Proof.
  revert i found. induction labels as [|y labels IH]; intros i found H.
  - discriminate.
  - cbn [existsb] in H. cbn [index_from length].
    destruct (label_eqb x y).
    + destruct (index_from_range labels x (S i) i) as [->|Hr]; lia.
    + specialize (IH (S i) found H). lia.
Qed.

Lemma label_to_ind_unregistered (labels : list Z) (x : float) :
  existsb (label_eqb x) labels = false ->
  label_to_ind labels x = (length labels + 1)%nat.
Proof. apply index_from_unregistered. Qed.

Lemma label_to_ind_registered (labels : list Z) (x : float) :
  existsb (label_eqb x) labels = true ->
  (label_to_ind labels x < length labels)%nat.
Proof.
  intros H.
  pose proof (index_from_registered labels x 0 (length labels + 1) H) as Hr.
  unfold label_to_ind. lia.
Qed.

Lemma label_eqb_of_int (z : Z) : label_eqb (of_int z) z = true.
Proof. apply Qeq_bool_iff. reflexivity. Qed.

Lemma registered_of_int (labels : list Z) (z : Z) :
  In z labels -> existsb (label_eqb (of_int z)) labels = true.
Proof.
  intros H. apply existsb_exists. exists z. split; [exact H|].
  apply label_eqb_of_int.
Qed.

Lemma cell_count_cons (labels : list Z) (e : float * float)
    (pairs : list (float * float)) (i j : nat) :
  cell_count labels (e :: pairs) i j
  = ((if (label_to_ind labels (fst e) =? i)%nat
         && (label_to_ind labels (snd e) =? j)%nat then 1 else 0)
     + cell_count labels pairs i j)%Z.
Proof.
  unfold cell_count, len. cbn [filter].
  destruct (_ && _); cbn [length]; lia.
Qed.

(** An event whose true label is not registered adds nothing to the
    counting matrix. *)
Lemma count_matrix_unregistered_true (labels : list Z) (t p : float)
    (pairs : list (float * float)) :
  existsb (label_eqb t) labels = false ->
  count_matrix labels ((t, p) :: pairs) = count_matrix labels pairs.
Proof.
  intros H. unfold count_matrix.
  apply map_ext_in. intros i Hi. apply in_seq in Hi.
  apply map_ext. intros j. rewrite cell_count_cons. cbn [fst snd].
  rewrite (label_to_ind_unregistered labels t H).
  replace (length labels + 1 =? i)%nat with false
    by (symmetry; apply Nat.eqb_neq; lia).
  reflexivity.
Qed.

Lemma confusion_matrix_drops_unregistered (labels : list Z) (t p : float)
    (ts ps : list float) :
  existsb (label_eqb t) labels = false ->
  is_class_label t = true -> is_class_label p = true -> ts <> [] ->
  confusion_matrix (t :: ts) (p :: ps) labels = confusion_matrix ts ps labels.
Proof.
  intros Hreg Ht Hp Hne. unfold confusion_matrix.
  cbn [length Nat.eqb forallb existsb combine]. rewrite Ht, Hp, Hreg.
  cbn [andb orb].
  destruct (negb (length ts =? length ps)%nat); [reflexivity|].
  destruct (negb (forallb is_class_label ts && forallb is_class_label ps));
    [reflexivity|].
  destruct (length labels =? 0)%nat; [reflexivity|].
  destruct ts as [|t' ts]; [congruence|]. cbn [length Nat.eqb].
  destruct (negb (existsb _ (t' :: ts))); [reflexivity|].
  now rewrite count_matrix_unregistered_true.
Qed.

Lemma add_sample_skips_group (pre post : Data) (c : Z)
    (v : list float * list float) :
  forall self,
    contains (keys (_categories self)) c = false ->
    add_sample self (pre ++ (c, v) :: post) = add_sample self (pre ++ post).
Proof.
  induction pre as [|[c' [t p]] pre IH]; intros self Hc.
  - now apply add_sample_skip.
  - cbn [app add_sample fst snd].
    destruct (contains (keys (_categories self)) c'); cbn [negb].
    + destruct (confusion_matrix t (nan_to_num p (-1))
                  (keys (_categories self))); [|reflexivity].
      now apply IH.
    + now apply IH.
Qed.

(** C7, as stated, fails: accumulation has a failure mode.  In a
    registered group, a lone event whose true label (5) is not registered
    is not skipped: the call raises [ValueError] and the matrix keeps its
    value. *)
Lemma lone_unknown_true_label_raises :
  add_sample (__init__ two_categories) [(0%Z, ([Fin 5], [Fin 0]))]
  = (__init__ two_categories, Raise ValueError).
Proof. reflexivity. Qed.

Lemma combine_app_same {A B : Type} (a1 a2 : list A) (b1 b2 : list B) :
  length a1 = length b1 ->
  combine (a1 ++ a2) (b1 ++ b2) = combine a1 b1 ++ combine a2 b2.
Proof.
  revert b1. induction a1 as [|x a1 IH]; intros [|y b1] H;
    try discriminate H; [reflexivity|].
  cbn [app combine]. f_equal. apply IH. now inversion H.
Qed.

(** An event with an unregistered true label is dropped wherever it
    stands in its group. *)
Lemma confusion_matrix_drops_unregistered_at (labels : list Z)
    (t p : float) (pre_t post_t pre_p post_p : list float) :
  length pre_t = length pre_p ->
  existsb (label_eqb t) labels = false ->
  is_class_label t = true -> is_class_label p = true ->
  pre_t ++ post_t <> [] ->
  confusion_matrix (pre_t ++ t :: post_t) (pre_p ++ p :: post_p) labels
  = confusion_matrix (pre_t ++ post_t) (pre_p ++ post_p) labels.
Proof.
  intros Hlen Hreg Ht Hp Hne. unfold confusion_matrix.
  assert (E1 : (length (pre_t ++ t :: post_t)
                =? length (pre_p ++ p :: post_p))%nat
               = (length (pre_t ++ post_t) =? length (pre_p ++ post_p))%nat).
  { rewrite !length_app. cbn [length].
    destruct (Nat.eqb_spec (length pre_t + length post_t)
                (length pre_p + length post_p));
      [apply Nat.eqb_eq|apply Nat.eqb_neq]; lia. }
  assert (E2 : forallb is_class_label (pre_t ++ t :: post_t)
               = forallb is_class_label (pre_t ++ post_t)).
  { rewrite !forallb_app. cbn [forallb]. now rewrite Ht. }
  assert (E3 : forallb is_class_label (pre_p ++ p :: post_p)
               = forallb is_class_label (pre_p ++ post_p)).
  { rewrite !forallb_app. cbn [forallb]. now rewrite Hp. }
  assert (E4 : existsb (fun t' => existsb (label_eqb t') labels)
                 (pre_t ++ t :: post_t)
               = existsb (fun t' => existsb (label_eqb t') labels)
                   (pre_t ++ post_t)).
  { rewrite !existsb_app. cbn [existsb]. now rewrite Hreg. }
  assert (E5 : (length (pre_t ++ t :: post_t) =? 0)%nat = false).
  { apply Nat.eqb_neq. rewrite length_app. cbn [length]. lia. }
  assert (E6 : (length (pre_t ++ post_t) =? 0)%nat = false).
  { apply Nat.eqb_neq. destruct (pre_t ++ post_t); [congruence|].
    cbn [length]. lia. }
  assert (E7 : count_matrix labels
                 (combine (pre_t ++ t :: post_t) (pre_p ++ p :: post_p))
               = count_matrix labels
                   (combine (pre_t ++ post_t) (pre_p ++ post_p))).
  { rewrite !combine_app_same by exact Hlen. cbn [combine].
    rewrite <- (@count_matrix_perm labels _ _
                  (Permutation_middle (combine pre_t pre_p)
                     (combine post_t post_p) (t, p))).
    now apply count_matrix_unregistered_true. }
  now rewrite E1, E2, E3, E4, E5, E6, E7.
Qed.

(** A group may be replaced, wherever it stands, by one that
    [confusion_matrix] treats alike. *)
Lemma add_sample_same_group (before rest : Data) (c : Z)
    (v v' : list float * list float) :
  forall self,
    confusion_matrix (fst v) (nan_to_num (snd v) (-1))
      (keys (_categories self))
    = confusion_matrix (fst v') (nan_to_num (snd v') (-1))
        (keys (_categories self)) ->
    add_sample self (before ++ (c, v) :: rest)
    = add_sample self (before ++ (c, v') :: rest).
Proof.
  induction before as [|[c' [t p]] before IH]; intros self H.
  - cbn [app add_sample]. now rewrite H.
  - cbn [app add_sample fst snd].
    destruct (contains (keys (_categories self)) c'); cbn [negb].
    + destruct (confusion_matrix t (nan_to_num p (-1))
                  (keys (_categories self))); [|reflexivity].
      now apply IH.
    + now apply IH.
Qed.

Lemma unregistered_group_refused (labels : list Z) (c : Z)
    (ts ps : list float) :
  contains labels c = true -> ts <> [] ->
  existsb (fun t => existsb (label_eqb t) labels) ts = false ->
  ~ group_accepted labels (c, (ts, ps)).
Proof.
  intros Hc Hne Hreg Hacc.
  destruct (Hacc Hc) as (_ & _ & _ & _ & [H|H]); cbn [fst snd] in H;
    congruence.
Qed.

(** C7 (amended).  Accumulation skips every group whose category key is
    not registered, and drops from a registered group, wherever it
    stands, every event whose true label is a class label that is not
    registered and whose predicted label is a class label or NaN, as long
    as the group holds another event: the outcome is the one of the data
    without them.  Accumulation has a failure mode: a registered,
    non-empty group none of whose true labels is registered makes the
    call raise [ValueError], and at the head of the data it leaves the
    matrix as it was. *)
Theorem unknown_true_labels (self : ConfusionMatrix) :
  (forall pre c v post,
     contains (keys (_categories self)) c = false ->
     add_sample self (pre ++ (c, v) :: post) = add_sample self (pre ++ post))
  /\ (forall before c pre_t t post_t pre_p p post_p rest,
        length pre_t = length pre_p ->
        existsb (label_eqb t) (keys (_categories self)) = false ->
        is_class_label t = true ->
        is_class_label (nan_to_num1 (-1) p) = true ->
        pre_t ++ post_t <> [] ->
        add_sample self
          (before ++ (c, (pre_t ++ t :: post_t, pre_p ++ p :: post_p))
                     :: rest)
        = add_sample self
            (before ++ (c, (pre_t ++ post_t, pre_p ++ post_p)) :: rest))
  /\ (forall c ts ps rest,
        contains (keys (_categories self)) c = true ->
        ts <> [] ->
        existsb (fun t => existsb (label_eqb t) (keys (_categories self))) ts
        = false ->
        add_sample self ((c, (ts, ps)) :: rest) = (self, Raise ValueError))
  /\ (forall data c ts ps,
        In (c, (ts, ps)) data ->
        contains (keys (_categories self)) c = true ->
        ts <> [] ->
        existsb (fun t => existsb (label_eqb t) (keys (_categories self))) ts
        = false ->
        snd (add_sample self data) = Raise ValueError).
Proof.
  split; [|split; [|split]].
  - intros pre c v post Hc. now apply add_sample_skips_group.
  - intros before c pre_t t post_t pre_p p post_p rest Hlen Hreg Ht Hp Hne.
    apply add_sample_same_group. cbn [fst snd]. unfold nan_to_num.
    rewrite !map_app. cbn [map].
    apply confusion_matrix_drops_unregistered_at; try assumption.
    now rewrite length_map.
  - intros c ts ps rest Hc Hne Hreg.
    destruct (confusion_matrix ts (nan_to_num ps (-1))
                (keys (_categories self))) as [m|e] eqn:Em.
    + apply confusion_matrix_ok in Em.
      destruct Em as [(_ & _ & _ & _ & [H|H]) _]; congruence.
    + pose proof (@confusion_matrix_raises _ _ _ _ Em) as ->.
      now apply add_sample_fail.
  - intros data c ts ps Hin Hc Hne Hreg.
    apply add_sample_refuses. intro Hall.
    rewrite Forall_forall in Hall.
    exact (unregistered_group_refused _ c ts ps Hc Hne Hreg (Hall _ Hin)).
Qed.

Lemma unknown_true_labels_witness :
  add_sample (__init__ two_categories)
             ([(0%Z, ([Fin 0], [Fin 1]))] ++ (7%Z, ([Fin 0], [Fin 0])) :: [])
  = add_sample (__init__ two_categories) ([(0%Z, ([Fin 0], [Fin 1]))] ++ [])
  /\ add_sample (__init__ two_categories)
       ([(1%Z, ([Fin 1], [Fin 1]))]
          ++ [(0%Z, ([Fin 0] ++ Fin 5 :: [Fin 1], [Fin 0] ++ NaN :: [Fin 0]))])
     = add_sample (__init__ two_categories)
         ([(1%Z, ([Fin 1], [Fin 1]))]
            ++ [(0%Z, ([Fin 0] ++ [Fin 1], [Fin 0] ++ [Fin 0]))])
  /\ add_sample (__init__ two_categories)
                [(1%Z, ([Fin 5; Fin 6], [Fin 1; NaN]))]
     = (__init__ two_categories, Raise ValueError)
  /\ snd (add_sample (__init__ two_categories)
            [(0%Z, ([Fin 0], [Fin 0])); (1%Z, ([Fin 5], [Fin 1]))])
     = Raise ValueError.
Proof.
  destruct (unknown_true_labels (__init__ two_categories))
    as (H1 & H2 & H3 & H4).
  split; [|split; [|split]].
  - apply H1. reflexivity.
  - apply H2; [reflexivity|reflexivity|reflexivity|reflexivity|discriminate].
  - apply H3; [reflexivity|discriminate|reflexivity].
  - apply (H4 _ 1%Z [Fin 5] [Fin 1]);
      [right; now left|reflexivity|discriminate|reflexivity].
Defined.

End Labels.

(** ** [add_sample]: predictions that are missing *)

Section NullColumn.

Import Confusion.

Lemma cell_count_matrix (labels : list Z) (pairs : list (float * float))
    (i j : nat) :
  (i < length labels)%nat -> (j < length labels)%nat ->
  cell (count_matrix labels pairs) i j
  = wrap64 (cell_count labels pairs i j).
Proof.
  intros Hi Hj. unfold cell, count_matrix.
  rewrite (@nth_map_seq _ _ 0 (length labels) i [] Hi). cbn [Nat.add].
  now rewrite (@nth_map_seq _ _ 0 (length labels) j 0%Z Hj).
Qed.

Lemma cell_iadd (m c : matrix) (n i j : nat) :
  length m = n -> Forall (fun r => length r = n) m ->
  length c = n -> Forall (fun r => length r = n) c ->
  (i < n)%nat -> (j < n)%nat ->
  cell (iadd m c) i j = wrap64 (cell m i j + cell c i j).
Proof.
  intros Hm Hmr Hc Hcr Hi Hj. unfold cell, iadd.
  rewrite (nth_zip_with _ m c i [] [] []) by lia.
  rewrite Forall_forall in Hmr, Hcr.
  assert (H1 : length (nth i m []) = n) by (apply Hmr, nth_In; lia).
  assert (H2 : length (nth i c []) = n) by (apply Hcr, nth_In; lia).
  now rewrite (nth_zip_with _ _ _ j 0%Z 0%Z 0%Z) by lia.
Qed.

(** C5, as stated, fails for the infinities: [nan_to_num] turns them
    into the largest and the most negative finite float, not into -1; such
    a value is no class label, the call raises [ValueError] and nothing is
    counted in the null column. *)
Lemma infinite_prediction_not_counted_as_null :
  nan_to_num [PInf; NInf] (-1) = [Fin float_max; Fin (- float_max)]
  /\ ~ float_max == -1 /\ ~ - float_max == -1
  /\ add_sample (__init__ two_categories) [(0%Z, ([Fin 0], [PInf]))]
     = (__init__ two_categories, Raise ValueError)
  /\ add_sample (__init__ two_categories) [(0%Z, ([Fin 0], [NInf]))]
     = (__init__ two_categories, Raise ValueError)
  /\ cell (_confusion_matrix
             (fst (add_sample (__init__ two_categories)
                              [(0%Z, ([Fin 0; Fin 0], [Fin 0; PInf]))])))
          0 2 = 0%Z.
Proof.
  repeat split; try reflexivity; intro H; discriminate H.
Qed.

Lemma index_from_ext (labels : list Z) (x x' : float) (i found : nat) :
  (forall y, label_eqb x y = label_eqb x' y) ->
  index_from i labels x found = index_from i labels x' found.
Proof.
  intros H. revert i found.
  induction labels as [|y labels IH]; intros i found; [reflexivity|].
  cbn [index_from]. rewrite H. apply IH.
Qed.

Lemma index_from_hit (labels : list Z) (x : float) (i found : nat) :
  index_from i labels x found = found
  \/ ((i <= index_from i labels x found < i + length labels)%nat
      /\ label_eqb x (nth (index_from i labels x found - i) labels 0%Z)
         = true).
Proof.
  revert i found. induction labels as [|y labels IH]; intros i found.
  - now left.
  - cbn [index_from length].
    assert (Hnth : forall j, (S i <= j)%nat ->
              nth (j - i) (y :: labels) 0%Z = nth (j - S i) labels 0%Z).
    { intros j Hj. replace (j - i)%nat with (S (j - S i)) by lia.
      reflexivity. }
    destruct (label_eqb x y) eqn:E.
    + right. destruct (IH (S i) i) as [->|[Hr Hl]].
      * split; [lia|]. now rewrite Nat.sub_diag.
      * split; [lia|]. now rewrite Hnth by lia.
    + destruct (IH (S i) found) as [->|[Hr Hl]]; [now left|right].
      split; [lia|]. now rewrite Hnth by lia.
Qed.

Lemma label_eqb_int (z y : Z) : label_eqb (of_int z) y = true -> y = z.
Proof.
  unfold label_eqb, of_int, float_eq. intros H.
  apply Qeq_bool_iff in H. unfold Qeq in H. cbn in H. lia.
Qed.

Lemma Qeq_bool_compat (a a' b : Q) :
  a == a' -> Qeq_bool a b = Qeq_bool a' b.
Proof.
  intros H. destruct (Qeq_bool a b) eqn:E1, (Qeq_bool a' b) eqn:E2;
    try reflexivity.
  - apply Qeq_bool_iff in E1. rewrite H in E1. apply Qeq_bool_iff in E1.
    congruence.
  - apply Qeq_bool_iff in E2. rewrite <- H in E2. apply Qeq_bool_iff in E2.
    congruence.
Qed.

(** A predicted label is looked up at the index of the null key exactly
    when it is NaN or -1. *)
Lemma null_index (labels : list Z) (p : float) :
  In (-1)%Z labels ->
  (label_to_ind labels (nan_to_num1 (-1) p)
   =? label_to_ind labels (of_int (-1)))%nat
  = null_prediction p.
Proof.
  intros Hnull.
  pose proof (label_to_ind_registered labels _ (registered_of_int _ _ Hnull))
    as Hk.
  destruct (null_prediction p) eqn:Ep.
  - apply Nat.eqb_eq. unfold label_to_ind. apply index_from_ext.
    intros y. destruct p as [q| | |]; try discriminate Ep; [|reflexivity].
    cbn [null_prediction] in Ep. apply Qeq_bool_iff in Ep.
    unfold label_eqb, of_int, nan_to_num1, float_eq.
    now apply Qeq_bool_compat.
  - apply Nat.eqb_neq. intro E.
    unfold label_to_ind in *.
    destruct (index_from_hit labels (of_int (-1)) 0 (length labels + 1))
      as [H|[_ H]]; [lia|].
    apply label_eqb_int in H.
    destruct (index_from_hit labels (nan_to_num1 (-1) p) 0
                (length labels + 1)) as [H'|[_ H']]; [lia|].
    rewrite E, H in H'.
    destruct p as [q| | |].
    + assert (Hq : Qeq_bool q (-1) = true) by exact H'.
      cbn [null_prediction] in Ep. congruence.
    + discriminate Ep.
    + vm_compute in H'. discriminate H'.
    + vm_compute in H'. discriminate H'.
Qed.

Lemma filter_map_length {A B : Type} (f : A -> B) (p : B -> bool)
    (l : list A) :
  length (filter p (map f l)) = length (filter (fun x => p (f x)) l).
Proof.
  induction l as [|x l IH]; [reflexivity|]. cbn [map filter].
  destruct (p (f x)); cbn [length]; now rewrite IH.
Qed.

(** The state a call leaves, whatever its outcome: the matrix has grown
    by the counts of the events of the groups that were accepted. *)
Lemma add_sample_counted (data : Data) :
  forall self,
    well_formed self ->
    fst (add_sample self data)
    = add_matrix self
        (count_matrix (keys (_categories self))
           (map (fun e => (fst e, nan_to_num1 (-1) (snd e)))
                (counted_events (keys (_categories self)) data))).
Proof.
  induction data as [|[c [t p]] data IH]; intros self Hwf.
  - cbn [add_sample counted_events map fst].
    now rewrite add_matrix_nothing.
  - cbn [counted_events fst snd].
    destruct (contains (keys (_categories self)) c) eqn:Hc.
    + destruct (confusion_matrix t (nan_to_num p (-1))
                  (keys (_categories self))) as [m|e] eqn:Em.
      * rewrite (add_sample_step self c t p data m Hc Em).
        apply confusion_matrix_ok in Em. destruct Em as [_ ->].
        rewrite IH by now apply iadd_well_formed.
        unfold add_matrix. cbn [_categories _confusion_matrix].
        rewrite iadd_count, map_app. unfold nan_to_num.
        now rewrite combine_map_r.
      * rewrite (add_sample_fail self c t p data e Hc Em).
        cbn [fst map]. now rewrite add_matrix_nothing.
    + rewrite add_sample_skip by exact Hc. now apply IH.
Qed.

Lemma counted_events_class_labels (labels : list Z) (data : Data) :
  Forall (fun e => is_class_label (nan_to_num1 (-1) (snd e)) = true)
         (counted_events labels data).
Proof.
  induction data as [|[c [t p]] data IH]; [constructor|].
  cbn [counted_events fst snd].
  destruct (contains labels c); [|exact IH].
  destruct (confusion_matrix t (nan_to_num p (-1)) labels) as [m|e] eqn:Em;
    [|constructor].
  apply confusion_matrix_ok in Em.
  destruct Em as [(_ & _ & Hp & _) _].
  apply Forall_app. split; [|exact IH].
  apply Forall_forall. intros [x y] Hin. cbn [snd].
  apply in_combine_r in Hin. rewrite forallb_forall in Hp.
  apply Hp. unfold nan_to_num. now apply in_map.
Qed.

Lemma infinite_is_no_class_label :
  is_class_label (nan_to_num1 (-1) PInf) = false
  /\ is_class_label (nan_to_num1 (-1) NInf) = false.
Proof. split; vm_compute; reflexivity. Qed.

(** C5 (amended).  Accumulation maps a predicted label that is NaN to
    the null key -1 before the lookup: whatever the data and the outcome
    of the call, the cell in the row of a true label and in the null
    column grows by the number of counted events with that true label
    whose predicted label is NaN or -1, and by nothing else.  A predicted
    label of positive or negative infinity is not mapped to -1: no
    counted event has one, and a registered group that holds one makes
    the call raise [ValueError]. *)
Theorem nan_prediction_counted_as_null
    (self : ConfusionMatrix) (data : Data) :
  well_formed self ->
  In (-1)%Z (keys (_categories self)) ->
  let labels := keys (_categories self) in
  let null := label_to_ind labels (of_int (-1)) in
  nan_to_num [NaN; PInf; NInf] (-1)
  = [Fin (-1); Fin float_max; Fin (- float_max)]
  /\ (null < length labels)%nat
  /\ (forall i, (i < length labels)%nat ->
        cell (_confusion_matrix (fst (add_sample self data))) i null
        = wrap64
            (cell (_confusion_matrix self) i null
             + len (filter (fun e => (label_to_ind labels (fst e) =? i)%nat
                                     && null_prediction (snd e))
                           (counted_events labels data))))
  /\ Forall (fun e => snd e <> PInf /\ snd e <> NInf)
            (counted_events labels data)
  /\ (forall c t p,
        In (c, (t, p)) data -> contains labels c = true ->
        In PInf p \/ In NInf p ->
        snd (add_sample self data) = Raise ValueError).
Proof.
  intros Hwf Hnull labels null.
  pose proof (label_to_ind_registered labels _ (registered_of_int _ _ Hnull))
    as Hk. fold null in Hk.
  split; [reflexivity|]. split; [exact Hk|]. split; [|split].
  - intros i Hi. rewrite (add_sample_counted data self Hwf).
    fold labels. cbn [add_matrix _confusion_matrix].
    destruct Hwf as [Hlen Hrows].
    set (pairs := map (fun e => (fst e, nan_to_num1 (-1) (snd e)))
                      (counted_events labels data)).
    destruct (count_matrix_shape labels pairs) as [Clen Crows].
    assert (Hlen' : length (_confusion_matrix self) = length labels)
      by (unfold labels; now rewrite keys_length).
    assert (Hrows' : Forall (fun r => length r = length labels)
                       (_confusion_matrix self)).
    { eapply Forall_impl; [|exact Hrows]. intros r [H _].
      unfold labels. now rewrite keys_length. }
    assert (Crows' : Forall (fun r => length r = length labels)
                       (count_matrix labels pairs)).
    { eapply Forall_impl; [|exact Crows]. now intros r [H _]. }
    rewrite (cell_iadd _ _ (length labels) i null Hlen' Hrows' Clen Crows'
               Hi Hk).
    rewrite cell_count_matrix by assumption. rewrite wrap64_add_r.
    apply (f_equal wrap64). apply (f_equal (Z.add _)).
    unfold cell_count, len, pairs. rewrite filter_map_length.
    apply (f_equal (fun l : list (float * float) => Z.of_nat (length l))).
    apply filter_ext. intros e. cbn [fst snd]. apply (f_equal (andb _)).
    now apply null_index.
  - pose proof (counted_events_class_labels labels data) as H.
    eapply Forall_impl; [|exact H]. intros e He. cbv beta in He.
    destruct infinite_is_no_class_label as [Hp Hn].
    split; intro E; rewrite E in He; congruence.
  - intros c t p Hin Hc Hinf. apply add_sample_refuses. intro Hall.
    rewrite Forall_forall in Hall. specialize (Hall _ Hin Hc).
    cbn [fst snd] in Hall. destruct Hall as (_ & _ & Hp & _).
    rewrite forallb_forall in Hp.
    destruct infinite_is_no_class_label as [Ep En].
    destruct Hinf as [H|H];
      apply (in_map (nan_to_num1 (-1))) in H; apply Hp in H; congruence.
Qed.

Lemma nan_prediction_counted_as_null_witness :
  cell (_confusion_matrix
          (fst (add_sample (__init__ two_categories)
                  [(0%Z, ([Fin 0; Fin 1; Fin 1], [Fin 1; NaN; Fin (-1)]))])))
       1 2
  = 2%Z.
Proof.
  destruct (nan_prediction_counted_as_null (__init__ two_categories)
              [(0%Z, ([Fin 0; Fin 1; Fin 1], [Fin 1; NaN; Fin (-1)]))]
              (init_well_formed two_categories))
    as (_ & _ & Hcell & _).
  - cbn. auto.
  - exact (Hcell 1%nat ltac:(cbn; lia)).
Defined.

End NullColumn.

(** ** [draw]: the normalised matrix *)

Section Normalisation.

Import Confusion.

Lemma divide_row_nonzero (out : nat -> Q) (s : Q) (r : list Q) (k : nat) :
  Qeq_bool s 0 = false ->
  map (fun jc : nat * Q =>
         if negb (Qeq_bool s 0) then snd jc / s else out (fst jc))
      (combine (seq k (length r)) r)
  = map (fun x => x / s) r.
Proof.
  intros Hs. revert k. induction r as [|x r IH]; intros k; simpl.
  - reflexivity.
  - now rewrite IH, Hs.
Qed.

Lemma divide_row_zero (out : nat -> Q) (s : Q) (r : list Q) (k : nat) :
  Qeq_bool s 0 = true ->
  map (fun jc : nat * Q =>
         if negb (Qeq_bool s 0) then snd jc / s else out (fst jc))
      (combine (seq k (length r)) r)
  = map out (seq k (length r)).
Proof.
  intros Hs. revert k. induction r as [|x r IH]; intros k; simpl.
  - reflexivity.
  - now rewrite IH, Hs.
Qed.

Lemma divide_where_rows (out : nat -> nat -> Q) (cm : list (list Q))
    (row_sums : list Q) (k i : nat) (r : list Q) (s : Q) :
  nth_error cm i = Some r -> nth_error row_sums i = Some s ->
  nth_error
    (map (fun ir : nat * (list Q * Q) =>
            map (fun jc : nat * Q =>
                   if negb (Qeq_bool (snd (snd ir)) 0)
                   then snd jc / snd (snd ir)
                   else out (fst ir) (fst jc))
                (combine (seq 0 (length (fst (snd ir)))) (fst (snd ir))))
         (combine (seq k (length cm)) (combine cm row_sums))) i
  = Some (if Qeq_bool s 0 then map (out (k + i)%nat) (seq 0 (length r))
          else map (fun x => x / s) r).
Proof.
  revert row_sums k i. induction cm as [|r0 cm IH];
    intros [|s0 row_sums] k [|i] Hr Hs; simpl in *; try discriminate.
  - inversion Hr; inversion Hs; subst. rewrite Nat.add_0_r. f_equal.
    pose proof (divide_row_zero (out k) s r 0) as Hz.
    pose proof (divide_row_nonzero (out k) s r 0) as Hnz.
    destruct (Qeq_bool s 0); [now apply Hz|now apply Hnz].
  - rewrite (IH row_sums (S k) i Hr Hs). now rewrite Nat.add_succ_r.
Qed.

(** In [np.divide(cm, row_sums, where=row_sums != 0)], a row with a
    non-zero sum becomes the row of its quotients, which sum to 1; a row
    whose sum is zero is never written and shows the buffer. *)
Lemma divide_where_row (out : nat -> nat -> Q) (cm : list (list Q))
    (i : nat) (r : list Q) :
  nth_error cm i = Some r ->
  exists r',
    nth_error (divide out cm (map Qsum cm)) i = Some r'
    /\ (~ Qsum r == 0 -> r' = map (fun x => x / Qsum r) r /\ Qsum r' == 1)
    /\ (Qsum r == 0 -> r' = map (out i) (seq 0 (length r))).
Proof.
  intros Hr.
  assert (Hs : nth_error (map Qsum cm) i = Some (Qsum r))
    by (now apply map_nth_error).
  unfold divide. rewrite (divide_where_rows out cm _ 0 i r _ Hr Hs).
  eexists. split; [reflexivity|]. cbn [Nat.add]. split.
  - intros Hne. apply Qeq_bool_false in Hne. rewrite Hne.
    split; [reflexivity|].
    apply Qeq_bool_false in Hne.
    assert (Hsum : forall (s : Q) (l : list Q),
              Qsum (map (fun x => x / s) l) == Qsum l / s).
    { intros s l. induction l as [|x l IHl]; simpl.
      - unfold Qdiv. now rewrite Qmult_0_l.
      - rewrite IHl. unfold Qdiv. ring. }
    rewrite Hsum. now apply Qmult_inv_r.
  - intros Hz. apply Qeq_bool_iff in Hz. now rewrite Hz.
Qed.

(** C2: the code fails the claim.  Registry [{0: A, 1: B}], two events of
    true label 0 predicted 0 and 1: the row of B sums to zero, and the
    normalised view shows for it what the result buffer held, whatever
    that is (7 and 7 here), where the claim says zeros. *)
Theorem zero_row_shows_buffer_content :
  forall out : nat -> nat -> Q,
  exists self,
    add_sample (__init__ two_categories)
      [(0%Z, ([Fin 0; Fin 0], [Fin 0; Fin 1]))] = (self, Ok tt)
    /\ _confusion_matrix self = [[1; 1; 0]; [0; 0; 0]; [0; 0; 0]]%Z
    /\ draw out self false
       = Ok [[1 # 2; 1 # 2]; [out 1%nat 0%nat; out 1%nat 1%nat]]
    /\ draw (fun _ _ => 7) self false
       = Ok [[1 # 2; 1 # 2]; [7; 7]]
    /\ ~ 7 == 0.
Proof.
  intros out. eexists. split; [reflexivity|].
  repeat split; try reflexivity. intro H. discriminate H.
Qed.

End Normalisation.

(* ================================================================== *)
(** * Further properties *)

(** ** Looking a sample up by name *)

Section Samples.

Lemma find_sample_ok (l : list sample_dict) (name : string)
    (d : sample_dict) :
  find_sample l name = Ok d -> In d l /\ sample d = name.
Proof.
  unfold find_sample.
  destruct (filter (fun d0 => String.eqb (sample d0) name) l) as [|d0 l0] eqn:E;
    simpl; [discriminate|].
  intros H. inversion H; subst d0.
  assert (Hin : In d (filter (fun d0 => String.eqb (sample d0) name) l))
    by (rewrite E; now left).
  apply filter_In in Hin. destruct Hin as [Hin Hname].
  split; [exact Hin|]. now apply String.eqb_eq.
Qed.

Lemma find_sample_present (l : list sample_dict) (name : string)
    (d : sample_dict) :
  In d l -> sample d = name -> exists d', find_sample l name = Ok d'.
Proof.
  intros Hin Hname. unfold find_sample.
  assert (H : In d (filter (fun d0 => String.eqb (sample d0) name) l)).
  { apply filter_In. split; [exact Hin|]. now apply String.eqb_eq. }
  destruct (filter _ l); [destruct H|]. simpl. eauto.
Qed.

Lemma find_sample_missing (l : list sample_dict) (name : string) :
  (forall d, In d l -> sample d <> name) ->
  find_sample l name = Raise IndexError.
Proof.
  intros H. unfold find_sample.
  destruct (filter (fun d0 => String.eqb (sample d0) name) l) as [|d0 l0] eqn:E;
    [reflexivity|].
  assert (Hin : In d0 (filter (fun d1 => String.eqb (sample d1) name) l))
    by (rewrite E; now left).
  apply filter_In in Hin. destruct Hin as [Hin Hname].
  apply String.eqb_eq in Hname. now apply H in Hin.
Qed.

Lemma find_sample_raise (l : list sample_dict) (name : string) (e : exn) :
  find_sample l name = Raise e ->
  e = IndexError /\ forall d, In d l -> sample d <> name.
Proof.
  intros H.
  assert (Hmiss : forall d, In d l -> sample d <> name).
  { intros d Hin Hname.
    destruct (find_sample_present l name d Hin Hname) as [d' E]. congruence. }
  split; [|exact Hmiss].
  rewrite (find_sample_missing l name Hmiss) in H. congruence.
Qed.

End Samples.

(** ** [calculate_efficiency] *)

Section Efficiency.

Import PurEff.

(** X1.  [calculate_efficiency] raises [IndexError] when no sample is
    named ['signal'] and [ZeroDivisionError] when the signal sample holds
    no event; otherwise it returns the number of signal events with
    [reco_all_cuts_satisfied == 1] divided by the number of signal
    events, a value between 0 and 1. *)
Theorem calculate_efficiency_outcome (all_samples : list sample_dict) :
  ((forall d, In d all_samples -> sample d <> "signal"%string) ->
   calculate_efficiency all_samples = Raise IndexError)
  /\ (forall sig,
        find_sample all_samples "signal" = Ok sig -> df sig = [] ->
        calculate_efficiency all_samples = Raise ZeroDivisionError)
  /\ (forall sig,
        find_sample all_samples "signal" = Ok sig -> df sig <> [] ->
        exists eff,
          calculate_efficiency all_samples = Ok eff
          /\ eff = inject_Z (len (select_eq_1 "reco_all_cuts_satisfied"
                                              (df sig)))
                   / inject_Z (len (df sig))
          /\ 0 <= eff /\ eff <= 1).
Proof.
  unfold calculate_efficiency. split; [|split].
  - intros H. now rewrite (find_sample_missing _ _ H).
  - intros sig -> E. cbn [bind]. now rewrite E.
  - intros sig -> Hne. cbn [bind]. unfold truediv.
    pose proof (@len_pos _ (df sig) Hne) as Hpos.
    replace (len (df sig) =? 0)%Z with false.
    + eexists. split; [reflexivity|]. split; [reflexivity|]. split.
      * apply Qle_shift_div_l; [exact Hpos|]. rewrite Qmult_0_l.
        change 0 with (inject_Z 0). rewrite <- Zle_Qle. unfold len. lia.
      * apply Qle_shift_div_r; [exact Hpos|]. rewrite Qmult_1_l.
        rewrite <- Zle_Qle. apply select_eq_1_le.
    + symmetry. apply Z.eqb_neq. intro E.
      rewrite E in Hpos. discriminate Hpos.
Qed.

Lemma calculate_efficiency_outcome_witness :
  calculate_efficiency [] = Raise IndexError
  /\ calculate_efficiency [signal_sample []] = Raise ZeroDivisionError
  /\ exists eff,
       calculate_efficiency [signal_sample [event 1 0; event 5 1]] = Ok eff
       /\ 0 <= eff /\ eff <= 1.
Proof.
  split; [|split].
  - apply (calculate_efficiency_outcome []). intros d [].
  - apply (proj1 (proj2 (calculate_efficiency_outcome [signal_sample []]))
             (signal_sample []) eq_refl eq_refl).
  - destruct (proj2 (proj2 (calculate_efficiency_outcome
                              [signal_sample [event 1 0; event 5 1]]))
                (signal_sample [event 1 0; event 5 1]) eq_refl
                ltac:(discriminate)) as (eff & H & _ & Hb).
    exists eff. auto.
Defined.

(** X2.  The efficiency [calculate_efficiency_by_cut] prints for a cut
    made of the single condition ['reco_all_cuts_satisfied == 1'] is the
    efficiency [calculate_efficiency] returns, and the two calls fail
    alike. *)
Theorem single_cut_is_calculate_efficiency
    (all_samples : list sample_dict) (name : string) :
  calculate_efficiency_by_cut eval_eq_1 all_samples
    [(name, [atom "reco_all_cuts_satisfied == 1"])]
  = (eff <- calculate_efficiency all_samples ;; Ok [(name, eff)]).
Proof.
  unfold calculate_efficiency_by_cut, calculate_efficiency.
  destruct (find_sample all_samples "signal") as [sig|e]; cbn [bind];
    [|reflexivity].
  cbn [for_each]. unfold efficiency_of_cut.
  cbn [snd fst cond_string join_from atom length app Nat.sub Nat.eqb negb
       query disjuncts bind].
  replace (filter (holds eval_eq_1 [["reco_all_cuts_satisfied == 1"%string]])
                  (df sig))
    with (select_eq_1 "reco_all_cuts_satisfied" (df sig)).
  - destruct (truediv _ _); reflexivity.
  - unfold select_eq_1. apply filter_ext. intros r. unfold holds.
    cbn [existsb forallb]. now rewrite andb_true_r, orb_false_r.
Qed.

End Efficiency.

(** ** [calculate_efficiency_by_cut]: outcomes *)

Section ByCutOutcome.

Import PurEff.

Variable eval_cond : string -> row -> bool.

Lemma disjuncts_raises (toks : list token) (e : exn) :
  disjuncts toks = Raise e -> e = SyntaxError.
Proof.
  revert e. induction toks as [|t|t t' rest IH] using list_ind2; intros e.
  - cbn. congruence.
  - destruct t; cbn; congruence.
  - destruct t as [c| |]; [|cbn; congruence|cbn; congruence].
    destruct t' as [c'| |]; cbn [disjuncts]; [congruence| |].
    + destruct (disjuncts rest) as [[|d ds]|e'] eqn:E; cbn [bind];
        try congruence.
      intros H. inversion H; subst e'. now apply IH.
    + destruct (disjuncts rest) as [ds|e'] eqn:E; cbn [bind];
        try congruence.
      intros H. inversion H; subst e'. now apply IH.
Qed.

Lemma query_error_kind (toks : list token) (e : exn) :
  query_error toks = Some e ->
  (toks = [] /\ e = ValueError) \/ (toks <> [] /\ e = SyntaxError).
Proof.
  unfold query_error. destruct toks as [|t toks].
  - intros H. inversion H. now left.
  - destruct (disjuncts (t :: toks)) as [ds|e'] eqn:E; [discriminate|].
    intros H. inversion H; subst e'. right.
    split; [discriminate|]. exact (disjuncts_raises _ _ E).
Qed.

Lemma query_of_error (d : DataFrame) (toks : list token) (e : exn) :
  query_error toks = Some e -> query eval_cond d toks = Raise e.
Proof.
  unfold query_error, query. destruct toks as [|t toks].
  - intros H. now inversion H.
  - destruct (disjuncts (t :: toks)); [discriminate|].
    intros H. now inversion H.
Qed.

Lemma query_of_parsed (d : DataFrame) (value : list condition) :
  query_error (cond_string value) = None ->
  query eval_cond d (cond_string value)
  = Ok (filter (holds eval_cond (parsed value)) d).
Proof.
  unfold query_error, query, parsed.
  destruct (cond_string value) as [|t toks]; [discriminate|].
  destruct (disjuncts (t :: toks)); [reflexivity|discriminate].
Qed.

Lemma efficiency_of_cut_error (d : DataFrame)
    (cut : string * list condition) (e : exn) :
  query_error (cond_string (snd cut)) = Some e ->
  efficiency_of_cut eval_cond d cut = Raise e.
Proof.
  intros H. unfold efficiency_of_cut. now rewrite (query_of_error d _ _ H).
Qed.

Lemma efficiency_of_cut_parsed (d : DataFrame)
    (cut : string * list condition) :
  query_error (cond_string (snd cut)) = None -> d <> [] ->
  efficiency_of_cut eval_cond d cut
  = Ok (fst cut, fraction_of eval_cond d (parsed (snd cut))).
Proof.
  intros H Hd. unfold efficiency_of_cut.
  rewrite (query_of_parsed d _ H). cbn [bind]. unfold truediv.
  replace (len d =? 0)%Z with false; [reflexivity|].
  symmetry. apply Z.eqb_neq. destruct d; [congruence|]. unfold len. simpl. lia.
Qed.

(** X3.  What [calculate_efficiency_by_cut] does, case by case: without a
    sample named ['signal'] it raises [IndexError]; without cuts it prints
    the first line only; on an empty signal sample the first cut makes it
    raise, [ValueError] if the query string of that cut is empty,
    [SyntaxError] if it does not parse and [ZeroDivisionError] otherwise;
    on a signal sample with events, the first cut whose query string is
    empty or does not parse makes it raise [ValueError] or [SyntaxError],
    and without such a cut it prints one efficiency per cut, under the
    names and in the order of [cuts]: the fraction of the signal events
    that satisfy the query as pandas parses it. *)
Theorem efficiency_by_cut_outcome
    (all_samples : list sample_dict) (cuts : list (string * list condition)) :
  ((forall d, In d all_samples -> sample d <> "signal"%string) ->
   calculate_efficiency_by_cut eval_cond all_samples cuts = Raise IndexError)
  /\ forall sig,
       find_sample all_samples "signal" = Ok sig ->
       (cuts = [] ->
        calculate_efficiency_by_cut eval_cond all_samples cuts = Ok [])
       /\ (forall c rest, cuts = c :: rest -> df sig = [] ->
             calculate_efficiency_by_cut eval_cond all_samples cuts
             = Raise (match query_error (cond_string (snd c)) with
                      | Some e => e
                      | None => ZeroDivisionError
                      end))
       /\ (forall pre c post e,
             cuts = pre ++ c :: post -> df sig <> [] ->
             Forall (fun c' => query_error (cond_string (snd c')) = None)
                    pre ->
             query_error (cond_string (snd c)) = Some e ->
             calculate_efficiency_by_cut eval_cond all_samples cuts
             = Raise e
             /\ ((cond_string (snd c) = [] /\ e = ValueError)
                 \/ (cond_string (snd c) <> [] /\ e = SyntaxError)))
       /\ (df sig <> [] ->
           Forall (fun c => query_error (cond_string (snd c)) = None) cuts ->
           calculate_efficiency_by_cut eval_cond all_samples cuts
           = Ok (map (fun c => (fst c, fraction_of eval_cond (df sig)
                                         (parsed (snd c)))) cuts)).
Proof.
  unfold calculate_efficiency_by_cut. split.
  - intros H. now rewrite (find_sample_missing _ _ H).
  - intros sig ->. cbn [bind]. split; [|split; [|split]].
    + intros ->. reflexivity.
    + intros c rest -> E. rewrite E. cbn [for_each].
      destruct (query_error (cond_string (snd c))) as [e|] eqn:Eq.
      * now rewrite (efficiency_of_cut_error [] c e Eq).
      * unfold efficiency_of_cut. rewrite (query_of_parsed [] _ Eq).
        reflexivity.
    + intros pre c post e -> Hd Hpre He.
      split; [|exact (query_error_kind _ _ He)].
      induction Hpre as [|c0 pre H0 _ IH]; cbn [app for_each].
      * now rewrite (efficiency_of_cut_error (df sig) c e He).
      * rewrite (efficiency_of_cut_parsed (df sig) c0 H0 Hd). cbn [bind].
        now rewrite IH.
    + intros Hd Hall.
      induction Hall as [|c0 cuts' H0 _ IH]; [reflexivity|].
      cbn [for_each map].
      rewrite (efficiency_of_cut_parsed (df sig) c0 H0 Hd). cbn [bind].
      now rewrite IH.
Qed.

Lemma forallb_same_elements {A : Type} (p : A -> bool) (l l' : list A) :
  (forall x, In x l <-> In x l') -> forallb p l = forallb p l'.
Proof.
  intros H. apply eq_true_iff_eq. rewrite !forallb_forall.
  split; intros Hp x Hx; apply Hp, H, Hx.
Qed.

Lemma conjunction_operands (c : condition) :
  conjunction c -> operands c <> [].
Proof.
  destruct c as [|[x| |] rest]; cbn [conjunction]; try contradiction.
  intros _. destruct rest as [|[x'| |] rest']; discriminate.
Qed.

(** X4.  For conditions that hold no [|] or [or] at their top level, the
    efficiency of a cut depends on which operands the cut lists, not on
    their order, on repetitions or on how they are spread over the
    conditions: two such lists with the same operands give the same
    outcome. *)
Theorem efficiency_of_cut_same_conditions
    (sig_df : DataFrame) (name : string) (value value' : list condition) :
  Forall conjunction value -> Forall conjunction value' ->
  (forall x, In x (flat_map operands value)
             <-> In x (flat_map operands value')) ->
  efficiency_of_cut eval_cond sig_df (name, value)
  = efficiency_of_cut eval_cond sig_df (name, value').
Proof.
  intros Hv Hv' H. unfold efficiency_of_cut. cbn [snd fst].
  destruct value as [|c v], value' as [|c' v']; try reflexivity.
  - exfalso. inversion Hv' as [|? ? Hc' _]; subst.
    apply conjunction_operands in Hc'.
    destruct (operands c') as [|x l] eqn:E; [congruence|].
    apply (proj2 (H x)). cbn [flat_map]. rewrite E. now left.
  - exfalso. inversion Hv as [|? ? Hc _]; subst.
    apply conjunction_operands in Hc.
    destruct (operands c) as [|x l] eqn:E; [congruence|].
    apply (proj1 (H x)). cbn [flat_map]. rewrite E. now left.
  - rewrite !(@query_conjunctions eval_cond) by (assumption || discriminate).
    cbn [bind].
    replace (filter (holds eval_cond [flat_map operands (c' :: v')]) sig_df)
      with (filter (holds eval_cond [flat_map operands (c :: v)]) sig_df);
      [reflexivity|].
    apply filter_ext. intros r. rewrite !(@holds_single eval_cond).
    now apply forallb_same_elements.
Qed.

End ByCutOutcome.

Lemma efficiency_by_cut_outcome_example :
  PurEff.calculate_efficiency_by_cut eval_eq_1 [signal_sample [xyz 0 0 1]]
    [("Dangling"%string, [[PurEff.Cond "x == 1"; PurEff.Bar]])]
  = Raise SyntaxError.
Proof. reflexivity. Qed.

Lemma efficiency_of_cut_same_conditions_witness :
  PurEff.efficiency_of_cut eval_eq_1 [flags 1 1; flags 1 0]
    ("Fiducial Cut"%string,
     [atom "reco_flash_icarus_satisfied == 1";
      atom "reco_fiducial_satisfied == 1"])
  = PurEff.efficiency_of_cut eval_eq_1 [flags 1 1; flags 1 0]
      ("Fiducial Cut"%string,
       [[PurEff.Cond "reco_fiducial_satisfied == 1"; PurEff.Amp;
         PurEff.Cond "reco_flash_icarus_satisfied == 1"];
        atom "reco_fiducial_satisfied == 1"]).
Proof.
  apply (efficiency_of_cut_same_conditions eval_eq_1).
  - repeat constructor.
  - repeat constructor.
  - intros c. simpl. tauto.
Defined.

(** ** [calculate_purity]: outcomes *)

Section PurityOutcome.

Import PurEff.

Lemma overflow_cases (q : Q) :
  (overflow q = Fin q /\ - float_max <= q /\ q <= float_max)
  \/ (overflow q = PInf /\ float_max < q)
  \/ (overflow q = NInf /\ q < - float_max).
Proof.
  unfold overflow.
  destruct (Qltb float_max q) eqn:E1.
  - apply Qltb_lt in E1. auto.
  - apply Qltb_ge in E1.
    destruct (Qltb q (- float_max)) eqn:E2.
    + apply Qltb_lt in E2. auto.
    + apply Qltb_ge in E2. auto.
Qed.

Lemma overflow_nonneg (q : Q) :
  0 <= q -> overflow q = Fin q \/ overflow q = PInf.
Proof.
  intros H. pose proof float_max_pos.
  destruct (overflow_cases q) as [[E _]|[[E _]|[_ E]]]; auto. lra.
Qed.

(** X5.  [calculate_purity] raises [IndexError] when one of the samples
    ['mc_nu'], ['mc_cos'], ['offbeam'], ['onbeam'] is missing, and this is
    its one failure mode: whenever the four are present it returns a
    float, whatever their exposures, livetimes and events. *)
Theorem calculate_purity_outcome
    (all_samples : list sample_dict) (true_category : string) :
  (forall name,
     In name ["mc_nu"; "mc_cos"; "offbeam"; "onbeam"]%string ->
     (forall d, In d all_samples -> sample d <> name) ->
     calculate_purity all_samples true_category = Raise IndexError)
  /\ (forall e, calculate_purity all_samples true_category = Raise e ->
        e = IndexError
        /\ exists name,
             In name ["mc_nu"; "mc_cos"; "offbeam"; "onbeam"]%string
             /\ forall d, In d all_samples -> sample d <> name)
  /\ ((forall name, In name ["mc_nu"; "mc_cos"; "offbeam"; "onbeam"]%string ->
         exists d, In d all_samples /\ sample d = name) ->
      exists pur, calculate_purity all_samples true_category = Ok pur).
Proof.
  assert (Hraise :
    forall e, calculate_purity all_samples true_category = Raise e ->
      e = IndexError
      /\ exists name,
           In name ["mc_nu"; "mc_cos"; "offbeam"; "onbeam"]%string
           /\ forall d, In d all_samples -> sample d <> name).
  { unfold calculate_purity. intros e.
    destruct (find_sample all_samples "mc_nu") as [nu|e1] eqn:E1; cbn [bind].
    2:{ intros H. inversion H; subst e1.
        destruct (find_sample_raise _ _ _ E1) as [-> Hm].
        split; [reflexivity|]. exists "mc_nu"%string.
        split; [simpl; tauto|exact Hm]. }
    destruct (find_sample all_samples "mc_cos") as [cos|e2] eqn:E2;
      cbn [bind].
    2:{ intros H. inversion H; subst e2.
        destruct (find_sample_raise _ _ _ E2) as [-> Hm].
        split; [reflexivity|]. exists "mc_cos"%string.
        split; [simpl; tauto|exact Hm]. }
    destruct (find_sample all_samples "offbeam") as [off|e3] eqn:E3;
      cbn [bind].
    2:{ intros H. inversion H; subst e3.
        destruct (find_sample_raise _ _ _ E3) as [-> Hm].
        split; [reflexivity|]. exists "offbeam"%string.
        split; [simpl; tauto|exact Hm]. }
    destruct (find_sample all_samples "onbeam") as [on|e4] eqn:E4;
      cbn [bind].
    2:{ intros H. inversion H; subst e4.
        destruct (find_sample_raise _ _ _ E4) as [-> Hm].
        split; [reflexivity|]. exists "onbeam"%string.
        split; [simpl; tauto|exact Hm]. }
    discriminate. }
  split; [|split; [exact Hraise|]].
  - intros name Hin Hmiss.
    pose proof (find_sample_missing all_samples name Hmiss) as Hf.
    destruct (calculate_purity all_samples true_category) as [pur|e] eqn:E.
    + exfalso. unfold calculate_purity in E.
      destruct (find_sample all_samples "mc_nu") as [nu|] eqn:E1;
        cbn [bind] in E; [|discriminate].
      destruct (find_sample all_samples "mc_cos") as [cos|] eqn:E2;
        cbn [bind] in E; [|discriminate].
      destruct (find_sample all_samples "offbeam") as [off|] eqn:E3;
        cbn [bind] in E; [|discriminate].
      destruct (find_sample all_samples "onbeam") as [on|] eqn:E4;
        cbn [bind] in E; [|discriminate].
      cbn [In] in Hin.
      destruct Hin as [<-|[<-|[<-|[<-|[]]]]]; congruence.
    + now destruct (Hraise e eq_refl) as [-> _].
  - intros H.
    destruct (H "mc_nu"%string ltac:(simpl; auto)) as (d1 & Hd1 & Hn1).
    destruct (H "mc_cos"%string ltac:(simpl; auto)) as (d2 & Hd2 & Hn2).
    destruct (H "offbeam"%string ltac:(simpl; auto)) as (d3 & Hd3 & Hn3).
    destruct (H "onbeam"%string ltac:(simpl; auto)) as (d4 & Hd4 & Hn4).
    unfold calculate_purity.
    destruct (find_sample_present _ _ _ Hd1 Hn1) as [nu ->].
    destruct (find_sample_present _ _ _ Hd2 Hn2) as [cos ->].
    destruct (find_sample_present _ _ _ Hd3 Hn3) as [off ->].
    destruct (find_sample_present _ _ _ Hd4 Hn4) as [on ->].
    cbn [bind]. eauto.
Qed.

(** X6.  With finite scale factors and a denominator equal to zero,
    [calculate_purity] returns a value that is not finite and raises
    nothing; with non-negative scale factors (in particular when no
    event was selected at all) that value is NaN, not zero. *)
Theorem purity_of_zero_total
    (all_samples : list sample_dict) (true_category : string)
    (nu cos offbeam onbeam : sample_dict) (s_mc s_bg : Q) :
  find_sample all_samples "mc_nu" = Ok nu ->
  find_sample all_samples "mc_cos" = Ok cos ->
  find_sample all_samples "offbeam" = Ok offbeam ->
  find_sample all_samples "onbeam" = Ok onbeam ->
  fdiv (pot onbeam) (pot nu) = Fin s_mc ->
  fdiv (livetime onbeam) (livetime offbeam) = Fin s_bg ->
  s_mc * inject_Z (len (df nu ++ df cos))
  + s_bg * inject_Z (len (df offbeam)) == 0 ->
  (exists pur,
     calculate_purity all_samples true_category = Ok pur
     /\ forall q, pur <> Fin q)
  /\ (0 <= s_mc -> 0 <= s_bg ->
      calculate_purity all_samples true_category = Ok NaN).
Proof.
  intros Hnu Hcos Hoff Hon Hmc Hbg Htot.
  unfold calculate_purity. rewrite Hnu, Hcos, Hoff, Hon. cbn [bind].
  rewrite Hmc, Hbg. unfold of_int. cbn [fmul].
  set (n_fg := len (select_eq_0 true_category (df nu ++ df cos))) in *.
  set (n_mc := len (df nu ++ df cos)) in *.
  set (n_bg := len (df offbeam)) in *.
  pose proof float_max_pos as Hfm.
  split.
  - destruct (overflow_cases (s_mc * inject_Z n_mc))
      as [[Ea Ra]|[[Ea Ra]|[Ea Ra]]];
      destruct (overflow_cases (s_bg * inject_Z n_bg))
        as [[Eb Rb]|[[Eb Rb]|[Eb Rb]]];
      rewrite Ea, Eb; cbn [fadd]; try (exfalso; lra).
    + rewrite (@overflow_in_range
                 (s_mc * inject_Z n_mc + s_bg * inject_Z n_bg)) by lra.
      apply Qeq_bool_iff in Htot.
      destruct (overflow (s_mc * inject_Z n_fg)) as [x| | |];
        cbn [fdiv]; rewrite ?Htot; eexists; (split; [reflexivity|]);
        intros q; unfold inf_of_sign;
        repeat match goal with
               | |- context [if ?b then _ else _] => destruct b
               end; discriminate.
    + eexists. split; [reflexivity|]. intros q.
      destruct (overflow (s_mc * inject_Z n_fg)); discriminate.
    + eexists. split; [reflexivity|]. intros q.
      destruct (overflow (s_mc * inject_Z n_fg)); discriminate.
  - intros H1 H2.
    assert (Hfg : 0 <= inject_Z n_fg).
    { change 0 with (inject_Z 0). rewrite <- Zle_Qle. unfold n_fg, len. lia. }
    assert (Hle : inject_Z n_fg <= inject_Z n_mc).
    { rewrite <- Zle_Qle. apply filter_length_le_len. }
    assert (Hmcn : 0 <= inject_Z n_mc) by lra.
    assert (Ha : 0 <= s_mc * inject_Z n_mc)
      by (apply Qmult_le_0_compat; assumption).
    assert (Hb : 0 <= s_bg * inject_Z n_bg).
    { apply Qmult_le_0_compat; [exact H2|].
      change 0 with (inject_Z 0). rewrite <- Zle_Qle. unfold n_bg, len. lia. }
    assert (Hm0 : 0 <= s_mc * inject_Z n_fg)
      by (apply Qmult_le_0_compat; assumption).
    assert (Hmt : s_mc * inject_Z n_fg <= s_mc * inject_Z n_mc).
    { rewrite !(Qmult_comm s_mc). apply Qmult_le_compat_r; assumption. }
    rewrite (@overflow_in_range (s_mc * inject_Z n_mc)) by lra.
    rewrite (@overflow_in_range (s_bg * inject_Z n_bg)) by lra.
    rewrite (@overflow_in_range (s_mc * inject_Z n_fg)) by lra.
    cbn [fadd].
    rewrite (@overflow_in_range
               (s_mc * inject_Z n_mc + s_bg * inject_Z n_bg)) by lra.
    cbn [fdiv].
    assert (Hz : s_mc * inject_Z n_fg == 0) by lra.
    apply Qeq_bool_iff in Hz. apply Qeq_bool_iff in Htot.
    now rewrite Htot, Hz.
Qed.

Lemma purity_of_zero_total_witness :
  calculate_purity (purity_samples 1 2 0 0 0) "true_category" = Ok NaN.
Proof.
  apply (proj2 (purity_of_zero_total (purity_samples 1 2 0 0 0)
                  "true_category" _ _ _ _ (1 / 2) (1 / 1)
                  eq_refl eq_refl eq_refl eq_refl eq_refl eq_refl eq_refl)).
  - intro H; discriminate H.
  - intro H; discriminate H.
Defined.

End PurityOutcome.

Lemma calculate_purity_outcome_example :
  PurEff.calculate_purity
    [ {| sample := "mc_nu"; df := []; pot := Fin 1; livetime := Fin 1 |};
      {| sample := "mc_cos"; df := []; pot := Fin 1; livetime := Fin 1 |};
      {| sample := "onbeam"; df := []; pot := Fin 1; livetime := Fin 1 |} ]
    "true_category"
  = Raise IndexError.
Proof. reflexivity. Qed.

(** ** [calculate_purity_by_cut] *)

Section PurityByCutProps.

Import PurEff PurityByCut.

Variable eval_cond : string -> row -> bool.

Lemma purity_of_range (livetime_onbeam livetime_offbeam : float)
    (true_category : string) (mc offbeam : DataFrame) (s : Q) :
  fdiv livetime_onbeam livetime_offbeam = Fin s -> 0 <= s ->
  purity_of livetime_onbeam livetime_offbeam true_category mc offbeam = NaN
  \/ exists q,
       purity_of livetime_onbeam livetime_offbeam true_category mc offbeam
       = Fin q
       /\ 0 <= q /\ q <= 1.
Proof.
  intros Hs Hpos. unfold purity_of. rewrite Hs. unfold of_int.
  cbn [fmul].
  set (n_fg := len (select_eq_0 true_category mc)).
  set (n_mc := len mc). set (n_off := len offbeam).
  assert (Hfg : 0 <= inject_Z n_fg).
  { change 0 with (inject_Z 0). rewrite <- Zle_Qle. unfold n_fg, len. lia. }
  assert (Hle : inject_Z n_fg <= inject_Z n_mc).
  { rewrite <- Zle_Qle. apply filter_length_le_len. }
  assert (Hoff : 0 <= s * inject_Z n_off).
  { apply Qmult_le_0_compat; [exact Hpos|].
    change 0 with (inject_Z 0). rewrite <- Zle_Qle. unfold n_off, len. lia. }
  assert (Hzero : exists q, Fin 0 = Fin q /\ 0 <= q /\ q <= 1).
  { exists 0. split; [reflexivity|]. split; intro E; discriminate E. }
  destruct (overflow_nonneg _ Hoff) as [-> | ->]; cbn [fadd];
    [|right; exact Hzero].
  destruct (overflow_nonneg (inject_Z n_mc + s * inject_Z n_off)
              ltac:(lra)) as [-> | ->]; cbn [fdiv]; [|right; exact Hzero].
  destruct (Qeq_bool (inject_Z n_mc + s * inject_Z n_off) 0) eqn:Ez.
  - apply Qeq_bool_iff in Ez.
    assert (Hz : inject_Z n_fg == 0) by lra.
    apply Qeq_bool_iff in Hz. rewrite Hz. now left.
  - apply Qeq_bool_false in Ez. right.
    assert (Hden : 0 < inject_Z n_mc + s * inject_Z n_off) by lra.
    assert (H0 : 0 <= inject_Z n_fg / (inject_Z n_mc + s * inject_Z n_off)).
    { apply Qle_shift_div_l; [exact Hden|]. now rewrite Qmult_0_l. }
    assert (H1 : inject_Z n_fg / (inject_Z n_mc + s * inject_Z n_off) <= 1).
    { apply Qle_shift_div_r; [exact Hden|]. rewrite Qmult_1_l. lra. }
    rewrite (overflow_unit H0 H1). eexists. split; [reflexivity|]. auto.
Qed.

Lemma purity_of_cut_inv (l_on l_off : float) (true_category : string)
    (mc offbeam : DataFrame) (cut : string * list condition)
    (kp : string * float) :
  purity_of_cut eval_cond l_on l_off true_category mc offbeam cut = Ok kp ->
  query_error (cond_string (snd cut)) = None
  /\ kp = (fst cut,
           purity_of l_on l_off true_category
             (filter (holds eval_cond (parsed (snd cut))) mc)
             (filter (holds eval_cond (parsed (snd cut))) offbeam)).
Proof.
  unfold purity_of_cut.
  destruct (query_error (cond_string (snd cut))) as [e|] eqn:E.
  - now rewrite (query_of_error eval_cond mc _ e E).
  - rewrite !(query_of_parsed eval_cond _ _ E). cbn [bind].
    intros H. inversion H. auto.
Qed.

Lemma purity_of_cut_ok (l_on l_off : float) (true_category : string)
    (mc offbeam : DataFrame) (cut : string * list condition) :
  query_error (cond_string (snd cut)) = None ->
  purity_of_cut eval_cond l_on l_off true_category mc offbeam cut
  = Ok (fst cut,
        purity_of l_on l_off true_category
          (filter (holds eval_cond (parsed (snd cut))) mc)
          (filter (holds eval_cond (parsed (snd cut))) offbeam)).
Proof.
  intros E. unfold purity_of_cut.
  now rewrite !(query_of_parsed eval_cond _ _ E).
Qed.

Lemma purity_of_cut_error (l_on l_off : float) (true_category : string)
    (mc offbeam : DataFrame) (cut : string * list condition) (e : exn) :
  query_error (cond_string (snd cut)) = Some e ->
  purity_of_cut eval_cond l_on l_off true_category mc offbeam cut
  = Raise e.
Proof.
  intros E. unfold purity_of_cut.
  now rewrite (query_of_error eval_cond mc _ e E).
Qed.

(** X7.  Every purity [calculate_purity_by_cut] prints, the no-cut value
    included, is NaN or lies between 0 and 1, provided the livetime ratio
    is finite and not negative: the value is never infinite and never
    outside the unit interval. *)
Theorem purity_by_cut_in_unit_interval
    (all_samples : list sample_dict) (cuts : list (string * list condition))
    (true_category : string) (no_cut_pur : float)
    (purs : list (string * float)) (onbeam offbeam : sample_dict) (s : Q) :
  calculate_purity_by_cut eval_cond all_samples cuts true_category
  = Ok (no_cut_pur, purs) ->
  find_sample all_samples "onbeam" = Ok onbeam ->
  find_sample all_samples "offbeam" = Ok offbeam ->
  fdiv (livetime onbeam) (livetime offbeam) = Fin s -> 0 <= s ->
  Forall (fun pur => pur = NaN \/ exists q, pur = Fin q /\ 0 <= q /\ q <= 1)
         (no_cut_pur :: map snd purs).
Proof.
  unfold calculate_purity_by_cut. intros H Hon Hoff Hs Hpos.
  rewrite Hon, Hoff in H.
  destruct (find_sample all_samples "mc_nu_pur") as [nu|]; cbn [bind] in H;
    [|discriminate].
  destruct (find_sample all_samples "mc_cos_pur") as [cos|]; cbn [bind] in H;
    [|discriminate].
  destruct (find_sample all_samples "offbeam_pur") as [off_pur|];
    cbn [bind] in H; [|discriminate].
  destruct (find_sample all_samples "mc_nu") as [mc_nu|]; cbn [bind] in H;
    [|discriminate].
  destruct (for_each _ cuts) as [ps|] eqn:Eps; cbn [bind] in H;
    [|discriminate].
  inversion H; subst no_cut_pur purs; clear H. constructor.
  - now apply purity_of_range with s.
  - apply Forall_forall. intros pur Hpur. apply in_map_iff in Hpur.
    destruct Hpur as (kp & <- & Hkp).
    destruct (@for_each_In _ _ _ _ _ _ Eps Hkp) as (c & _ & Hc).
    apply purity_of_cut_inv in Hc. destruct Hc as [_ ->]. cbn [snd].
    now apply purity_of_range with s.
Qed.

Lemma find_sample_map (g : sample_dict -> sample_dict)
    (l : list sample_dict) (name : string) :
  (forall d, sample (g d) = sample d) ->
  find_sample (map g l) name
  = match find_sample l name with
    | Ok d => Ok (g d)
    | Raise e => Raise e
    end.
Proof.
  intros Hg. unfold find_sample.
  induction l as [|d l IH]; [reflexivity|].
  cbn [map filter]. rewrite Hg.
  destruct (String.eqb (sample d) name); [reflexivity|exact IH].
Qed.

(** X8.  [calculate_purity_by_cut] looks the exposures up and never uses
    them: whatever exposures the samples carry, the printed purities are
    the same (the simulated events are not scaled to the data, unlike in
    [calculate_purity]). *)
Theorem purity_by_cut_ignores_pot
    (all_samples : list sample_dict) (cuts : list (string * list condition))
    (true_category : string) (new_pot : sample_dict -> float) :
  calculate_purity_by_cut eval_cond
    (map (fun d => with_pot (new_pot d) d) all_samples) cuts true_category
  = calculate_purity_by_cut eval_cond all_samples cuts true_category.
Proof.
  unfold calculate_purity_by_cut.
  rewrite !(find_sample_map (fun d => with_pot (new_pot d) d))
    by reflexivity.
  destruct (find_sample all_samples "mc_nu_pur"); [|reflexivity].
  destruct (find_sample all_samples "mc_cos_pur"); [|reflexivity].
  destruct (find_sample all_samples "offbeam_pur"); [|reflexivity].
  destruct (find_sample all_samples "onbeam"); [|reflexivity].
  destruct (find_sample all_samples "offbeam"); [|reflexivity].
  destruct (find_sample all_samples "mc_nu"); reflexivity.
Qed.

Lemma for_each_purity_error (l_on l_off : float) (true_category : string)
    (mc offbeam : DataFrame) (pre post : list (string * list condition))
    (c : string * list condition) (e : exn) :
  Forall (fun c' => query_error (cond_string (snd c')) = None) pre ->
  query_error (cond_string (snd c)) = Some e ->
  for_each (purity_of_cut eval_cond l_on l_off true_category mc offbeam)
           (pre ++ c :: post)
  = Raise e.
Proof.
  intros Hpre He.
  induction Hpre as [|c0 pre H0 _ IH]; cbn [app for_each].
  - now rewrite (purity_of_cut_error _ _ _ _ _ _ e He).
  - rewrite (purity_of_cut_ok _ _ _ _ _ _ H0). cbn [bind]. now rewrite IH.
Qed.

Lemma for_each_purity_ok (l_on l_off : float) (true_category : string)
    (mc offbeam : DataFrame) (cuts : list (string * list condition)) :
  Forall (fun c => query_error (cond_string (snd c)) = None) cuts ->
  for_each (purity_of_cut eval_cond l_on l_off true_category mc offbeam) cuts
  = Ok (map (fun c =>
               (fst c,
                purity_of l_on l_off true_category
                  (filter (holds eval_cond (parsed (snd c))) mc)
                  (filter (holds eval_cond (parsed (snd c))) offbeam)))
            cuts).
Proof.
  induction 1 as [|c0 cuts H0 _ IH]; [reflexivity|]. cbn [for_each map].
  rewrite (purity_of_cut_ok _ _ _ _ _ _ H0). cbn [bind]. now rewrite IH.
Qed.

(** X9.  [calculate_purity_by_cut] raises [IndexError] when one of the
    six samples it looks up is missing (['mc_nu'] among them, read only
    for the unused exposure).  With the six present, the first cut whose
    query string is empty or does not parse makes it raise [ValueError]
    or [SyntaxError]; without such a cut it prints the no-cut purity and
    one purity per cut, under the names and in the order of [cuts].  It
    never fails on a division. *)
Theorem purity_by_cut_outcome
    (all_samples : list sample_dict) (cuts : list (string * list condition))
    (true_category : string) :
  (forall name,
     In name ["mc_nu_pur"; "mc_cos_pur"; "offbeam_pur"; "onbeam";
              "offbeam"; "mc_nu"]%string ->
     (forall d, In d all_samples -> sample d <> name) ->
     calculate_purity_by_cut eval_cond all_samples cuts true_category
     = Raise IndexError)
  /\ ((forall name,
         In name ["mc_nu_pur"; "mc_cos_pur"; "offbeam_pur"; "onbeam";
                  "offbeam"; "mc_nu"]%string ->
         exists d, In d all_samples /\ sample d = name) ->
      (forall pre c post e,
         cuts = pre ++ c :: post ->
         Forall (fun c' => query_error (cond_string (snd c')) = None) pre ->
         query_error (cond_string (snd c)) = Some e ->
         calculate_purity_by_cut eval_cond all_samples cuts true_category
         = Raise e
         /\ ((cond_string (snd c) = [] /\ e = ValueError)
             \/ (cond_string (snd c) <> [] /\ e = SyntaxError)))
      /\ (Forall (fun c => query_error (cond_string (snd c)) = None) cuts ->
          exists no_cut_pur purs,
            calculate_purity_by_cut eval_cond all_samples cuts true_category
            = Ok (no_cut_pur, purs)
            /\ map fst purs = map fst cuts))
  /\ (forall e,
        calculate_purity_by_cut eval_cond all_samples cuts true_category
        = Raise e ->
        e = IndexError \/ e = ValueError \/ e = SyntaxError).
Proof.
  assert (Hraise : forall e,
            calculate_purity_by_cut eval_cond all_samples cuts true_category
            = Raise e ->
            (e = IndexError
             /\ exists name,
                  In name ["mc_nu_pur"; "mc_cos_pur"; "offbeam_pur";
                           "onbeam"; "offbeam"; "mc_nu"]%string
                  /\ find_sample all_samples name = Raise IndexError)
            \/ (e = ValueError \/ e = SyntaxError)).
  { unfold calculate_purity_by_cut. intros e.
    assert (Hmiss : forall name e',
              In name ["mc_nu_pur"; "mc_cos_pur"; "offbeam_pur"; "onbeam";
                       "offbeam"; "mc_nu"]%string ->
              find_sample all_samples name = Raise e' ->
              Raise (A := float * list (string * float)) e' = Raise e ->
              (e = IndexError
               /\ exists name0,
                    In name0 ["mc_nu_pur"; "mc_cos_pur"; "offbeam_pur";
                              "onbeam"; "offbeam"; "mc_nu"]%string
                    /\ find_sample all_samples name0 = Raise IndexError)
              \/ (e = ValueError \/ e = SyntaxError)).
    { intros name e' Hin E H. inversion H; subst e'.
      destruct (find_sample_raise _ _ _ E) as [-> Hm]. left.
      split; [reflexivity|]. exists name. auto. }
    destruct (find_sample all_samples "mc_nu_pur") as [nu|e1] eqn:E1;
      cbn [bind];
      [|apply (Hmiss "mc_nu_pur"%string _ ltac:(simpl; tauto) E1)].
    destruct (find_sample all_samples "mc_cos_pur") as [cos|e2] eqn:E2;
      cbn [bind];
      [|apply (Hmiss "mc_cos_pur"%string _ ltac:(simpl; tauto) E2)].
    destruct (find_sample all_samples "offbeam_pur") as [off_pur|e3] eqn:E3;
      cbn [bind];
      [|apply (Hmiss "offbeam_pur"%string _ ltac:(simpl; tauto) E3)].
    destruct (find_sample all_samples "onbeam") as [on|e4] eqn:E4;
      cbn [bind];
      [|apply (Hmiss "onbeam"%string _ ltac:(simpl; tauto) E4)].
    destruct (find_sample all_samples "offbeam") as [off|e5] eqn:E5;
      cbn [bind];
      [|apply (Hmiss "offbeam"%string _ ltac:(simpl; tauto) E5)].
    destruct (find_sample all_samples "mc_nu") as [mc_nu|e6] eqn:E6;
      cbn [bind];
      [|apply (Hmiss "mc_nu"%string _ ltac:(simpl; tauto) E6)].
    clear Hmiss. intros H. right.
    induction cuts as [|c cuts' IH]; [discriminate|].
    cbn [for_each] in H.
    destruct (query_error (cond_string (snd c))) as [e0|] eqn:Ec.
    + rewrite (purity_of_cut_error _ _ _ _ _ _ e0 Ec) in H. cbn [bind] in H.
      inversion H; subst e0.
      destruct (query_error_kind _ _ Ec) as [[_ ->]|[_ ->]]; auto.
    + rewrite (purity_of_cut_ok _ _ _ _ _ _ Ec) in H. cbn [bind] in H.
      destruct (for_each _ cuts') as [ps|e'] eqn:Eps; cbn [bind] in H;
        [discriminate|].
      now apply IH. }
  assert (Hfind : (forall name,
              In name ["mc_nu_pur"; "mc_cos_pur"; "offbeam_pur"; "onbeam";
                       "offbeam"; "mc_nu"]%string ->
              exists d, In d all_samples /\ sample d = name) ->
            forall name,
              In name ["mc_nu_pur"; "mc_cos_pur"; "offbeam_pur"; "onbeam";
                       "offbeam"; "mc_nu"]%string ->
              exists d, find_sample all_samples name = Ok d).
  { intros Hall name Hin. destruct (Hall name Hin) as (d & Hd & Hn).
    exact (find_sample_present _ _ _ Hd Hn). }
  split; [|split].
  - intros name Hin Hmiss.
    pose proof (find_sample_missing all_samples name Hmiss) as Hf.
    destruct (calculate_purity_by_cut eval_cond all_samples cuts
                true_category) as [res|e] eqn:E.
    + exfalso. unfold calculate_purity_by_cut in E.
      destruct (find_sample all_samples "mc_nu_pur") eqn:E1;
        cbn [bind] in E; [|discriminate].
      destruct (find_sample all_samples "mc_cos_pur") eqn:E2;
        cbn [bind] in E; [|discriminate].
      destruct (find_sample all_samples "offbeam_pur") eqn:E3;
        cbn [bind] in E; [|discriminate].
      destruct (find_sample all_samples "onbeam") eqn:E4;
        cbn [bind] in E; [|discriminate].
      destruct (find_sample all_samples "offbeam") eqn:E5;
        cbn [bind] in E; [|discriminate].
      destruct (find_sample all_samples "mc_nu") eqn:E6;
        cbn [bind] in E; [|discriminate].
      cbn [In] in Hin.
      destruct Hin as [<-|[<-|[<-|[<-|[<-|[<-|[]]]]]]]; congruence.
    + unfold calculate_purity_by_cut in E.
      destruct (find_sample all_samples "mc_nu_pur") as [d1|e1] eqn:E1;
        cbn [bind] in E;
        [|destruct (find_sample_raise _ _ _ E1) as [-> _]; congruence].
      destruct (find_sample all_samples "mc_cos_pur") as [d2|e2] eqn:E2;
        cbn [bind] in E;
        [|destruct (find_sample_raise _ _ _ E2) as [-> _]; congruence].
      destruct (find_sample all_samples "offbeam_pur") as [d3|e3] eqn:E3;
        cbn [bind] in E;
        [|destruct (find_sample_raise _ _ _ E3) as [-> _]; congruence].
      destruct (find_sample all_samples "onbeam") as [d4|e4] eqn:E4;
        cbn [bind] in E;
        [|destruct (find_sample_raise _ _ _ E4) as [-> _]; congruence].
      destruct (find_sample all_samples "offbeam") as [d5|e5] eqn:E5;
        cbn [bind] in E;
        [|destruct (find_sample_raise _ _ _ E5) as [-> _]; congruence].
      destruct (find_sample all_samples "mc_nu") as [d6|e6] eqn:E6;
        cbn [bind] in E;
        [|destruct (find_sample_raise _ _ _ E6) as [-> _]; congruence].
      exfalso. cbn [In] in Hin.
      destruct Hin as [<-|[<-|[<-|[<-|[<-|[<-|[]]]]]]]; congruence.
  - intros Hall. specialize (Hfind Hall).
    unfold calculate_purity_by_cut.
    destruct (Hfind "mc_nu_pur"%string ltac:(simpl; tauto)) as [d1 ->].
    destruct (Hfind "mc_cos_pur"%string ltac:(simpl; tauto)) as [d2 ->].
    destruct (Hfind "offbeam_pur"%string ltac:(simpl; tauto)) as [d3 ->].
    destruct (Hfind "onbeam"%string ltac:(simpl; tauto)) as [d4 ->].
    destruct (Hfind "offbeam"%string ltac:(simpl; tauto)) as [d5 ->].
    destruct (Hfind "mc_nu"%string ltac:(simpl; tauto)) as [d6 ->].
    cbn [bind]. split.
    + intros pre c post e -> Hpre He.
      rewrite (for_each_purity_error _ _ _ _ _ pre post c e Hpre He).
      split; [reflexivity|exact (query_error_kind _ _ He)].
    + intros Hok. rewrite (for_each_purity_ok _ _ _ _ _ cuts Hok).
      cbn [bind]. eexists. eexists. split; [reflexivity|].
      rewrite map_map. reflexivity.
  - intros e He. destruct (Hraise e He) as [[-> _]|[->| ->]]; auto.
Qed.

Lemma holds_glue (ds1 ds2 : list (list string)) (r : row) :
  ds1 <> [] -> ds2 <> [] ->
  holds eval_cond ds1 r = true -> holds eval_cond ds2 r = true ->
  holds eval_cond
    (removelast ds1 ++ (last ds1 [] ++ hd [] ds2) :: tl ds2) r = true.
Proof.
  intros H1 H2 Hh1 Hh2. unfold holds in *.
  rewrite (app_removelast_last [] H1) in Hh1.
  destruct ds2 as [|d2 ds2']; [congruence|]. cbn [hd tl].
  rewrite existsb_app in *. cbn [existsb] in *.
  rewrite forallb_app.
  destruct (existsb _ (removelast ds1)); [reflexivity|].
  destruct (existsb _ ds2'); [now rewrite orb_true_r|].
  rewrite !orb_false_r in *. cbn [orb] in *. now rewrite Hh1, Hh2.
Qed.

(** The joined string of conditions that parse one by one parses, and a
    row that satisfies every condition satisfies it. *)
Lemma join_parses (value : list condition) (rows : DataFrame) :
  value <> [] ->
  (forall c, In c value ->
     exists ds, disjuncts c = Ok ds
                /\ forall r, In r rows -> holds eval_cond ds r = true) ->
  exists ds,
    disjuncts (join value) = Ok ds
    /\ forall r, In r rows -> holds eval_cond ds r = true.
Proof.
  induction value as [|c rest IH]; intros Hne Hall; [congruence|].
  destruct (Hall c (or_introl eq_refl)) as (ds1 & Hd1 & Hr1).
  destruct rest as [|c' rest'].
  - exists ds1. auto.
  - destruct IH as (ds2 & Hd2 & Hr2); [discriminate| |].
    { intros c0 Hc0. apply Hall. now right. }
    change (join (c :: c' :: rest')) with (c ++ Amp :: join (c' :: rest')).
    rewrite (@disjuncts_amp _ _ _ _ Hd1 Hd2). eexists.
    split; [reflexivity|]. intros r Hr.
    destruct (@disjuncts_nonempty _ _ Hd1) as [N1 _].
    destruct (@disjuncts_nonempty _ _ Hd2) as [N2 _].
    apply holds_glue; auto.
Qed.

(** X10.  A cut that every simulated and every off-beam event passes,
    each of its conditions read on its own, leaves the purity at the
    no-cut value. *)
Theorem purity_of_cut_that_removes_nothing
    (livetime_onbeam livetime_offbeam : float) (true_category : string)
    (mc offbeam : DataFrame) (cut : string * list condition) :
  snd cut <> [] ->
  (forall c, In c (snd cut) ->
     exists ds,
       disjuncts c = Ok ds
       /\ forall r, In r (mc ++ offbeam) -> holds eval_cond ds r = true) ->
  purity_of_cut eval_cond livetime_onbeam livetime_offbeam true_category
    mc offbeam cut
  = Ok (fst cut,
        purity_of livetime_onbeam livetime_offbeam true_category mc offbeam).
Proof.
  intros Hne Hall.
  destruct (join_parses (snd cut) (mc ++ offbeam) Hne Hall)
    as (ds & Hds & Hr).
  rewrite <- (@cond_string_join (snd cut)) in Hds.
  assert (E : query_error (cond_string (snd cut)) = None).
  { unfold query_error. rewrite Hds.
    destruct (@disjuncts_nonempty _ _ Hds) as [_ N].
    now destruct (cond_string (snd cut)). }
  rewrite (purity_of_cut_ok _ _ _ _ _ _ E).
  unfold parsed. rewrite Hds.
  rewrite !filter_all; [reflexivity| |].
  - intros r Hin. apply Hr. apply in_or_app. now right.
  - intros r Hin. apply Hr. apply in_or_app. now left.
Qed.

End PurityByCutProps.

Lemma purity_by_cut_in_unit_interval_witness :
  Forall (fun pur => pur = NaN \/ exists q, pur = Fin q /\ 0 <= q /\ q <= 1)
         [Fin ((2 # 1) / ((3 # 1) + (1 # 2) * (2 # 1)));
          Fin ((1 # 1) / ((1 # 1) + (1 # 2) * (1 # 1)))].
Proof.
  apply (purity_by_cut_in_unit_interval eval_eq_1
           (purity_by_cut_samples
              [flagged 0 1; flagged 0 0; flagged 3 0]
              [flagged 7 1; flagged 7 0] 1 2)
           [("Flash Cut"%string,
             [atom "reco_flash_icarus_satisfied == 1"])]
           ("true_category"%string) _
           [("Flash Cut"%string,
             Fin ((1 # 1) / ((1 # 1) + (1 # 2) * (1 # 1))))]
           {| sample := "onbeam"; df := []; pot := Fin 1;
              livetime := Fin 1 |}
           {| sample := "offbeam"; df := []; pot := Fin 1;
              livetime := Fin 2 |}
           (1 # 2)).
  - vm_compute. reflexivity.
  - reflexivity.
  - reflexivity.
  - reflexivity.
  - intro H; discriminate H.
Defined.

Lemma purity_by_cut_outcome_example :
  PurityByCut.calculate_purity_by_cut eval_eq_1
    (purity_by_cut_samples [flagged 0 1] [flagged 7 1] 1 2)
    [("Empty"%string, [])] "true_category"
  = Raise ValueError
  /\ PurityByCut.calculate_purity_by_cut eval_eq_1
       (tl (purity_by_cut_samples [flagged 0 1] [flagged 7 1] 1 2))
       [("Flash Cut"%string, [atom "reco_flash_icarus_satisfied == 1"])]
       "true_category"
     = Raise IndexError.
Proof. split; reflexivity. Qed.

Lemma purity_of_cut_that_removes_nothing_witness :
  PurityByCut.purity_of_cut eval_eq_1 (Fin 1) (Fin 2) "true_category"
    [flagged 0 1; flagged 3 1] [flagged 7 1]
    ("Flash Cut"%string,
     [atom "reco_flash_icarus_satisfied == 1";
      [PurEff.Cond "true_category == 1"; PurEff.Bar;
       PurEff.Cond "reco_flash_icarus_satisfied == 1"]])
  = Ok ("Flash Cut"%string,
        PurityByCut.purity_of (Fin 1) (Fin 2) "true_category"
          [flagged 0 1; flagged 3 1] [flagged 7 1]).
Proof.
  apply (purity_of_cut_that_removes_nothing eval_eq_1).
  - discriminate.
  - intros c Hc. simpl in Hc.
    destruct Hc as [<-|[<-|[]]]; eexists; (split; [reflexivity|]);
      intros r Hr; simpl in Hr;
      destruct Hr as [<-|[<-|[<-|[]]]]; reflexivity.
Defined.

(** ** [plot_eff_by_var]: what a returned result holds *)

Section PlotEffReturned.

Lemma filter_none {A : Type} (p : A -> bool) (l : list A) :
  (forall x, In x l -> p x = false) -> filter p l = [].
Proof.
  induction l as [|a l IH]; intros H; simpl; [reflexivity|].
  rewrite (H a (or_introl eq_refl)). apply IH.
  intros x Hx. apply H. now right.
Qed.

Lemma cut_raises (x : list float) (bins : list Q) (e : exn) :
  cut x bins = Raise e -> e = ValueError.
Proof.
  unfold cut.
  repeat match goal with
         | |- context [if ?b then _ else _] => destruct b
         end; congruence.
Qed.

(** X11.  When no signal event lies strictly between the first and the
    last entry of the range (an empty signal sample included),
    [plot_eff_by_var] raises [ValueError]. *)
Theorem empty_selection_raises (observed : bool)
    (all_samples : list sample_dict) (var : string) (config : var_config)
    (ana_eff_bins_equal : bool) (nbins_eff : nat)
    (sig : sample_dict) (lo hi : Q) :
  find_sample all_samples "signal" = Ok sig ->
  first (range config) = Ok lo ->
  last_item (range config) = Ok hi ->
  (forall r, In r (df sig) -> in_range lo hi (r var) = false) ->
  plot_eff_by_var observed all_samples var config ana_eff_bins_equal
    nbins_eff = Raise ValueError.
Proof.
  intros Hsig Hlo Hhi Hout. unfold plot_eff_by_var.
  rewrite Hsig, Hlo, Hhi. cbn [bind].
  assert (E : filter_range var lo hi (df sig) = [])
    by (apply filter_none; exact Hout).
  rewrite E.
  cbn [map].
  destruct (cut [] (range config)) as [a|e] eqn:Ea; cbn [bind].
  2:{ now rewrite (cut_raises _ _ _ Ea). }
  assert (a = []) as ->.
  { unfold cut in Ea. cbn [map] in Ea.
    repeat match type of Ea with
           | context [if ?b then _ else _] => destruct b
           end; congruence. }
  destruct (cut [] (linspace lo hi _)) as [a'|e] eqn:Ea'; cbn [bind].
  2:{ now rewrite (cut_raises _ _ _ Ea'). }
  reflexivity.
Qed.

Lemma empty_selection_raises_witness :
  plot_eff_by_var false [signal_sample [event 0 1; event 25 1]] "x"
    {| range := [0; 20]; nbins := 2 |} true 25 = Raise ValueError.
Proof.
  apply (empty_selection_raises false
           [signal_sample [event 0 1; event 25 1]] "x"
           {| range := [0; 20]; nbins := 2 |} true 25
           (signal_sample [event 0 1; event 25 1]) 0 20 eq_refl eq_refl
           eq_refl).
  intros r [<-|[<-|[]]]; reflexivity.
Defined.

Lemma unique_from_complete (seen l : list (option nat)) (x : option nat) :
  In x l ->
  In x (unique_from seen l) \/ existsb (option_nat_eqb x) seen = true.
Proof.
  revert seen. induction l as [|y l IH]; intros seen Hin; [destruct Hin|].
  cbn [unique_from].
  destruct (existsb (option_nat_eqb y) seen) eqn:Ey.
  - destruct Hin as [->|Hin]; [now right|]. now apply IH.
  - destruct Hin as [->|Hin]; [left; now left|].
    destruct (IH (y :: seen) Hin) as [H|H]; [left; now right|].
    cbn [existsb] in H. apply orb_true_iff in H. destruct H as [H|H].
    + apply option_nat_eqb_eq in H. subst x. left. now left.
    + now right.
Qed.

Lemma unique_complete (l : list (option nat)) (x : option nat) :
  In x l -> In x (unique l).
Proof.
  intros H. destruct (unique_from_complete [] l x H) as [H'|H'];
    [exact H'|discriminate].
Qed.

Lemma unique_from_NoDup (seen l : list (option nat)) :
  NoDup (unique_from seen l)
  /\ forall x, In x (unique_from seen l) ->
               existsb (option_nat_eqb x) seen = false.
Proof.
  revert seen. induction l as [|y l IH]; intros seen; cbn [unique_from].
  - split; [constructor|intros x []].
  - destruct (existsb (option_nat_eqb y) seen) eqn:Ey; [apply IH|].
    destruct (IH (y :: seen)) as [Hnd Hseen]. split.
    + constructor; [|exact Hnd]. intros Hin. apply Hseen in Hin.
      cbn [existsb] in Hin. apply orb_false_iff in Hin.
      destruct Hin as [Hin _].
      assert (E : option_nat_eqb y y = true) by now apply option_nat_eqb_eq.
      congruence.
    + intros x [<-|Hx]; [exact Ey|].
      apply Hseen in Hx. cbn [existsb] in Hx.
      now apply orb_false_iff in Hx.
Qed.

Lemma sorted_length (l : list Q) : length (sorted l) = length l.
Proof.
  assert (Hins : forall x l0, length (insert_sorted x l0) = S (length l0)).
  { intros x l0. induction l0 as [|y l0 IH]; simpl; [reflexivity|].
    destruct (Qltb y x); simpl; [now rewrite IH|reflexivity]. }
  unfold sorted. induction l as [|x l IH]; cbn [fold_right length];
    [reflexivity|].
  now rewrite Hins, IH.
Qed.

Lemma Forall2_In_left {A B : Type} (R : A -> B -> Prop) (xs : list A)
    (ys : list B) (x : A) :
  Forall2 R xs ys -> In x xs -> exists y, In y ys /\ R x y.
Proof.
  induction 1 as [|x0 y0 xs ys Hxy _ IH]; intros Hin; [destruct Hin|].
  destruct Hin as [<-|Hin].
  - exists y0. split; [now left|exact Hxy].
  - destruct (IH Hin) as (y & Hy & Hr). exists y. split; [now right|exact Hr].
Qed.

Lemma hedges_inv (bins : list Q) (codes : list (option nat)) (h : list Q) :
  hedges bins codes = Ok h ->
  (forall c, In c codes -> exists k, c = Some k)
  /\ length h = S (length (unique codes)).
Proof.
  unfold hedges.
  destruct (for_each (attr left bins) (unique codes)) as [lefts|] eqn:El;
    cbn [bind]; [|discriminate].
  destruct (for_each (attr right bins) (unique codes)) as [rights|];
    cbn [bind]; [|discriminate].
  destruct (py_max rights); cbn [bind]; [|discriminate].
  intros H. inversion H; subst h; clear H.
  apply for_each_inv in El. split.
  - intros c Hc. apply unique_complete in Hc.
    destruct (Forall2_In_left _ _ _ _ El Hc) as (y & _ & Hy).
    destruct c as [k|]; [eauto|discriminate].
  - rewrite length_app, sorted_length. cbn [length].
    rewrite <- (Forall2_length El). lia.
Qed.

Lemma cut_code_lt (bins : list Q) (x : float) (k : nat) :
  cut_code bins x = Some k -> (S k < length bins)%nat.
Proof.
  unfold cut_code. destruct x as [q| | |]; try discriminate.
  pose proof (searchsorted_left_le bins q) as Hle.
  destruct (Nat.eqb_spec (searchsorted_left bins q) 0); [discriminate|].
  destruct (Nat.eqb_spec (searchsorted_left bins q) (length bins));
    [discriminate|].
  intros H. inversion H. lia.
Qed.

(** What a returned result was computed from. *)
Lemma plot_eff_by_var_inv (observed : bool)
    (all_samples : list sample_dict) (var : string) (config : var_config)
    (ana_eff_bins_equal : bool) (nbins_eff : nat)
    (sig : sample_dict) (lo hi : Q) (n : nat) (res : eff_by_var) :
  find_sample all_samples "signal" = Ok sig ->
  first (range config) = Ok lo ->
  last_item (range config) = Ok hi ->
  n = (if ana_eff_bins_equal then nbins config else nbins_eff) ->
  plot_eff_by_var observed all_samples var config ana_eff_bins_equal
    nbins_eff = Ok res ->
  let sig_df := filter_range var lo hi (df sig) in
  let eff_bins := linspace lo hi (n + 1) in
  let ana_code := fun r : row => cut_code (range config) (r var) in
  let eff_code := fun r : row => cut_code eff_bins (r var) in
  hedges (range config) (map ana_code sig_df) = Ok (hedges_ana res)
  /\ hedges eff_bins (map eff_code sig_df) = Ok (hedges_eff res)
  /\ counts res
     = map (fun g => len (snd g))
           (groupby observed (length (range config) - 1)
                    (map ana_code sig_df) sig_df)
  /\ for_each (eff_loop_body eff_bins)
       (groupby observed n (map eff_code sig_df) sig_df)
     = Ok (points res).
Proof.
  intros Hsig Hlo Hhi Hn. unfold plot_eff_by_var.
  rewrite Hsig, Hlo, Hhi. cbn [bind]. rewrite <- Hn.
  rewrite linspace_length, Nat.add_sub.
  unfold cut.
  destruct (negb (monotonic_increasing (range config))); cbn [bind];
    [discriminate|].
  destruct (has_duplicates (range config) && _); cbn [bind]; [discriminate|].
  destruct (negb (monotonic_increasing (linspace lo hi (n + 1))));
    cbn [bind]; [discriminate|].
  destruct (has_duplicates (linspace lo hi (n + 1)) && _); cbn [bind];
    [discriminate|].
  rewrite !map_map.
  destruct (hedges (range config) _) as [ha|]; cbn [bind]; [|discriminate].
  destruct (hedges (linspace lo hi (n + 1)) _) as [he|]; cbn [bind];
    [|discriminate].
  destruct (for_each _ _) as [pts|]; cbn [bind]; [|discriminate].
  intros H. inversion H; subst res; clear H. cbn.
  repeat split; reflexivity.
Qed.

End PlotEffReturned.

(** ** [plot_eff_by_var]: every in-range event is counted once *)

Section PlotEffConservation.

Local Open Scope Z_scope.

Lemma Zsum_map_add {A : Type} (a b : A -> Z) (l : list A) :
  Zsum (map (fun x => a x + b x) l) = Zsum (map a l) + Zsum (map b l).
Proof.
  induction l as [|x l IH]; simpl; [reflexivity|]. rewrite IH. lia.
Qed.

Lemma Zsum_indicator (k0 s n : nat) :
  Zsum (map (fun k => if option_nat_eqb (Some k0) (Some k) then 1 else 0)
            (seq s n))
  = if ((s <=? k0)%nat && (k0 <? s + n)%nat)%bool then 1 else 0.
Proof.
  revert s. induction n as [|n IH]; intros s; cbn [seq map Zsum fold_right].
  - destruct (Nat.leb_spec s k0), (Nat.ltb_spec k0 (s + 0)); simpl;
      try reflexivity; lia.
  - fold (Zsum (map (fun k => if option_nat_eqb (Some k0) (Some k)
                               then 1 else 0) (seq (S s) n))).
    rewrite IH. cbn [option_nat_eqb].
    destruct (Nat.eqb_spec k0 s), (Nat.leb_spec s k0),
      (Nat.leb_spec (S s) k0), (Nat.ltb_spec k0 (S s + n)),
      (Nat.ltb_spec k0 (s + S n)); simpl; try reflexivity; lia.
Qed.

Lemma Zsum_groups (f : row -> option nat) (d : DataFrame) (n : nat) :
  (forall r, In r d -> exists k, (k < n)%nat /\ f r = Some k) ->
  Zsum (map (fun k => len (filter (fun r => option_nat_eqb (f r) (Some k)) d))
            (seq 0 n))
  = len d.
Proof.
  induction d as [|r d IH]; intros H.
  - cbn [filter]. unfold len. cbn [length].
    induction (seq 0 n) as [|k l IHl]; [reflexivity|].
    cbn [map Zsum fold_right]. fold (Zsum (map (fun _ : nat => Z.of_nat 0) l)).
    rewrite IHl. reflexivity.
  - destruct (H r (or_introl eq_refl)) as (k0 & Hk0 & Hf).
    rewrite (map_ext _
      (fun k => (if option_nat_eqb (Some k0) (Some k) then 1 else 0)
                + len (filter (fun r0 => option_nat_eqb (f r0) (Some k)) d))).
    + rewrite Zsum_map_add, Zsum_indicator, IH.
      * replace ((0 <=? k0)%nat && (k0 <? 0 + n)%nat)%bool with true.
        -- unfold len. cbn [length]. lia.
        -- symmetry. apply andb_true_iff. split;
             [apply Nat.leb_le|apply Nat.ltb_lt]; lia.
      * intros r' Hr'. apply H. now right.
    + intros k. cbn [filter]. rewrite Hf.
      destruct (option_nat_eqb (Some k0) (Some k)); unfold len;
        cbn [length]; lia.
Qed.

Lemma Zsum_filter_zero {A : Type} (h : A -> Z) (p : A -> bool) (l : list A) :
  (forall x, p x = false -> h x = 0) ->
  Zsum (map h (filter p l)) = Zsum (map h l).
Proof.
  intros H. induction l as [|x l IH]; simpl; [reflexivity|].
  destruct (p x) eqn:E; simpl; rewrite IH; [reflexivity|].
  rewrite (H x E). lia.
Qed.

Lemma Zsum_groupby (observed : bool) (f : row -> option nat)
    (d : DataFrame) (n : nat) :
  (forall r, In r d -> exists k, (k < n)%nat /\ f r = Some k) ->
  Zsum (map (fun g => len (snd g)) (groupby observed n (map f d) d)) = len d.
Proof.
  intros H. unfold groupby.
  assert (Hall : Zsum (map (fun g : nat * DataFrame => len (snd g))
                   (map (fun k => (k, map snd (filter (fun cr =>
                      option_nat_eqb (fst cr) (Some k))
                      (combine (map f d) d)))) (seq 0 n))) = len d).
  { rewrite map_map. cbn [snd]. rewrite <- (Zsum_groups f d n H).
    f_equal. apply map_ext. intros k. now rewrite group_rows_filter. }
  destruct observed; [|exact Hall].
  rewrite Zsum_filter_zero; [exact Hall|].
  intros g Hg. apply negb_false_iff, Nat.eqb_eq in Hg.
  unfold len. lia.
Qed.

(** X12.  Whenever [plot_eff_by_var] returns, the numbers of events of
    the analysis bins, and the totals of the efficiency bins, each add up
    to the number of signal events that pass the range filter: every
    such event is counted in exactly one bin of either binning. *)
Theorem in_range_events_counted_once (observed : bool)
    (all_samples : list sample_dict) (var : string) (config : var_config)
    (ana_eff_bins_equal : bool) (nbins_eff : nat)
    (sig : sample_dict) (lo hi : Q) (res : eff_by_var) :
  find_sample all_samples "signal" = Ok sig ->
  first (range config) = Ok lo ->
  last_item (range config) = Ok hi ->
  plot_eff_by_var observed all_samples var config ana_eff_bins_equal
    nbins_eff = Ok res ->
  Zsum (counts res) = len (filter_range var lo hi (df sig))
  /\ Zsum (map total_count (points res))
     = len (filter_range var lo hi (df sig)).
Proof.
  intros Hsig Hlo Hhi Hres.
  destruct (plot_eff_by_var_inv observed all_samples var config
              ana_eff_bins_equal nbins_eff sig lo hi _ res
              Hsig Hlo Hhi eq_refl Hres) as (Ha & He & Hc & Hp).
  set (n := if ana_eff_bins_equal then nbins config else nbins_eff) in *.
  split.
  - rewrite Hc. apply Zsum_groupby. intros r Hr.
    apply hedges_inv in Ha. destruct Ha as [Hsome _].
    destruct (Hsome _ (in_map _ _ _ Hr)) as [k Hk].
    exists k. split; [|exact Hk].
    apply cut_code_lt in Hk. lia.
  - rewrite (@for_each_map _ _ _ _ total_count (fun g => len (snd g))
               _ _ (fun g p Hg => proj1 (@eff_loop_body_ok _ g p Hg)) Hp).
    apply Zsum_groupby. intros r Hr.
    apply hedges_inv in He. destruct He as [Hsome _].
    destruct (Hsome _ (in_map _ _ _ Hr)) as [k Hk].
    exists k. split; [|exact Hk].
    apply cut_code_lt in Hk. rewrite linspace_length in Hk. lia.
Qed.

End PlotEffConservation.

Lemma in_range_events_counted_once_witness :
  exists res,
    plot_eff_by_var false
      [signal_sample [event 0 1; event 5 1; event 15 1; event 16 1;
                      event 20 1]]
      "x" {| range := [0; 10; 20]; nbins := 2 |} true 25 = Ok res
    /\ Zsum (counts res) = 3%Z /\ Zsum (map total_count (points res)) = 3%Z.
Proof.
  assert (Hrun : exists res,
    plot_eff_by_var false
      [signal_sample [event 0 1; event 5 1; event 15 1; event 16 1;
                      event 20 1]]
      "x" {| range := [0; 10; 20]; nbins := 2 |} true 25 = Ok res).
  { vm_compute. eexists. reflexivity. }
  destruct Hrun as [res Hres]. exists res. split; [exact Hres|].
  exact (in_range_events_counted_once false
           [signal_sample [event 0 1; event 5 1; event 15 1; event 16 1;
                           event 20 1]]
           "x" {| range := [0; 10; 20]; nbins := 2 |} true 25
           (signal_sample [event 0 1; event 5 1; event 15 1; event 16 1;
                           event 20 1]) 0 20 res eq_refl eq_refl eq_refl
           Hres).
Defined.


(** ** [plot_eff_by_var]: the edges handed to the histograms *)

Section PlotEffEdges.

Lemma filter_length_lt {A : Type} (p : A -> bool) (l : list A) (x : A) :
  In x l -> p x = false -> (length (filter p l) < length l)%nat.
Proof.
  induction l as [|a l IH]; intros Hin Hp; [destruct Hin|].
  pose proof (filter_length_le p l) as Hle. cbn [filter length].
  destruct Hin as [->|Hin].
  - rewrite Hp. lia.
  - specialize (IH Hin Hp). destruct (p a); cbn [length]; lia.
Qed.

Lemma NoDup_map_Some {A : Type} (l : list A) :
  NoDup l -> NoDup (map Some l).
Proof.
  induction 1 as [|x l Hx _ IH]; cbn [map]; constructor; [|exact IH].
  intros Hin. apply in_map_iff in Hin. destruct Hin as (y & E & Hy).
  inversion E. now subst y.
Qed.

Lemma eff_code_eff_bin (var : string) (lo hi : Q) (n : nat) (r : row) :
  in_range lo hi (r var) = true ->
  cut_code (linspace lo hi (n + 1)) (r var) = eff_bin lo hi n (r var).
Proof. intros H. unfold eff_bin. now rewrite H. Qed.

Lemma occupied_spec (var : string) (lo hi : Q) (n : nat) (d : DataFrame)
    (k : nat) :
  occupied var lo hi n d k = true <->
  exists r, In r (filter_range var lo hi d)
            /\ cut_code (linspace lo hi (n + 1)) (r var) = Some k.
Proof.
  unfold occupied. rewrite existsb_exists. split.
  - intros (r & Hr & Hk). apply option_nat_eqb_eq in Hk.
    assert (Hin : in_range lo hi (r var) = true).
    { unfold eff_bin in Hk. destruct (in_range lo hi (r var));
        [reflexivity|discriminate]. }
    exists r. split; [apply filter_In; auto|].
    now rewrite eff_code_eff_bin.
  - intros (r & Hr & Hk). apply filter_In in Hr. destruct Hr as [Hr Hin].
    exists r. split; [exact Hr|]. apply option_nat_eqb_eq.
    now rewrite <- eff_code_eff_bin.
Qed.

Lemma th1d_arguments_inv
    (all_samples : list sample_dict) (var : string) (config : var_config)
    (ana_eff_bins_equal : bool) (nbins_eff : nat)
    (sig : sample_dict) (lo hi : Q) (n nb : nat) (edges : list Q) :
  find_sample all_samples "signal" = Ok sig ->
  first (range config) = Ok lo ->
  last_item (range config) = Ok hi ->
  n = (if ana_eff_bins_equal then nbins config else nbins_eff) ->
  Histograms.th1d_arguments all_samples var config ana_eff_bins_equal
    nbins_eff = Ok (nb, edges) ->
  nb = n
  /\ hedges (linspace lo hi (n + 1))
       (map (fun r : row => cut_code (linspace lo hi (n + 1)) (r var))
            (filter_range var lo hi (df sig)))
     = Ok edges.
Proof.
  intros Hsig Hlo Hhi Hn. unfold Histograms.th1d_arguments.
  rewrite Hsig, Hlo, Hhi. cbn [bind]. rewrite <- Hn.
  unfold cut.
  destruct (negb (monotonic_increasing (range config))); cbn [bind];
    [discriminate|].
  destruct (has_duplicates (range config) && _); cbn [bind]; [discriminate|].
  destruct (negb (monotonic_increasing (linspace lo hi (n + 1))));
    cbn [bind]; [discriminate|].
  destruct (has_duplicates (linspace lo hi (n + 1)) && _); cbn [bind];
    [discriminate|].
  rewrite !map_map.
  destruct (hedges (range config) _) as [ha|]; cbn [bind]; [|discriminate].
  destruct (hedges (linspace lo hi (n + 1)) _) as [he|]; cbn [bind];
    [|discriminate].
  intros H. inversion H. auto.
Qed.

(** X13.  The histograms [hpass] and [htotal] are constructed with
    [_nbins_eff] bins and the list [hedges_eff] of efficiency edges.  With
    increasing range entries, at least one efficiency bin and a signal
    event inside the range, the construction is reached, and the list
    has one entry more than there are efficiency bins that hold an
    event: the [n + 1] edges of a histogram with [n] bins when no bin is
    empty, and fewer than the histogram is told to read as soon as one
    is. *)
Theorem hedges_eff_length
    (all_samples : list sample_dict) (var : string) (config : var_config)
    (ana_eff_bins_equal : bool) (nbins_eff : nat)
    (sig : sample_dict) (lo hi : Q) (n : nat) :
  find_sample all_samples "signal" = Ok sig ->
  first (range config) = Ok lo ->
  last_item (range config) = Ok hi ->
  n = (if ana_eff_bins_equal then nbins config else nbins_eff) ->
  (increasing (range config) -> (0 < n)%nat ->
   (exists r, In r (df sig) /\ in_range lo hi (r var) = true) ->
   exists edges,
     Histograms.th1d_arguments all_samples var config ana_eff_bins_equal
       nbins_eff = Ok (n, edges))
  /\ forall nb edges,
       Histograms.th1d_arguments all_samples var config ana_eff_bins_equal
         nbins_eff = Ok (nb, edges) ->
       nb = n
       /\ length edges
          = S (length (filter (occupied var lo hi n (df sig)) (seq 0 n)))
       /\ ((forall k, (k < n)%nat ->
              occupied var lo hi n (df sig) k = true) ->
           length edges = (n + 1)%nat)
       /\ ((exists k, (k < n)%nat
                      /\ occupied var lo hi n (df sig) k = false) ->
           (length edges < n + 1)%nat).
Proof.
  intros Hsig Hlo Hhi Hn. split.
  - intros Hinc Hpos (r0 & Hr0 & Hin0).
    pose proof (proj1 (@in_range_spec lo hi (r0 var)) Hin0)
      as (q0 & _ & Hq1 & Hq2).
    assert (Hlt : lo < hi) by lra.
    unfold Histograms.th1d_arguments.
    rewrite Hsig, Hlo, Hhi. cbn [bind]. rewrite <- Hn.
    destruct (@increasing_accepted_by_cut _ Hinc) as [Hm Hd].
    rewrite (@cut_ok _ _ Hm Hd). cbn [bind].
    destruct (@increasing_accepted_by_cut _
                (@linspace_increasing lo hi n Hlt Hpos)) as [Hm' Hd'].
    rewrite (@cut_ok _ _ Hm' Hd'). cbn [bind]. rewrite !map_map.
    set (sig_df := filter_range var lo hi (df sig)).
    assert (Hne : sig_df <> []).
    { intro E. assert (H : In r0 sig_df) by (apply filter_In; auto).
      rewrite E in H. destruct H. }
    match goal with
    | |- context [hedges (range config) ?codes] =>
        destruct (@hedges_ok (range config) codes) as [ha ->]
    end.
    { intro E. apply map_eq_nil in E. contradiction. }
    { intros c Hc. apply in_map_iff in Hc. destruct Hc as (r & <- & Hr).
      apply filter_In in Hr. destruct Hr as [_ Hr].
      apply (proj1 (@in_range_spec lo hi (r var))) in Hr.
      destruct Hr as (q & -> & H1 & H2).
      exact (@cut_code_inside _ _ _ _ Hlo Hhi H1 H2). }
    cbn [bind].
    match goal with
    | |- context [hedges (linspace lo hi (n + 1)) ?codes] =>
        destruct (@hedges_ok (linspace lo hi (n + 1)) codes) as [he ->]
    end.
    { intro E. apply map_eq_nil in E. contradiction. }
    { intros c Hc. apply in_map_iff in Hc. destruct Hc as (r & <- & Hr).
      apply filter_In in Hr. destruct Hr as [_ Hr].
      rewrite (eff_code_eff_bin var lo hi n r Hr).
      apply (proj1 (@in_range_spec lo hi (r var))) in Hr.
      destruct Hr as (q & -> & H1 & H2).
      destruct (@eff_bin_total lo hi n q Hlt Hpos H1 H2) as (k & -> & _).
      eauto. }
    cbn [bind]. eauto.
  - intros nb edges Hres.
    destruct (th1d_arguments_inv all_samples var config ana_eff_bins_equal
                nbins_eff sig lo hi n nb edges Hsig Hlo Hhi Hn Hres)
      as [Hnb He].
    split; [exact Hnb|].
    apply hedges_inv in He. destruct He as [Hsome Hlen].
    set (sig_df := filter_range var lo hi (df sig)) in *.
    set (code := fun r : row => cut_code (linspace lo hi (n + 1)) (r var))
      in *.
    assert (Hcount : length (unique (map code sig_df))
                     = length (filter (occupied var lo hi n (df sig))
                                      (seq 0 n))).
    { rewrite <- (length_map Some (filter _ (seq 0 n))).
      apply Permutation_length, NoDup_Permutation.
      - apply (unique_from_NoDup [] (map code sig_df)).
      - apply NoDup_map_Some, NoDup_filter, seq_NoDup.
      - intros c. split.
        + intros Hc. apply unique_from_In in Hc.
          destruct (Hsome c Hc) as [k ->]. apply in_map.
          apply in_map_iff in Hc. destruct Hc as (r & Hk & Hr).
          apply filter_In. split.
          * apply in_seq. apply cut_code_lt in Hk.
            rewrite linspace_length in Hk. lia.
          * apply occupied_spec. eauto.
        + intros Hc. apply in_map_iff in Hc. destruct Hc as (k & <- & Hk).
          apply filter_In in Hk. destruct Hk as [_ Hk].
          apply occupied_spec in Hk. destruct Hk as (r & Hr & Hk).
          apply unique_complete. apply in_map_iff. eauto. }
    rewrite Hlen, Hcount. split; [reflexivity|]. split.
    + intros Hall. rewrite filter_all, length_seq; [lia|].
      intros k Hk. apply in_seq in Hk. apply Hall. lia.
    + intros (k & Hk & Hocc).
      assert (Hlt := filter_length_lt (occupied var lo hi n (df sig))
                       (seq 0 n) k ltac:(apply in_seq; lia) Hocc).
      rewrite length_seq in Hlt. lia.
Qed.

End PlotEffEdges.

Lemma hedges_eff_length_witness :
  exists edges,
    Histograms.th1d_arguments [signal_sample [event 1 1; event 5 1]] "x"
      {| range := [0; 20]; nbins := 2 |} true 25 = Ok (2%nat, edges)
    /\ (length edges < 2 + 1)%nat.
Proof.
  destruct (hedges_eff_length [signal_sample [event 1 1; event 5 1]] "x"
              {| range := [0; 20]; nbins := 2 |} true 25
              (signal_sample [event 1 1; event 5 1]) 0 20 2
              eq_refl eq_refl eq_refl eq_refl) as [Hrun Hlen].
  destruct Hrun as [edges Hedges].
  - intros i j Hij. cbn [length range] in Hij.
    assert (E : i = 0%nat /\ j = 1%nat) by lia. destruct E as [-> ->].
    reflexivity.
  - lia.
  - exists (event 1 1). split; [now left|reflexivity].
  - exists edges. split; [exact Hedges|].
    apply (Hlen 2%nat edges Hedges).
    exists 1%nat. split; [lia|reflexivity].
Defined.

(** ** [plot_eff_by_var]: the points *)

Section PlotEffPoints.

Lemma hedges_nonempty (bins : list Q) (codes : list (option nat))
    (h : list Q) :
  hedges bins codes = Ok h -> codes <> [].
Proof. intros H ->. discriminate H. Qed.

Lemma edge_width (lo hi : Q) (n k : nat) :
  (k < n)%nat ->
  edge lo hi n (S k) - edge lo hi n k == (hi - lo) / inject_Z (Z.of_nat n).
Proof.
  intros Hk. rewrite (@edge_inner lo hi n k Hk).
  destruct (Nat.eq_dec (S k) n) as [E|E].
  - rewrite E, (@edge_last lo hi n ltac:(lia)).
    pose proof (@step_times_n lo hi n ltac:(lia)) as Hstep.
    assert (Hn : inject_Z (Z.of_nat n) == inject_Z (Z.of_nat k) + 1).
    { rewrite <- E. replace (Z.of_nat (S k)) with (Z.of_nat k + 1)%Z by lia.
      now rewrite inject_Z_plus. }
    set (step := (hi - lo) / inject_Z (Z.of_nat n)) in *.
    rewrite Hn in Hstep. clearbody step. lra.
  - rewrite (@edge_inner lo hi n (S k) ltac:(lia)).
    replace (Z.of_nat (S k)) with (Z.of_nat k + 1)%Z by lia.
    rewrite inject_Z_plus. ring.
Qed.

(** X14.  Every point of a returned result belongs to a bin with at
    least one passing event and no more passing events than events, and
    the value plotted for it, the number of events over the number of
    passing events, is at least 1: it is 1 exactly when every event of
    the bin passes, and above the axis range [[0, 1]] otherwise. *)
Theorem returned_points_are_well_formed (observed : bool)
    (all_samples : list sample_dict) (var : string) (config : var_config)
    (ana_eff_bins_equal : bool) (nbins_eff : nat)
    (sig : sample_dict) (lo hi : Q) (n : nat) (res : eff_by_var) :
  find_sample all_samples "signal" = Ok sig ->
  first (range config) = Ok lo ->
  last_item (range config) = Ok hi ->
  n = (if ana_eff_bins_equal then nbins config else nbins_eff) ->
  plot_eff_by_var observed all_samples var config ana_eff_bins_equal
    nbins_eff = Ok res ->
  Forall (fun p =>
            (1 <= pass_count p)%Z /\ (pass_count p <= total_count p)%Z
            /\ val p == inject_Z (total_count p) / inject_Z (pass_count p)
            /\ 1 <= val p
            /\ (val p == 1 <-> pass_count p = total_count p)
            /\ ((pass_count p < total_count p)%Z -> 1 < val p))
         (points res).
Proof.
  intros Hsig Hlo Hhi Hn Hres.
  destruct (plot_eff_by_var_inv observed all_samples var config
              ana_eff_bins_equal nbins_eff sig lo hi n res
              Hsig Hlo Hhi Hn Hres) as (_ & _ & _ & Hp).
  apply Forall_forall. intros p Hin.
  destruct (@for_each_In _ _ _ _ _ _ Hp Hin) as (g & _ & Hbody).
  pose proof (@eff_loop_body_ok _ g p Hbody) as (Ht & Hpc & Hnz & Hv).
  pose proof (select_eq_1_le "reco_all_cuts_satisfied" (snd g)) as Hle.
  assert (H1 : (1 <= pass_count p)%Z).
  { rewrite Hpc in *. unfold len in *. lia. }
  assert (H2 : (pass_count p <= total_count p)%Z).
  { rewrite Hpc, Ht. exact Hle. }
  assert (Hpos : 0 < inject_Z (pass_count p)).
  { change 0 with (inject_Z 0). rewrite <- Zlt_Qlt. lia. }
  assert (Hge : 1 <= inject_Z (total_count p) / inject_Z (pass_count p)).
  { apply Qle_shift_div_l; [exact Hpos|]. rewrite Qmult_1_l.
    now rewrite <- Zle_Qle. }
  split; [exact H1|]. split; [exact H2|]. rewrite Hv.
  split; [reflexivity|]. split; [exact Hge|]. split; [split|].
  - intros E.
    assert (E' : inject_Z (total_count p) == inject_Z (pass_count p)).
    { rewrite <- (Qmult_1_l (inject_Z (pass_count p))), <- E.
      field. intro Z0. lra. }
    unfold Qeq in E'. cbn in E'. lia.
  - intros E. rewrite E. field. intro Z0. rewrite <- E in Z0. lra.
  - intros Hlt. apply Qlt_shift_div_l; [exact Hpos|]. rewrite Qmult_1_l.
    now rewrite <- Zlt_Qlt.
Qed.

End PlotEffPoints.

Lemma returned_points_are_well_formed_witness :
  exists res,
    plot_eff_by_var false
      [signal_sample [event 5 1; event 7 0; event 15 1]] "x"
      {| range := [0; 20]; nbins := 2 |} true 25 = Ok res
    /\ Forall (fun p => (1 <= pass_count p)%Z /\ 1 <= val p) (points res).
Proof.
  assert (Hrun : exists res,
    plot_eff_by_var false
      [signal_sample [event 5 1; event 7 0; event 15 1]] "x"
      {| range := [0; 20]; nbins := 2 |} true 25 = Ok res).
  { vm_compute. eexists. reflexivity. }
  destruct Hrun as [res Hres]. exists res. split; [exact Hres|].
  pose proof (returned_points_are_well_formed false
                [signal_sample [event 5 1; event 7 0; event 15 1]] "x"
                {| range := [0; 20]; nbins := 2 |} true 25
                (signal_sample [event 5 1; event 7 0; event 15 1])
                0 20 2 res
                eq_refl eq_refl eq_refl eq_refl Hres) as H.
  eapply Forall_impl; [|exact H]. cbv beta. tauto.
Defined.

(** ** [plot_eff_by_var]: the order of the points *)

Section PlotEffOrder.

Lemma FOP_seq (s n : nat) : ForallOrdPairs lt (seq s n).
Proof.
  revert s. induction n as [|n IH]; intros s; cbn [seq]; constructor.
  - apply Forall_forall. intros k Hk. apply in_seq in Hk. lia.
  - apply IH.
Qed.

Lemma FOP_map {A B : Type} (R : B -> B -> Prop) (f : A -> B) (l : list A) :
  ForallOrdPairs (fun x y => R (f x) (f y)) l -> ForallOrdPairs R (map f l).
Proof.
  induction 1 as [|a l Ha _ IH]; cbn [map]; constructor; [|exact IH].
  apply Forall_forall. intros y Hy. apply in_map_iff in Hy.
  destruct Hy as (x & <- & Hx). rewrite Forall_forall in Ha. now apply Ha.
Qed.

Lemma FOP_filter {A : Type} (R : A -> A -> Prop) (p : A -> bool)
    (l : list A) :
  ForallOrdPairs R l -> ForallOrdPairs R (filter p l).
Proof.
  induction 1 as [|a l Ha _ IH]; cbn [filter]; [constructor|].
  destruct (p a); [|exact IH]. constructor; [|exact IH].
  apply Forall_forall. intros y Hy. apply filter_In in Hy.
  rewrite Forall_forall in Ha. now apply Ha.
Qed.

Lemma Forall2_In_right {A B : Type} (R : A -> B -> Prop) (xs : list A)
    (ys : list B) (y : B) :
  Forall2 R xs ys -> In y ys -> exists x, In x xs /\ R x y.
Proof.
  induction 1 as [|x0 y0 xs ys Hxy _ IH]; intros Hin; [destruct Hin|].
  destruct Hin as [<-|Hin].
  - exists x0. split; [now left|exact Hxy].
  - destruct (IH Hin) as (x & Hx & Hr). exists x. split; [now right|exact Hr].
Qed.

Lemma FOP_Forall2 {A B : Type} (P : A -> B -> Prop) (R : A -> A -> Prop)
    (R' : B -> B -> Prop) (xs : list A) (ys : list B) :
  Forall2 P xs ys ->
  (forall x x' y y', In x xs -> In x' xs -> P x y -> P x' y' ->
                     R x x' -> R' y y') ->
  ForallOrdPairs R xs -> ForallOrdPairs R' ys.
Proof.
  induction 1 as [|x y xs ys Hxy H2 IH]; intros Hstep Hord; [constructor|].
  inversion Hord as [|? ? Hx Hrest]; subst. constructor.
  - apply Forall_forall. intros y' Hy'.
    destruct (Forall2_In_right _ _ _ _ H2 Hy') as (x' & Hx' & Hq).
    rewrite Forall_forall in Hx.
    apply (Hstep x x' y y'); auto; [now left|now right].
  - apply IH; [|exact Hrest]. intros a a' b b' Ha Ha'.
    apply Hstep; now right.
Qed.

Lemma groupby_keys_ordered (observed : bool) (ncat : nat)
    (codes : list (option nat)) (d : DataFrame) :
  ForallOrdPairs (fun g g' => (fst g < fst g')%nat)
                 (groupby observed ncat codes d).
Proof.
  unfold groupby.
  assert (H : ForallOrdPairs (fun g g' : nat * DataFrame =>
                                (fst g < fst g')%nat)
                (map (fun k => (k, map snd (filter (fun cr =>
                        option_nat_eqb (fst cr) (Some k)) (combine codes d))))
                     (seq 0 ncat))).
  { apply FOP_map. cbn [fst]. apply FOP_seq. }
  destruct observed; [now apply FOP_filter|exact H].
Qed.

(** X26.  The points of a returned result come in the order of the
    bins, and their bins do not overlap: of any two points, the earlier
    one has its upper edge at or below the lower edge of the later one,
    and its centre strictly below. *)
Theorem returned_points_are_ordered (observed : bool)
    (all_samples : list sample_dict) (var : string) (config : var_config)
    (ana_eff_bins_equal : bool) (nbins_eff : nat)
    (sig : sample_dict) (lo hi : Q) (n : nat) (res : eff_by_var) :
  find_sample all_samples "signal" = Ok sig ->
  first (range config) = Ok lo ->
  last_item (range config) = Ok hi ->
  n = (if ana_eff_bins_equal then nbins config else nbins_eff) ->
  plot_eff_by_var observed all_samples var config ana_eff_bins_equal
    nbins_eff = Ok res ->
  ForallOrdPairs (fun p p' => bxerr1 p <= bxerr0 p' /\ bc p < bc p')
                 (points res).
Proof.
  intros Hsig Hlo Hhi Hn Hres.
  destruct (plot_eff_by_var_inv observed all_samples var config
              ana_eff_bins_equal nbins_eff sig lo hi n res
              Hsig Hlo Hhi Hn Hres) as (_ & He & _ & Hp).
  set (sig_df := filter_range var lo hi (df sig)) in *.
  pose proof (hedges_nonempty _ _ _ He) as Hne.
  destruct (hedges_inv _ _ _ He) as [Hsome _].
  destruct sig_df as [|r0 rest] eqn:Edf; [now cbn in Hne|].
  assert (Hr0 : In r0 (filter_range var lo hi (df sig)))
    by (fold sig_df; rewrite Edf; now left).
  apply filter_In in Hr0. destruct Hr0 as [_ Hr0].
  apply in_range_spec in Hr0. destruct Hr0 as (q0 & _ & Hq1 & Hq2).
  assert (Hlt : lo < hi) by lra.
  destruct (Hsome _ (or_introl eq_refl)) as [k0 Hk0].
  apply cut_code_lt in Hk0. rewrite linspace_length in Hk0.
  assert (Hpos : (0 < n)%nat) by lia.
  pose proof (@linspace_increasing lo hi n Hlt Hpos) as Hinc.
  pose proof (linspace_length lo hi n) as Hlen.
  assert (Hedge : forall i j, (i < j)%nat -> (j <= n)%nat ->
                    edge lo hi n i < edge lo hi n j).
  { intros i j Hij Hj. apply Hinc. rewrite Hlen. lia. }
  apply for_each_inv in Hp.
  apply (FOP_Forall2 _ (fun g g' : nat * DataFrame => (fst g < fst g')%nat)
           _ _ _ Hp); [|apply groupby_keys_ordered].
  intros g g' p p' Hg Hg' Hb Hb' Hkk.
  apply groupby_In in Hg. apply groupby_In in Hg'.
  destruct Hg as [Hk _]. destruct Hg' as [Hk' _].
  assert (Hgeo : forall (g : nat * DataFrame) p,
            eff_loop_body (linspace lo hi (n + 1)) g = Ok p ->
            bxerr0 p = edge lo hi n (fst g)
            /\ bxerr1 p = edge lo hi n (S (fst g))
            /\ bc p = (1 # 2) * (bxerr0 p + bxerr1 p)).
  { intros g1 p1 Hbody. unfold eff_loop_body in Hbody.
    destruct (truediv _ _); cbn [bind] in Hbody; [|discriminate].
    inversion Hbody. cbn. repeat split; reflexivity. }
  destruct (Hgeo g p Hb) as (H0 & H1 & Hc).
  destruct (Hgeo g' p' Hb') as (H0' & H1' & Hc').
  pose proof (Hedge (fst g) (S (fst g)) ltac:(lia) ltac:(lia)) as Ha.
  pose proof (Hedge (fst g') (S (fst g')) ltac:(lia) ltac:(lia)) as Hb2.
  assert (Hmid : edge lo hi n (S (fst g)) <= edge lo hi n (fst g')).
  { destruct (Nat.eq_dec (S (fst g)) (fst g')) as [E|E].
    - rewrite E. apply Qle_refl.
    - apply Qlt_le_weak. apply Hedge; lia. }
  rewrite Hc, Hc', H0, H1, H0', H1'. split; [exact Hmid|lra].
Qed.

End PlotEffOrder.

Lemma returned_points_are_ordered_witness :
  exists res,
    plot_eff_by_var false [signal_sample [event 5 1; event 15 1]] "x"
      {| range := [0; 20]; nbins := 2 |} true 25 = Ok res
    /\ ForallOrdPairs (fun p p' => bc p < bc p') (points res).
Proof.
  assert (Hrun : exists res,
    plot_eff_by_var false [signal_sample [event 5 1; event 15 1]] "x"
      {| range := [0; 20]; nbins := 2 |} true 25 = Ok res).
  { vm_compute. eexists. reflexivity. }
  destruct Hrun as [res Hres]. exists res. split; [exact Hres|].
  pose proof (returned_points_are_ordered false
                [signal_sample [event 5 1; event 15 1]] "x"
                {| range := [0; 20]; nbins := 2 |} true 25
                (signal_sample [event 5 1; event 15 1]) 0 20 2 res
                eq_refl eq_refl eq_refl eq_refl Hres) as H.
  induction H as [|p l Hp _ IH]; constructor; [|exact IH].
  eapply Forall_impl; [|exact Hp]. cbv beta. tauto.
Defined.

(** ** [ConfusionMatrix.__init__] *)

Section Init.

Import Confusion.

Lemma keys_dict_set_present (d : dict) (k : Z) (v : string) :
  In k (keys d) -> keys (dict_set d k v) = keys d.
Proof.
  induction d as [|[k' v'] d IH]; intros Hin; [destruct Hin|].
  cbn [dict_set]. destruct (Z.eqb_spec k' k) as [->|Hne]; [reflexivity|].
  cbn [keys map fst] in *. destruct Hin as [E|Hin]; [congruence|].
  f_equal. now apply IH.
Qed.

Lemma dict_set_absent (d : dict) (k : Z) (v : string) :
  ~ In k (keys d) -> dict_set d k v = d ++ [(k, v)].
Proof.
  induction d as [|[k' v'] d IH]; intros Hin; [reflexivity|].
  cbn [dict_set]. cbn [keys map fst] in Hin.
  destruct (Z.eqb_spec k' k) as [->|Hne]; [exfalso; apply Hin; now left|].
  cbn [app]. f_equal. apply IH. intro H. apply Hin. now right.
Qed.

Lemma index_present (labels : list Z) (k : Z) :
  In k labels -> exists i, index labels k = Ok i.
Proof.
  induction labels as [|y labels IH]; intros Hin; [destruct Hin|].
  cbn [index]. destruct (Z.eqb_spec y k) as [_|Hne]; [eauto|].
  destruct Hin as [E|Hin]; [congruence|].
  destruct (IH Hin) as [i ->]. cbn [bind]. eauto.
Qed.

(** X15.  After [__init__] the null key -1 is registered: a registry
    that held it keeps its keys and their order, one that did not gets
    [(-1, 'Null')] appended; keys that were distinct stay distinct; the
    matrix is the square of zeros of the size of the registry; and the
    lookup [labels.index(-1)] of [draw] finds the key. *)
Theorem init_registers_null (categories : dict) :
  In (-1)%Z (keys (_categories (__init__ categories)))
  /\ (In (-1)%Z (keys categories) ->
      keys (_categories (__init__ categories)) = keys categories)
  /\ (~ In (-1)%Z (keys categories) ->
      _categories (__init__ categories) = categories ++ [((-1)%Z, "Null"%string)])
  /\ (NoDup (keys categories) ->
      NoDup (keys (_categories (__init__ categories))))
  /\ _confusion_matrix (__init__ categories)
     = zeros (length (_categories (__init__ categories)))
             (length (_categories (__init__ categories)))
  /\ exists nan_index,
       index (keys (_categories (__init__ categories))) (-1) = Ok nan_index.
Proof.
  cbn [__init__ _categories _confusion_matrix].
  assert (Hin : In (-1)%Z (keys (dict_set categories (-1) "Null"))).
  { destruct (in_dec Z.eq_dec (-1)%Z (keys categories)) as [H|H].
    - now rewrite keys_dict_set_present.
    - rewrite dict_set_absent by exact H. unfold keys.
      rewrite map_app. apply in_or_app. right. now left. }
  split; [exact Hin|]. split; [apply keys_dict_set_present|].
  split; [apply dict_set_absent|]. split; [|split; [reflexivity|]].
  - intros Hnd.
    destruct (in_dec Z.eq_dec (-1)%Z (keys categories)) as [H|H].
    + now rewrite keys_dict_set_present.
    + rewrite dict_set_absent by exact H. unfold keys in *.
      rewrite map_app. cbn [map fst]. apply NoDup_app.
      * exact Hnd.
      * constructor; [intros []|constructor].
      * intros x Hx [<-|[]]. contradiction.
  - now apply index_present.
Qed.

End Init.

(** ** [add_sample]: what one call leaves behind *)

Section AddSampleMore.

Import Confusion.

(** X16.  [add_sample] never touches the registry, and it keeps the
    matrix a square of the size of the registry with cells in the range
    of [int64], whether the call returns or raises. *)
Theorem add_sample_keeps_registry_and_shape
    (self : ConfusionMatrix) (data : Data) :
  well_formed self ->
  _categories (fst (add_sample self data)) = _categories self
  /\ well_formed (fst (add_sample self data)).
Proof.
  intros Hwf. split.
  - apply add_sample_categories.
  - now apply add_sample_well_formed.
Qed.

(** X17.  One call on the items of [d1] followed by those of [d2] does
    what a call on [d1] followed by a call on [d2] does.  The loop stops
    at the first group that is refused: the counts of the groups before
    it stay in the matrix and the groups after it are not read. *)
Theorem add_sample_app (self : ConfusionMatrix) (d1 d2 : Data) :
  add_sample self (d1 ++ d2)
  = match add_sample self d1 with
    | (s1, Ok _) => add_sample s1 d2
    | (s1, Raise e) => (s1, Raise e)
    end.
Proof.
  revert self. induction d1 as [|[c [t p]] d1 IH]; intros self.
  - reflexivity.
  - cbn [app add_sample fst snd].
    destruct (negb (contains (keys (_categories self)) c)); [apply IH|].
    destruct (confusion_matrix t (nan_to_num p (-1))
                (keys (_categories self))) as [m|e]; [apply IH|reflexivity].
Qed.

Lemma zip_with_maps {A B C X : Type} (h : A -> B -> C) (f1 : X -> A)
    (f2 : X -> B) (l : list X) :
  zip_with h (map f1 l) (map f2 l) = map (fun x => h (f1 x) (f2 x)) l.
Proof. induction l as [|x l IH]; simpl; [reflexivity|]. now rewrite IH. Qed.

Lemma iadd_count_matrices (labels : list Z) (a b : list (float * float)) :
  iadd (count_matrix labels a) (count_matrix labels b)
  = count_matrix labels (a ++ b).
Proof.
  unfold iadd, count_matrix. rewrite zip_with_maps.
  apply map_ext. intros i. rewrite zip_with_maps.
  apply map_ext. intros j.
  rewrite cell_count_app, wrap64_add_l, wrap64_add_r. reflexivity.
Qed.

Lemma add_sample_from_counts (labels_of : dict) (data : Data)
    (pairs : list (float * float)) (s : ConfusionMatrix) :
  add_sample {| _categories := labels_of;
                _confusion_matrix := count_matrix (keys labels_of) pairs |}
             data = (s, Ok tt) ->
  _confusion_matrix s
  = count_matrix (keys labels_of)
      (pairs ++ accepted_pairs (keys labels_of) data).
Proof.
  revert pairs. induction data as [|[c [t p]] data IH]; intros pairs H.
  - cbn in H. inversion H. cbn. now rewrite app_nil_r.
  - cbn [add_sample fst snd _categories _confusion_matrix] in H.
    cbn [accepted_pairs fst snd].
    destruct (contains (keys labels_of) c); cbn [negb] in H.
    + destruct (confusion_matrix t (nan_to_num p (-1)) (keys labels_of))
        as [m|e] eqn:Em; [|discriminate].
      apply confusion_matrix_ok in Em. destruct Em as [_ ->].
      rewrite iadd_count_matrices in H.
      rewrite (IH _ H). now rewrite app_assoc.
    + now apply IH.
Qed.

(** X18.  After a call that returns on a fresh object, the matrix is the
    table of counts of the events handed over: cell [(i, j)] holds the
    number (modulo 2^64) of events, over the groups of a registered
    category, whose true label is the [i]-th key and whose predicted
    label, NaN read as -1, is the [j]-th key. *)
Theorem fresh_accumulation_counts (categories : dict) (data : Data)
    (s : ConfusionMatrix) :
  add_sample (__init__ categories) data = (s, Ok tt) ->
  let labels := keys (_categories (__init__ categories)) in
  _confusion_matrix s = count_matrix labels (accepted_pairs labels data)
  /\ forall i j, (i < length labels)%nat -> (j < length labels)%nat ->
       cell (_confusion_matrix s) i j
       = wrap64 (cell_count labels (accepted_pairs labels data) i j).
Proof.
  intros H labels.
  assert (E : _confusion_matrix s
              = count_matrix labels (accepted_pairs labels data)).
  { apply (add_sample_from_counts (_categories (__init__ categories))
             data [] s).
    rewrite count_matrix_nil, keys_length. exact H. }
  split; [exact E|]. intros i j Hi Hj. rewrite E.
  now apply cell_count_matrix.
Qed.

Lemma fresh_accumulation_counts_witness :
  exists s,
    add_sample (__init__ two_categories)
      [(0%Z, ([Fin 0; Fin 0], [Fin 1; NaN])); (7%Z, ([Fin 0], [Fin 0]))]
    = (s, Ok tt)
    /\ _confusion_matrix s = [[0; 1; 1]; [0; 0; 0]; [0; 0; 0]]%Z.
Proof.
  eexists. split; [reflexivity|].
  exact (proj1 (fresh_accumulation_counts two_categories
                  [(0%Z, ([Fin 0; Fin 0], [Fin 1; NaN]));
                   (7%Z, ([Fin 0], [Fin 0]))] _ eq_refl)).
Defined.

Lemma add_sample_keeps_registry_and_shape_witness :
  well_formed
    (fst (add_sample (__init__ two_categories)
            [(0%Z, ([Fin 0], [Fin 1])); (1%Z, ([Fin 5], [Fin 1]))])).
Proof.
  apply (add_sample_keeps_registry_and_shape (__init__ two_categories)).
  apply init_well_formed.
Defined.

End AddSampleMore.

(** ** [add_sample]: every event lands in at most one cell *)

Section Conservation.

Import Confusion.
Local Open Scope Z_scope.

Lemma Zsum_map_ext {A : Type} (a b : A -> Z) (l : list A) :
  (forall x, In x l -> a x = b x) -> Zsum (map a l) = Zsum (map b l).
Proof. intros H. f_equal. now apply map_ext_in. Qed.

Lemma Zsum_map_zero {A : Type} (l : list A) :
  Zsum (map (fun _ => 0) l) = 0.
Proof. induction l as [|x l IH]; simpl; [reflexivity|exact IH]. Qed.

Lemma Zsum_indicator_nat (k0 n : nat) :
  Zsum (map (fun k => if (k0 =? k)%nat then 1 else 0) (seq 0 n))
  = if (k0 <? n)%nat then 1 else 0.
Proof. exact (Zsum_indicator k0 0 n). Qed.

Lemma Zsum_indicator_pair (a b n : nat) :
  Zsum (map (fun i =>
               Zsum (map (fun j => if ((a =? i)%nat && (b =? j)%nat)%bool
                                   then 1 else 0) (seq 0 n)))
            (seq 0 n))
  = if ((a <? n)%nat && (b <? n)%nat)%bool then 1 else 0.
Proof.
  rewrite (Zsum_map_ext _
             (fun i => if (a =? i)%nat
                       then (if (b <? n)%nat then 1 else 0) else 0)).
  - destruct (b <? n)%nat.
    + rewrite Zsum_indicator_nat. now rewrite andb_true_r.
    + rewrite (Zsum_map_ext _ (fun _ => 0)).
      * rewrite Zsum_map_zero. now rewrite andb_false_r.
      * intros i _. now destruct (a =? i)%nat.
  - intros i _. destruct (a =? i)%nat; cbn [andb].
    + apply Zsum_indicator_nat.
    + apply Zsum_map_zero.
Qed.

Lemma label_to_ind_lt (labels : list Z) (x : float) :
  (label_to_ind labels x <? length labels)%nat
  = existsb (label_eqb x) labels.
Proof.
  destruct (existsb (label_eqb x) labels) eqn:E.
  - apply Nat.ltb_lt. now apply label_to_ind_registered.
  - rewrite label_to_ind_unregistered by exact E. apply Nat.ltb_ge. lia.
Qed.

Lemma cell_count_total (labels : list Z) (pairs : list (float * float)) :
  Zsum (map (fun i =>
               Zsum (map (fun j => cell_count labels pairs i j)
                         (seq 0 (length labels))))
            (seq 0 (length labels)))
  = len (filter (both_registered labels) pairs).
Proof.
  induction pairs as [|e pairs IH].
  - cbn [filter]. rewrite (Zsum_map_ext _ (fun _ => 0)).
    + apply Zsum_map_zero.
    + intros i _. apply Zsum_map_zero.
  - rewrite (Zsum_map_ext _
      (fun i =>
         Zsum (map (fun j =>
                      if ((label_to_ind labels (fst e) =? i)%nat
                          && (label_to_ind labels (snd e) =? j)%nat)%bool
                      then 1 else 0) (seq 0 (length labels)))
         + Zsum (map (fun j => cell_count labels pairs i j)
                     (seq 0 (length labels))))).
    + rewrite Zsum_map_add, IH, Zsum_indicator_pair.
      rewrite !label_to_ind_lt. cbn [filter]. unfold both_registered.
      destruct (_ && _)%bool; unfold len; cbn [length]; lia.
    + intros i _. rewrite <- Zsum_map_add. apply Zsum_map_ext.
      intros j _. apply cell_count_cons.
Qed.

Lemma cell_count_bounds (labels : list Z) (pairs : list (float * float))
    (i j : nat) :
  0 <= cell_count labels pairs i j <= len pairs.
Proof.
  unfold cell_count. split; [unfold len; lia|apply filter_length_le_len].
Qed.

Lemma matrix_total_count (labels : list Z) (pairs : list (float * float)) :
  len pairs < 2 ^ 63 ->
  matrix_total (count_matrix labels pairs)
  = len (filter (both_registered labels) pairs).
Proof.
  intros Hlen. rewrite <- cell_count_total.
  unfold matrix_total, count_matrix. cbv zeta. rewrite map_map.
  apply Zsum_map_ext. intros i _.
  apply Zsum_map_ext. intros j _. apply wrap64_id.
  pose proof (cell_count_bounds labels pairs i j). unfold int64. lia.
Qed.

(** X19.  After a call that returns on a fresh object, and as long as
    fewer than 2^63 events were handed over, the cells of the matrix sum
    to the number of events whose true label and predicted label (NaN
    read as -1) are both registered: each such event is in exactly one
    cell, any other event in none. *)
Theorem fresh_accumulation_total (categories : dict) (data : Data)
    (s : ConfusionMatrix) :
  add_sample (__init__ categories) data = (s, Ok tt) ->
  len (accepted_pairs (keys (_categories (__init__ categories))) data)
    < 2 ^ 63 ->
  matrix_total (_confusion_matrix s)
  = len (filter (both_registered (keys (_categories (__init__ categories))))
           (accepted_pairs (keys (_categories (__init__ categories))) data)).
Proof.
  intros H Hlen.
  rewrite (add_sample_from_counts (_categories (__init__ categories))
             data [] s).
  - now apply matrix_total_count.
  - rewrite count_matrix_nil, keys_length. exact H.
Qed.

End Conservation.

Lemma fresh_accumulation_total_witness :
  exists s,
    Confusion.add_sample (Confusion.__init__ two_categories)
      [(0%Z, ([Fin 0; Fin 0; Fin 9], [Fin 1; NaN; Fin 0]));
       (1%Z, ([Fin 1], [Fin 5]))]
    = (s, Ok tt)
    /\ matrix_total (Confusion._confusion_matrix s) = 2%Z.
Proof.
  eexists. split; [reflexivity|].
  apply (fresh_accumulation_total two_categories
           [(0%Z, ([Fin 0; Fin 0; Fin 9], [Fin 1; NaN; Fin 0]));
            (1%Z, ([Fin 1], [Fin 5]))] _ eq_refl).
  vm_compute. reflexivity.
Defined.

(** ** [draw]: the normalised rows *)

Section DrawRows.

Import Confusion.

Lemma nth_error_delete {A : Type} (l : list A) (k i : nat) :
  nth_error (delete l k) i = nth_error l (if (i <? k)%nat then i else S i).
Proof.
  revert k i. induction l as [|x l IH]; intros k i.
  - cbn [delete]. destruct (i <? k)%nat; now destruct i.
  - destruct k as [|k]; [reflexivity|]. destruct i as [|i]; [reflexivity|].
    cbn [delete nth_error]. rewrite IH.
    change (S i <? S k)%nat with (i <? k)%nat.
    now destruct (i <? k)%nat.
Qed.

Lemma length_delete {A : Type} (l : list A) (k : nat) :
  (k < length l)%nat -> length (delete l k) = (length l - 1)%nat.
Proof.
  revert k. induction l as [|x l IH]; intros k Hk; [inversion Hk|].
  destruct k as [|k]; cbn [delete length] in *; [lia|].
  rewrite IH by lia. lia.
Qed.

Lemma delete_map {A B : Type} (f : A -> B) (l : list A) (k : nat) :
  delete (map f l) k = map f (delete l k).
Proof.
  revert k. induction l as [|x l IH]; intros k; [now destruct k|].
  destruct k as [|k]; cbn [map delete]; [reflexivity|]. now rewrite IH.
Qed.

Lemma index_lt (labels : list Z) (k : Z) (i : nat) :
  index labels k = Ok i -> (i < length labels)%nat.
Proof.
  revert i. induction labels as [|y labels IH]; intros i H; [discriminate|].
  cbn [index] in H. destruct (y =? k)%Z.
  - inversion H. cbn [length]. lia.
  - destruct (index labels k) as [i'|e]; [|discriminate].
    cbn [bind] in H. inversion H. specialize (IH i' eq_refl).
    cbn [length]. lia.
Qed.

Lemma divide_length (out : nat -> nat -> Q) (cm : list (list Q)) :
  length (divide out cm (map Qsum cm)) = length cm.
Proof.
  unfold divide.
  rewrite length_map, !length_combine, length_seq, length_map. lia.
Qed.

Lemma Qsum_nonneg (l : list Q) :
  Forall (fun x => 0 <= x) l ->
  0 <= Qsum l /\ Forall (fun x => x <= Qsum l) l.
Proof.
  induction 1 as [|x l Hx Hl [IH0 IH]]; cbn [Qsum fold_right].
  - split; [apply Qle_refl|constructor].
  - fold (Qsum l). split; [lra|]. constructor; [lra|].
    revert IH. apply Forall_impl. intros y Hy. lra.
Qed.

Lemma fractions_in_unit_interval (l : list Q) :
  Forall (fun x => 0 <= x) l -> ~ Qsum l == 0 ->
  Forall (fun x => 0 <= x <= 1) (map (fun x => x / Qsum l) l).
Proof.
  intros Hl Hs. destruct (Qsum_nonneg l Hl) as [H0 Hle].
  assert (Hpos : 0 < Qsum l) by lra.
  apply Forall_forall. intros y Hy. apply in_map_iff in Hy.
  destruct Hy as (x & <- & Hx).
  rewrite Forall_forall in Hl, Hle. specialize (Hl x Hx).
  specialize (Hle x Hx). split.
  - apply Qle_shift_div_l; [exact Hpos|]. lra.
  - apply Qle_shift_div_r; [exact Hpos|]. lra.
Qed.

(** X20.  On an object whose matrix has the shape of the registry,
    [draw] normalises without raising and yields one row per registered
    true label other than -1, in the order of the registry: row [i] is
    computed from the counts of true label [i], or [i + 1] from the null
    key on, over all predicted labels or, with the null column hidden,
    over all but -1.  A row whose shown counts do not sum to zero is
    these counts divided by their sum; it sums to 1, and for counts that
    are not negative every cell of it lies in [[0, 1]]. *)
Theorem draw_rows (out : nat -> nat -> Q) (self : ConfusionMatrix)
    (show_null_column : bool) (nan_index : nat) :
  well_formed self ->
  index (keys (_categories self)) (-1) = Ok nan_index ->
  exists cm,
    draw out self show_null_column = Ok cm
    /\ length cm = (length (_categories self) - 1)%nat
    /\ forall i, (i < length cm)%nat ->
       exists counts r,
         nth_error (_confusion_matrix self)
           (if (i <? nan_index)%nat then i else S i) = Some counts
         /\ nth_error cm i = Some r
         /\ let shown :=
              map inject_Z (if show_null_column then counts
                            else delete counts nan_index) in
            length r = length shown
            /\ (~ Qsum shown == 0 ->
                r = map (fun x => x / Qsum shown) shown
                /\ Qsum r == 1
                /\ (Forall (fun z => (0 <= z)%Z) counts ->
                    Forall (fun x => 0 <= x <= 1) r)).
Proof.
  intros [Hrows Hcols] Hidx.
  pose proof (index_lt _ _ _ Hidx) as Hk. rewrite keys_length in Hk.
  unfold draw. rewrite Hidx. cbn [bind].
  set (mq := map (map inject_Z) (_confusion_matrix self)).
  set (cm0 := if negb show_null_column
              then map (fun r => delete r nan_index) (delete mq nan_index)
              else delete mq nan_index).
  assert (Hlen : length cm0 = (length (_categories self) - 1)%nat).
  { subst cm0. destruct show_null_column; cbn [negb];
      rewrite ?length_map, length_delete; subst mq;
      rewrite ?length_map; lia. }
  eexists. split; [reflexivity|]. rewrite divide_length.
  split; [exact Hlen|]. intros i Hi.
  set (i' := if (i <? nan_index)%nat then i else S i).
  assert (Hi' : (i' < length (_confusion_matrix self))%nat).
  { subst i'. destruct (Nat.ltb_spec i nan_index); lia. }
  destruct (nth_error (_confusion_matrix self) i') as [counts|] eqn:Ec;
    [|apply nth_error_None in Ec; lia].
  assert (Hrow : nth_error cm0 i
                 = Some (map inject_Z (if show_null_column then counts
                                       else delete counts nan_index))).
  { subst cm0 mq. destruct show_null_column; cbn [negb].
    - rewrite nth_error_delete. fold i'. now apply map_nth_error.
    - rewrite <- (delete_map inject_Z counts nan_index).
      apply (map_nth_error (fun r => delete r nan_index)).
      rewrite nth_error_delete. fold i'. now apply map_nth_error. }
  destruct (divide_where_row out cm0 i _ Hrow) as (r & Hr & Hnz & Hz).
  exists counts, r. split; [reflexivity|]. split; [exact Hr|].
  cbv zeta. split.
  - destruct (Qeq_dec
                (Qsum (map inject_Z (if show_null_column then counts
                                     else delete counts nan_index))) 0)
      as [E|E].
    + rewrite (Hz E). now rewrite length_map, length_seq.
    + rewrite (proj1 (Hnz E)). now rewrite length_map.
  - intros Hne. destruct (Hnz Hne) as [Er Es].
    split; [exact Er|]. split; [exact Es|]. intros Hpos. rewrite Er.
    apply fractions_in_unit_interval; [|exact Hne].
    apply Forall_forall. intros x Hx. apply in_map_iff in Hx.
    destruct Hx as (z & <- & Hz').
    assert (Hin : In z counts).
    { destruct show_null_column; [exact Hz'|].
      destruct (In_nth_error _ _ Hz') as [j Hj].
      rewrite nth_error_delete in Hj. now apply nth_error_In in Hj. }
    rewrite Forall_forall in Hpos. specialize (Hpos z Hin).
    change 0 with (inject_Z 0). now rewrite <- Zle_Qle.
Qed.

End DrawRows.

Lemma draw_rows_witness :
  exists cm r,
    Confusion.draw (fun _ _ => 0)
      (fst (Confusion.add_sample (Confusion.__init__ two_categories)
              [(0%Z, ([Fin 0; Fin 0; Fin 1], [Fin 0; Fin 1; Fin 1]))]))
      false
    = Ok cm
    /\ nth_error cm 0 = Some r
    /\ r = map (fun x => x / Confusion.Qsum [1; 1]) [1; 1]
    /\ Confusion.Qsum r == 1
    /\ Forall (fun x => 0 <= x <= 1) r.
Proof.
  destruct (draw_rows (fun _ _ => 0)
              (fst (Confusion.add_sample (Confusion.__init__ two_categories)
                      [(0%Z, ([Fin 0; Fin 0; Fin 1],
                              [Fin 0; Fin 1; Fin 1]))]))
              false 2
              (add_sample_well_formed _ _ (init_well_formed two_categories))
              eq_refl)
    as (cm & Hcm & Hlen & Hrows).
  destruct (Hrows 0%nat ltac:(rewrite Hlen; cbn; lia))
    as (counts & r & Hc & Hr & _ & Hnz).
  inversion Hc; subst counts; clear Hc.
  destruct (Hnz ltac:(intro E; discriminate E)) as (Er & Es & Hb).
  exists cm, r. split; [exact Hcm|]. split; [exact Hr|].
  split; [exact Er|]. split; [exact Es|].
  apply Hb. repeat constructor; discriminate.
Defined.

(** ** [draw]: the labelled frame *)

Section DrawFrame.

Import Confusion Frame.

Lemma index_app_absent (l l' : list Z) (k : Z) :
  ~ In k l -> index (l ++ k :: l') k = Ok (length l).
Proof.
  induction l as [|y l IH]; intros Hin; cbn [app index length].
  - now rewrite Z.eqb_refl.
  - destruct (Z.eqb_spec y k) as [->|_]; [exfalso; apply Hin; now left|].
    rewrite IH; [reflexivity|]. intro H. apply Hin. now right.
Qed.

Lemma delete_app {A : Type} (l : list A) (x : A) (l' : list A) :
  delete (l ++ x :: l') (length l) = l ++ l'.
Proof.
  induction l as [|y l IH]; cbn [app length delete]; [reflexivity|].
  now rewrite IH.
Qed.

Lemma except_index_above {A : Type} (i nan_index : nat) (l : list A) :
  (nan_index < i)%nat -> except_index i nan_index l = l.
Proof.
  revert i. induction l as [|x l IH]; intros i Hi; [reflexivity|].
  cbn [except_index]. destruct (Nat.eqb_spec i nan_index); [lia|].
  cbn [negb]. rewrite IH by lia. reflexivity.
Qed.

Lemma except_index_app {A : Type} (i : nat) (pre l : list A) :
  except_index i (i + length pre) (pre ++ l)
  = pre ++ except_index (i + length pre) (i + length pre) l.
Proof.
  revert i. induction pre as [|x pre IH]; intros i; cbn [app length].
  - now rewrite Nat.add_0_r.
  - cbn [except_index]. destruct (Nat.eqb_spec i (i + S (length pre))); [lia|].
    cbn [negb]. replace (i + S (length pre))%nat with (S i + length pre)%nat
      by lia.
    now rewrite IH.
Qed.

Lemma except_index_drop {A : Type} (pre : list A) (x : A) (post : list A) :
  except_index 0 (length pre) (pre ++ x :: post) = pre ++ post.
Proof.
  pose proof (except_index_app 0 pre (x :: post)) as H.
  cbn [Nat.add except_index] in H. rewrite H, Nat.eqb_refl. cbn [negb].
  now rewrite except_index_above by lia.
Qed.

Lemma except_index_keep {A : Type} (pre : list A) :
  except_index 0 (length pre) pre = pre.
Proof.
  pose proof (except_index_app 0 pre []) as H.
  cbn [Nat.add except_index] in H. now rewrite !app_nil_r in H.
Qed.

Lemma getitem_In (d : dict) (k : Z) (v : string) :
  NoDup (keys d) -> In (k, v) d -> getitem d k = Got v.
Proof.
  induction d as [|[k' v'] d IH]; intros Hnd Hin; [destruct Hin|].
  cbn [keys map fst] in Hnd. inversion Hnd as [|? ? Hk' Hnd']; subst.
  cbn [getitem]. destruct Hin as [E|Hin].
  - inversion E; subst. now rewrite Z.eqb_refl.
  - destruct (Z.eqb_spec k' k) as [->|_]; [|now apply IH].
    exfalso. apply Hk'. unfold keys. apply in_map_iff.
    exists (k, v). now split.
Qed.

Lemma getitems_incl (d l : dict) :
  NoDup (keys d) -> incl l d -> getitems d (keys l) = Got (map snd l).
Proof.
  intros Hnd. induction l as [|[k v] l IH]; intros Hin; [reflexivity|].
  cbn [keys map fst snd getitems].
  rewrite (getitem_In d k v Hnd) by (apply Hin; now left).
  unfold keys in IH. rewrite IH; [reflexivity|].
  intros x Hx. apply Hin. now right.
Qed.

Lemma draw_ok_length (out : nat -> nat -> Q) (self : ConfusionMatrix)
    (show_null_column : bool) (nan_index : nat) :
  length (_confusion_matrix self) = length (_categories self) ->
  index (keys (_categories self)) (-1) = Ok nan_index ->
  exists cm,
    draw out self show_null_column = Ok cm
    /\ length cm = (length (_categories self) - 1)%nat.
Proof.
  intros Hrows Hidx.
  pose proof (index_lt _ _ _ Hidx) as Hk. rewrite keys_length in Hk.
  unfold draw. rewrite Hidx. cbn [bind]. eexists. split; [reflexivity|].
  rewrite divide_length.
  destruct show_null_column; cbn [negb];
    rewrite ?length_map, length_delete; rewrite ?length_map; lia.
Qed.

Lemma first_row_length (self : ConfusionMatrix) :
  well_formed self -> _categories self <> [] ->
  length (hd [] (_confusion_matrix self)) = length (_categories self).
Proof.
  intros [Hrows Hcols] Hne.
  destruct (_confusion_matrix self) as [|r m].
  - destruct (_categories self); [congruence|discriminate].
  - inversion Hcols as [|? ? [Hr _] _]; subst. exact Hr.
Qed.

(** X21.  For a registry of distinct keys that holds -1, the labels
    [draw] builds fit the array whenever the null column is shown, and,
    with the column hidden, when -1 is the last key (where [__init__]
    puts it).  The frame handed to [imshow] then has the names of the
    registered categories other than -1 along its columns, in the order
    of the registry, and along its rows the names of the predicted
    labels shown, in reverse order. *)
Theorem draw_frame_labels (out : nat -> nat -> Q) (self : ConfusionMatrix)
    (pre post : dict) (v : string) (show_null_column : bool) :
  well_formed self ->
  _categories self = pre ++ ((-1)%Z, v) :: post ->
  NoDup (keys (_categories self)) ->
  show_null_column = true \/ post = [] ->
  exists f cm,
    draw_frame out self show_null_column = Got f
    /\ draw out self show_null_column = Ok cm
    /\ column_labels f = map snd (pre ++ post)
    /\ index_labels f
       = rev (map snd (if show_null_column then pre ++ ((-1)%Z, v) :: post
                       else pre))
    /\ values f = rev (transpose (length (index_labels f)) cm).
Proof.
  intros Hwf Hcat Hnd Hfit.
  assert (Hpre : ~ In (-1)%Z (keys pre)).
  { rewrite Hcat in Hnd. unfold keys in *. rewrite map_app in Hnd.
    cbn [map fst] in Hnd. apply NoDup_remove_2 in Hnd.
    intro H. apply Hnd. apply in_or_app. now left. }
  assert (Hkeys : keys (_categories self)
                  = keys pre ++ (-1)%Z :: keys post).
  { rewrite Hcat. unfold keys. now rewrite map_app. }
  assert (Hidx : index (keys (_categories self)) (-1)
                 = Ok (length (keys pre))).
  { rewrite Hkeys. now apply index_app_absent. }
  destruct (draw_ok_length out self show_null_column _ (proj1 Hwf) Hidx)
    as (cm & Hdraw & Hlen).
  assert (Hne : _categories self <> []).
  { rewrite Hcat. now destruct pre. }
  pose proof (first_row_length self Hwf Hne) as Hfirst.
  assert (Hn : length (_categories self)
               = (length pre + S (length post))%nat).
  { rewrite Hcat, length_app. reflexivity. }
  assert (Hrow : getitems (_categories self) (keys (pre ++ post))
                 = Got (map snd (pre ++ post))).
  { apply getitems_incl; [exact Hnd|]. rewrite Hcat. intros x Hx.
    apply in_app_or in Hx. apply in_or_app.
    destruct Hx as [Hx|Hx]; [now left|right; now right]. }
  assert (Hall : getitems (_categories self) (keys (_categories self))
                 = Got (map snd (_categories self))).
  { apply getitems_incl; [exact Hnd|apply incl_refl]. }
  unfold draw_frame. rewrite Hidx, Hdraw.
  destruct show_null_column; cbn [negb].
  - assert (Hex : except_index 0 (length (keys pre))
                     (keys (_categories self)) = keys pre ++ keys post)
      by (rewrite Hkeys; apply except_index_drop).
    rewrite Hex. unfold keys in Hrow. rewrite map_app in Hrow. unfold keys.
    rewrite Hrow. fold (keys (_categories self)). rewrite Hall.
    unfold new_frame. rewrite !length_map, Hfirst, Hlen, Hn, length_app.
    replace (length pre + length post =? length pre + S (length post) - 1)%nat
      with true by (symmetry; apply Nat.eqb_eq; lia).
    rewrite Nat.sub_0_r, Nat.eqb_refl. cbn [andb].
    eexists. exists cm. split; [reflexivity|]. split; [reflexivity|].
    cbn [column_labels index_labels values]. split; [reflexivity|].
    rewrite Hcat. split; [reflexivity|].
    rewrite length_rev, length_map, length_app. reflexivity.
  - destruct Hfit as [Hfit|Hfit]; [discriminate|]. subst post.
    rewrite Hkeys. cbn [keys map]. rewrite delete_app, !app_nil_r.
    rewrite except_index_keep. rewrite app_nil_r in Hrow. rewrite Hrow.
    unfold new_frame. rewrite !length_map, Hfirst, Hlen, Hn.
    cbn [length].
    replace (length pre + 1 - 1)%nat with (length pre) by lia.
    rewrite Nat.eqb_refl. cbn [andb].
    eexists. exists cm. split; [reflexivity|]. split; [reflexivity|].
    cbn [column_labels index_labels values]. split; [reflexivity|].
    split; [reflexivity|].
    now rewrite length_rev, length_map.
Qed.

(** X22.  When -1 is registered before another key and the null column
    is hidden, which is the default, [draw] always raises [ValueError]:
    the row labels are filtered by position a second time, after -1 has
    been popped, so one more label is dropped and the labels no longer
    fit the array. *)
Theorem draw_frame_null_not_last (out : nat -> nat -> Q)
    (self : ConfusionMatrix) (pre post : dict) (v : string) :
  well_formed self ->
  _categories self = pre ++ ((-1)%Z, v) :: post ->
  NoDup (keys (_categories self)) ->
  post <> [] ->
  draw_frame out self false = Failed (Builtin ValueError).
Proof.
  intros Hwf Hcat Hnd Hpost.
  destruct post as [|[k' v'] post]; [congruence|].
  assert (Hpre : ~ In (-1)%Z (keys pre)).
  { rewrite Hcat in Hnd. unfold keys in *. rewrite map_app in Hnd.
    cbn [map fst] in Hnd. apply NoDup_remove_2 in Hnd.
    intro H. apply Hnd. apply in_or_app. now left. }
  assert (Hkeys : keys (_categories self)
                  = keys pre ++ (-1)%Z :: k' :: keys post).
  { rewrite Hcat. unfold keys. now rewrite map_app. }
  assert (Hidx : index (keys (_categories self)) (-1)
                 = Ok (length (keys pre))).
  { rewrite Hkeys. now apply index_app_absent. }
  destruct (draw_ok_length out self false _ (proj1 Hwf) Hidx)
    as (cm & Hdraw & Hlen).
  assert (Hn : length (_categories self)
               = (length pre + S (S (length post)))%nat).
  { rewrite Hcat, length_app. reflexivity. }
  assert (Hrow : getitems (_categories self) (keys (pre ++ post))
                 = Got (map snd (pre ++ post))).
  { apply getitems_incl; [exact Hnd|]. rewrite Hcat. intros x Hx.
    apply in_app_or in Hx. apply in_or_app.
    destruct Hx as [Hx|Hx]; [now left|right; right; now right]. }
  assert (Hcol : getitems (_categories self)
                   (keys (pre ++ (k', v') :: post))
                 = Got (map snd (pre ++ (k', v') :: post))).
  { apply getitems_incl; [exact Hnd|]. rewrite Hcat. intros x Hx.
    apply in_app_or in Hx. apply in_or_app.
    destruct Hx as [Hx|Hx]; [now left|right; now right]. }
  unfold draw_frame. rewrite Hidx, Hdraw. cbn [negb].
  rewrite Hkeys, delete_app, except_index_drop.
  unfold keys in Hrow, Hcol. rewrite map_app in Hrow, Hcol.
  cbn [map fst] in Hcol. unfold keys. rewrite Hrow, Hcol.
  unfold new_frame. rewrite length_map, Hlen, Hn, length_app.
  replace (length pre + length post
           =? length pre + S (S (length post)) - 1)%nat
    with false by (symmetry; apply Nat.eqb_neq; lia).
  reflexivity.
Qed.

Lemma nth_transpose (ncols : nat) (m : list (list Q)) (j c : nat) :
  (j < ncols)%nat ->
  nth c (nth j (transpose ncols m) []) 0 = nth j (nth c m []) 0.
Proof.
  intros Hj. unfold transpose.
  rewrite (@nth_map_seq _ _ 0 ncols j [] Hj). cbn [Nat.add].
  destruct (Nat.lt_ge_cases c (length m)) as [Hc|Hc].
  - rewrite (nth_indep _ 0 (nth j [] 0)) by (now rewrite length_map).
    now rewrite (map_nth (fun r => nth j r 0)).
  - rewrite (nth_overflow (map (fun r => nth j r 0) m))
      by (rewrite length_map; lia).
    rewrite (nth_overflow m) by lia. now destruct j.
Qed.

(** X23.  In the frame handed to [imshow] the true label runs along the
    columns and the predicted label along the rows, bottom-up: with [n]
    rows, the cell in row [r] and column [c] is the normalised entry of
    true-label row [c] and predicted-label column [n - 1 - r]. *)
Theorem draw_frame_orientation (out : nat -> nat -> Q)
    (self : ConfusionMatrix) (show_null_column : bool) (f : LabelledFrame) :
  draw_frame out self show_null_column = Got f ->
  exists cm,
    draw out self show_null_column = Ok cm
    /\ length (column_labels f) = length cm
    /\ length (values f) = length (index_labels f)
    /\ forall r c, (r < length (index_labels f))%nat ->
         nth c (nth r (values f) []) 0
         = nth (length (index_labels f) - 1 - r) (nth c cm []) 0.
Proof.
  unfold draw_frame. intros H.
  destruct (index (keys (_categories self)) (-1)) as [k|e]; [|discriminate].
  destruct (draw out self show_null_column) as [cm|e]; [|discriminate].
  destruct (getitems _ (except_index _ _ _)) as [rl|e]; [|discriminate].
  destruct (getitems _ _) as [cl|e]; [|discriminate].
  unfold new_frame in H.
  destruct ((length rl =? length cm)%nat
            && (length cl =? _)%nat) eqn:E; [|discriminate].
  apply andb_true_iff in E. destruct E as [E1 E2].
  apply Nat.eqb_eq in E1. apply Nat.eqb_eq in E2.
  inversion H; subst f; clear H.
  cbn [column_labels index_labels values].
  exists cm. split; [reflexivity|]. split; [exact E1|].
  rewrite !length_rev. rewrite <- E2.
  assert (Ht : length (transpose (length cl) cm) = length cl).
  { unfold transpose. now rewrite length_map, length_seq. }
  split; [exact Ht|]. intros r c Hr.
  rewrite rev_nth by (rewrite Ht; exact Hr). rewrite Ht.
  rewrite nth_transpose by lia. f_equal. lia.
Qed.

End DrawFrame.

Lemma draw_frame_labels_witness :
  exists f,
    Frame.draw_frame (fun _ _ => 0) (Confusion.__init__ two_categories) false
    = Frame.Got f
    /\ Frame.column_labels f = ["A"; "B"]%string
    /\ Frame.index_labels f = ["B"; "A"]%string.
Proof.
  assert (Hnd : NoDup (Confusion.keys
                         (Confusion._categories
                            (Confusion.__init__ two_categories)))).
  { repeat constructor; cbn; intuition discriminate. }
  destruct (draw_frame_labels (fun _ _ => 0)
              (Confusion.__init__ two_categories) two_categories []
              "Null" false (init_well_formed two_categories) eq_refl Hnd
              (or_intror eq_refl))
    as (f & cm & Hf & _ & Hc & Hi & _).
  exists f. split; [exact Hf|]. split; [exact Hc|exact Hi].
Defined.

Lemma draw_frame_null_not_last_witness :
  Frame.draw_frame (fun _ _ => 0)
    (Confusion.__init__ [((-1)%Z, "Null"%string); (0%Z, "A"%string)]) false
  = Frame.Failed (Frame.Builtin ValueError).
Proof.
  apply (draw_frame_null_not_last (fun _ _ => 0)
           (Confusion.__init__ [((-1)%Z, "Null"%string); (0%Z, "A"%string)])
           [] [(0%Z, "A"%string)] "Null").
  - apply init_well_formed.
  - reflexivity.
  - repeat constructor; cbn; intuition discriminate.
  - discriminate.
Defined.

Lemma draw_frame_orientation_witness :
  exists cm,
    Confusion.draw (fun _ _ => 0)
      (fst (Confusion.add_sample (Confusion.__init__ two_categories)
              [(0%Z, ([Fin 0; Fin 0], [Fin 0; Fin 1]))])) true
    = Ok cm
    /\ nth 0 (nth 1 cm []) 0 = 0.
Proof.
  destruct (draw_frame_orientation (fun _ _ => 0)
              (fst (Confusion.add_sample (Confusion.__init__ two_categories)
                      [(0%Z, ([Fin 0; Fin 0], [Fin 0; Fin 1]))]))
              true _ eq_refl)
    as (cm & Hcm & _ & _ & Hcell).
  exists cm. split; [exact Hcm|].
  symmetry. exact (Hcell 2%nat 1%nat ltac:(cbn; lia)).
Defined.

(** ** [add_sample]: when a call returns *)

Section AddSampleOutcome.

Import Confusion.

Lemma accepted_pairs_perm (labels : list Z) (d1 d2 : Data) :
  Permutation d1 d2 ->
  Permutation (accepted_pairs labels d1) (accepted_pairs labels d2).
Proof.
  induction 1 as [|[c v] d1 d2 _ IH|[c1 v1] [c2 v2] d|d1 d2 d3 _ IH1 _ IH2].
  - constructor.
  - cbn [accepted_pairs fst snd]. destruct (contains labels c);
      [now apply Permutation_app_head|exact IH].
  - cbn [accepted_pairs fst snd].
    destruct (contains labels c1), (contains labels c2);
      try apply Permutation_refl.
    apply Permutation_app_swap_app.
  - now transitivity (accepted_pairs labels d2).
Qed.

(** X24.  A call of [add_sample] on an object whose matrix has the shape
    of the registry returns whenever [confusion_matrix] accepts every
    group of a registered category and none of these groups is empty.
    When the call returns, every group of a registered category was
    accepted and the matrix has grown by the table of counts of the
    events of these groups.  When it raises, the exception is
    [ValueError]. *)
Theorem add_sample_returns_when_accepted
    (self : ConfusionMatrix) (data : Data) :
  well_formed self ->
  (Forall (fun g => contains (keys (_categories self)) (fst g) = true ->
                    fst (snd g) <> []
                    /\ accepted (keys (_categories self)) (fst (snd g))
                         (nan_to_num (snd (snd g)) (-1))) data ->
   add_sample self data
   = (add_matrix self
        (count_matrix (keys (_categories self))
           (accepted_pairs (keys (_categories self)) data)), Ok tt))
  /\ (forall s,
        add_sample self data = (s, Ok tt) ->
        Forall (group_accepted (keys (_categories self))) data
        /\ s = add_matrix self
                 (count_matrix (keys (_categories self))
                    (accepted_pairs (keys (_categories self)) data)))
  /\ (forall e, snd (add_sample self data) = Raise e -> e = ValueError).
Proof.
  intros Hwf. split; [|split].
  - intros Hall. apply add_sample_accepts; [exact Hwf|].
    eapply Forall_impl; [|exact Hall]. intros g Hg Hc. now apply Hg.
  - intros s H. pose proof (add_sample_returned data self s H) as Hall.
    split; [exact Hall|].
    rewrite (add_sample_accepts data self Hwf Hall) in H. now inversion H.
  - intros e He.
    assert (Hnot : ~ Forall (group_accepted (keys (_categories self))) data).
    { intro Hall. rewrite (add_sample_accepts data self Hwf Hall) in He.
      discriminate He. }
    rewrite (add_sample_refuses data self Hnot) in He. now inversion He.
Qed.

(** X25.  The order in which the groups are handed over does not
    matter to a call that returns: the same groups in any other order
    are accepted too and leave the same matrix. *)
Theorem add_sample_group_order (self s : ConfusionMatrix) (d1 d2 : Data) :
  well_formed self ->
  Permutation d1 d2 ->
  add_sample self d1 = (s, Ok tt) ->
  add_sample self d2 = (s, Ok tt).
Proof.
  intros Hwf Hperm H1.
  pose proof (add_sample_returned d1 self s H1) as Hall.
  rewrite (add_sample_accepts d1 self Hwf Hall) in H1.
  inversion H1 as [Hs]. clear H1.
  rewrite (add_sample_accepts d2 self Hwf).
  - now rewrite (@count_matrix_perm _ _ _
                   (accepted_pairs_perm (keys (_categories self)) d1 d2 Hperm)).
  - eapply Permutation_Forall; eassumption.
Qed.

End AddSampleOutcome.

Lemma add_sample_returns_when_accepted_witness :
  Confusion.add_sample (Confusion.__init__ two_categories)
    [(0%Z, ([Fin 0; Fin 5], [Fin 0; Fin 1])); (7%Z, ([Fin 5], [PInf]))]
  = (add_matrix (Confusion.__init__ two_categories)
       [[1; 0; 0]; [0; 0; 0]; [0; 0; 0]]%Z, Ok tt).
Proof.
  apply (proj1 (add_sample_returns_when_accepted
                  (Confusion.__init__ two_categories)
                  [(0%Z, ([Fin 0; Fin 5], [Fin 0; Fin 1]));
                   (7%Z, ([Fin 5], [PInf]))]
                  (init_well_formed two_categories))).
  constructor; [|constructor; [|constructor]].
  - intros _. split; [discriminate|]. cbn [fst snd].
    repeat split; try reflexivity; try discriminate. right. reflexivity.
  - intros H. discriminate H.
Defined.

Lemma add_sample_group_order_witness :
  exists s,
    Confusion.add_sample (Confusion.__init__ two_categories)
      [(1%Z, ([Fin 1], [Fin 1])); (0%Z, ([Fin 0; Fin 0], [Fin 0; Fin 1]))]
    = (s, Ok tt).
Proof.
  eexists.
  apply (add_sample_group_order (Confusion.__init__ two_categories) _
           [(0%Z, ([Fin 0; Fin 0], [Fin 0; Fin 1]));
            (1%Z, ([Fin 1], [Fin 1]))]
           [(1%Z, ([Fin 1], [Fin 1]));
            (0%Z, ([Fin 0; Fin 0], [Fin 0; Fin 1]))]
           (init_well_formed two_categories)
           (perm_swap _ _ [])).
  reflexivity.
Defined.
